(** * Note/branch lifecycle engine of Trilium ([src/services/notes.js])

    A shallow embedding of the service functions of [notes.js] over an
    explicit model of the persistent store, and the properties of the
    position allocator, the revision snapshot policy, the image reference
    tracker, the protection propagator and the deletion cascade. *)

From Stdlib Require Import ZArith List String Ascii Bool Lia Arith DecimalString.
Import ListNotations.

Local Open Scope string_scope.
Local Open Scope Z_scope.

(** ** JavaScript values

    The entity fields that [notes.js] assigns from untyped sources
    ([isDeleted] receives [0], [1] and [true]; [title], [content] and
    [isProtected] receive whatever the update object holds) are kept as
    JavaScript values.  Numbers are the integers, which is what the
    columns of the store hold. *)

Inductive jsval : Type :=
| JUndefined
| JNull
| JBool (b : bool)
| JNum (n : Z)
| JStr (s : string).

(** Strict equality [===] on the values above. *)
Definition js_strict_eq (a b : jsval) : bool :=
  match a, b with
  | JUndefined, JUndefined => true
  | JNull, JNull => true
  | JBool x, JBool y => Bool.eqb x y
  | JNum x, JNum y => Z.eqb x y
  | JStr x, JStr y => String.eqb x y
  | _, _ => false
  end.

(** [ToString], as applied by [RegExp.prototype.exec] to its argument. *)
Definition js_to_string (v : jsval) : string :=
  match v with
  | JUndefined => "undefined"
  | JNull => "null"
  | JBool true => "true"
  | JBool false => "false"
  | JNum n => NilZero.string_of_int (Z.to_int n)
  | JStr s => s
  end.

(** Truthiness of a string, as tested by [!x]. *)
Definition str_truthy (s : string) : bool := negb (String.eqb s EmptyString).

(** The column image of a value bound to an SQL statement: the store has no
    boolean type, a boolean is kept as the integer 1 or 0, and an undefined
    value as NULL. *)
Definition to_sql (v : jsval) : jsval :=
  match v with
  | JBool true => JNum 1
  | JBool false => JNum 0
  | JUndefined => JNull
  | _ => v
  end.

(** The SQL test [column = 0] of the queries of [notes.js]. *)
Definition sql_eq0 (v : jsval) : bool :=
  match v with
  | JNum n => Z.eqb n 0
  | _ => false
  end.

(** A number of [notes.js] is a JavaScript number, an IEEE 754 double.  The
    positions are integers, and the columns that hold them are 64-bit
    integer columns: an integer of magnitude up to 2^53 is a number; a
    larger one is represented by the nearest number, which has 53
    significant bits, a tie going to the even significand.  (Positions stay
    far below 2^1024, where the finite numbers end.) *)
Definition to_number (n : Z) : Z :=
  let a := Z.abs n in
  if a <=? 9007199254740992 then n
  else
    let ulp := 2 ^ (Z.log2 a - 52) in
    let q := a / ulp in
    let r := a mod ulp in
    let q' := if 2 * r <? ulp then q
              else if ulp <? 2 * r then q + 1
              else if Z.even q then q else q + 1 in
    Z.sgn n * (q' * ulp).

(** [a + b] on two numbers: the exact sum, rounded to a number. *)
Definition js_add (a b : Z) : Z := to_number (a + b).

(** A timestamp.  The store keeps formatted timestamps whose lexical order is
    the chronological order; they are represented by the instant they denote,
    in milliseconds. *)
Definition datetime : Type := Z.

(** ** Entities *)

Module Branch.
Record t : Type := mk
  { branchId : string;
    noteId : string;
    parentNoteId : string;
    notePosition : Z;
    isExpanded : jsval;
    isDeleted : jsval }.

Definition set_isDeleted (v : jsval) (b : t) : t :=
  mk (branchId b) (noteId b) (parentNoteId b) (notePosition b) (isExpanded b) v.

Definition set_notePosition (p : Z) (b : t) : t :=
  mk (branchId b) (noteId b) (parentNoteId b) p (isExpanded b) (isDeleted b).

(** The row that persisting the entity leaves in the store. *)
Definition row (b : t) : t :=
  mk (branchId b) (noteId b) (parentNoteId b) (notePosition b)
     (to_sql (isExpanded b)) (to_sql (isDeleted b)).
End Branch.

Module Note.
Record t : Type := mk
  { noteId : string;
    title : jsval;
    content : jsval;
    type : string;
    mime : string;
    isProtected : jsval;
    isDeleted : jsval;
    dateCreated : datetime;
    dateModified : datetime }.

Definition set_title (v : jsval) (n : t) : t :=
  mk (noteId n) v (content n) (type n) (mime n) (isProtected n) (isDeleted n)
     (dateCreated n) (dateModified n).

Definition set_content (v : jsval) (n : t) : t :=
  mk (noteId n) (title n) v (type n) (mime n) (isProtected n) (isDeleted n)
     (dateCreated n) (dateModified n).

Definition set_isProtected (v : jsval) (n : t) : t :=
  mk (noteId n) (title n) (content n) (type n) (mime n) v (isDeleted n)
     (dateCreated n) (dateModified n).

Definition set_isDeleted (v : jsval) (n : t) : t :=
  mk (noteId n) (title n) (content n) (type n) (mime n) (isProtected n) v
     (dateCreated n) (dateModified n).

Definition row (n : t) : t :=
  mk (noteId n) (to_sql (title n)) (to_sql (content n)) (type n) (mime n)
     (to_sql (isProtected n)) (to_sql (isDeleted n))
     (dateCreated n) (dateModified n).
End Note.

Module NoteRevision.
Record t : Type := mk
  { noteRevisionId : string;
    noteId : string;
    title : jsval;
    content : jsval;
    isProtected : jsval;
    dateModifiedFrom : datetime;
    dateModifiedTo : datetime }.

Definition set_isProtected (v : jsval) (r : t) : t :=
  mk (noteRevisionId r) (noteId r) (title r) (content r) v
     (dateModifiedFrom r) (dateModifiedTo r).

Definition row (r : t) : t :=
  mk (noteRevisionId r) (noteId r) (to_sql (title r)) (to_sql (content r))
     (to_sql (isProtected r)) (dateModifiedFrom r) (dateModifiedTo r).
End NoteRevision.

Module NoteImage.
Record t : Type := mk
  { noteImageId : string;
    noteId : string;
    imageId : string;
    isDeleted : jsval }.

Definition set_isDeleted (v : jsval) (i : t) : t :=
  mk (noteImageId i) (noteId i) (imageId i) v.

Definition row (i : t) : t :=
  mk (noteImageId i) (noteId i) (imageId i) (to_sql (isDeleted i)).
End NoteImage.

(** ** The store *)

(** A write issued against the store: an entity handed to
    [repository.updateEntity] (or saved), or the position shift statement. *)
Inductive Write : Type :=
| WNote (n : Note.t)
| WBranch (b : Branch.t)
| WNoteRevision (r : NoteRevision.t)
| WNoteImage (i : NoteImage.t)
| WShiftPositions (parentNoteId : string) (after : Z).

Record World : Type := mkWorld
  { notes : list Note.t;
    branches : list Branch.t;
    note_revisions : list NoteRevision.t;
    note_images : list NoteImage.t;
    (* the label object of each note: note identifier, then name, to value *)
    labels : string -> string -> option string;
    (* reorder notifications recorded in the sync table, oldest first *)
    reorderings : list string;
    (* every write issued so far, oldest first *)
    writes : list Write;
    (* number of note image identifiers generated so far *)
    generated : nat }.

(** Modelled from the spec: the utilities ([utils]) and the configuration
    store ([options]) are not part of [notes.js].  This is what the service
    reads from them during one request: the clock, the snapshot interval in
    seconds, and generated identifiers, which are opaque strings. *)
Record Env : Type := mkEnv
  { (* [new Date().getTime()] *)
    now : Z;
    (* [utils.nowDate()] *)
    nowDate : datetime;
    (* [parseInt] of the option note_revision_snapshot_time_interval *)
    noteRevisionSnapshotTimeInterval : Z;
    (* [utils.newNoteRevisionId()] *)
    newNoteRevisionId : string;
    (* [utils.newNoteImageId()], by the number of identifiers already drawn *)
    newNoteImageId : nat -> string }.

(** ** Computations: state, exceptions, and recursion depth *)

Inductive Res (A : Type) : Type :=
| Ok (a : A) (w : World)
| Throw (msg : string) (w : World)
| OutOfFuel.

Arguments Ok {A} a w.
Arguments Throw {A} msg w.
Arguments OutOfFuel {A}.

Definition M (A : Type) : Type := World -> Res A.

Definition ret {A} (a : A) : M A := fun w => Ok a w.

Definition bind {A B} (m : M A) (k : A -> M B) : M B :=
  fun w =>
    match m w with
    | Ok a w' => k a w'
    | Throw msg w' => Throw msg w'
    | OutOfFuel => OutOfFuel
    end.

Definition throw {A} (msg : string) : M A := fun w => Throw msg w.

Definition get {A} (f : World -> A) : M A := fun w => Ok (f w) w.

Definition modify (f : World -> World) : M unit := fun w => Ok tt (f w).

Declare Scope m_scope.
Delimit Scope m_scope with m.
Notation "x <- c1 ;; c2" := (bind c1 (fun x => c2))
  (at level 61, c1 at next level, right associativity) : m_scope.
Notation "c1 ;; c2" := (bind c1 (fun _ => c2))
  (at level 61, right associativity) : m_scope.
Local Open Scope m_scope.

(** [for (const x of l) { await body(x) }] *)
Fixpoint for_of {A} (l : list A) (body : A -> M unit) : M unit :=
  match l with
  | [] => ret tt
  | x :: l' => body x ;; for_of l' body
  end.

(** ** Store access

    The query layer ([sql]), the entity repository and the reorder notifier
    ([sync_table]) are not part of [notes.js].  A table is the list of its
    rows.  The queries below follow the SQL text that [notes.js] hands to
    [sql]; persisting and notifying follow the specification. *)

Section Upsert.
Context {R : Type} (key : R -> string).

Definition has_key (k : string) (l : list R) : bool :=
  existsb (fun x => String.eqb (key x) k) l.

Definition replace_key (r : R) (l : list R) : list R :=
  map (fun x => if String.eqb (key x) (key r) then r else x) l.

Definition upsert (r : R) (l : list R) : list R :=
  if has_key (key r) l then replace_key r l else l ++ [r].

Definition find_key (k : string) (l : list R) : option R :=
  find (fun x => String.eqb (key x) k) l.
End Upsert.

Definition log (x : Write) (w : World) : World :=
  mkWorld (notes w) (branches w) (note_revisions w) (note_images w)
          (labels w) (reorderings w) (writes w ++ [x]) (generated w).

Definition with_notes (l : list Note.t) (w : World) : World :=
  mkWorld l (branches w) (note_revisions w) (note_images w)
          (labels w) (reorderings w) (writes w) (generated w).

Definition with_branches (l : list Branch.t) (w : World) : World :=
  mkWorld (notes w) l (note_revisions w) (note_images w)
          (labels w) (reorderings w) (writes w) (generated w).

Definition with_note_revisions (l : list NoteRevision.t) (w : World) : World :=
  mkWorld (notes w) (branches w) l (note_images w)
          (labels w) (reorderings w) (writes w) (generated w).

Definition with_note_images (l : list NoteImage.t) (w : World) : World :=
  mkWorld (notes w) (branches w) (note_revisions w) l
          (labels w) (reorderings w) (writes w) (generated w).

Definition with_reorderings (l : list string) (w : World) : World :=
  mkWorld (notes w) (branches w) (note_revisions w) (note_images w)
          (labels w) l (writes w) (generated w).

Definition with_generated (n : nat) (w : World) : World :=
  mkWorld (notes w) (branches w) (note_revisions w) (note_images w)
          (labels w) (reorderings w) (writes w) n.

(** Modelled from the spec: [repository.updateEntity(note)] and
    [note.save()] of the entity repository, "persist any entity": the rows
    with the primary key of the entity are replaced by its column image, or
    a row is added when there is none.  What else the repository may do on
    saving (time stamps, encryption) is not part of the model. *)
Definition save_note (n : Note.t) (w : World) : World :=
  log (WNote n) (with_notes (upsert Note.noteId (Note.row n) (notes w)) w).

(** Modelled from the spec: [branch.save()], as [save_note]. *)
Definition save_branch (b : Branch.t) (w : World) : World :=
  log (WBranch b) (with_branches (upsert Branch.branchId (Branch.row b) (branches w)) w).

(** Modelled from the spec: [repository.updateEntity(noteRevision)], as
    [save_note]. *)
Definition save_note_revision (r : NoteRevision.t) (w : World) : World :=
  log (WNoteRevision r)
      (with_note_revisions
         (upsert NoteRevision.noteRevisionId (NoteRevision.row r) (note_revisions w)) w).

(** Modelled from the spec: [repository.updateEntity(noteImage)], as
    [save_note]. *)
Definition save_note_image (i : NoteImage.t) (w : World) : World :=
  log (WNoteImage i)
      (with_note_images (upsert NoteImage.noteImageId (NoteImage.row i) (note_images w)) w).

(** The rows selected by [parentNoteId = ? AND isDeleted = 0]. *)
Definition is_child_of (parentNoteId : string) (b : Branch.t) : bool :=
  String.eqb (Branch.parentNoteId b) parentNoteId && sql_eq0 (Branch.isDeleted b).

Definition child_branches (parentNoteId : string) (w : World) : list Branch.t :=
  filter (is_child_of parentNoteId) (branches w).

(** The aggregate [MAX] over a list of integers; NULL on no rows. *)
Fixpoint sql_max (l : list Z) : option Z :=
  match l with
  | [] => None
  | x :: l' =>
      match sql_max l' with
      | None => Some x
      | Some m => Some (Z.max x m)
      end
  end.

(** [SELECT MAX(notePosition) FROM branches
     WHERE parentNoteId = ? AND isDeleted = 0] *)
Definition select_max_notePosition (parentNoteId : string) (w : World) : option Z :=
  sql_max (map Branch.notePosition (child_branches parentNoteId w)).

(** [SELECT notePosition FROM branches WHERE branchId = ?] *)
Definition select_notePosition (branchId : string) (w : World) : option Z :=
  option_map Branch.notePosition (find_key Branch.branchId branchId (branches w)).

(** [UPDATE branches SET notePosition = notePosition + 1
     WHERE parentNoteId = ? AND notePosition > ? AND isDeleted = 0] *)
Definition shift_row (parentNoteId : string) (p : Z) (b : Branch.t) : Branch.t :=
  if is_child_of parentNoteId b && (p <? Branch.notePosition b)
  then Branch.set_notePosition (Branch.notePosition b + 1) b
  else b.

Definition update_shift_positions (parentNoteId : string) (p : Z) (w : World) : World :=
  log (WShiftPositions parentNoteId p)
      (with_branches (map (shift_row parentNoteId p) (branches w)) w).

(** Modelled from the spec: [sync_table.addNoteReorderingSync(parentNoteId)]
    "records that a parent's children order changed". *)
Definition addNoteReorderingSync (parentNoteId : string) : M unit :=
  modify (fun w => with_reorderings (reorderings w ++ [parentNoteId]) w).

(** ** Position allocator *)

Record NoteOpts : Type := mkNoteOpts
  { target : jsval;
    target_branchId : string }.

(** The values that the two queries return are JavaScript numbers, and so
    are the sums [maxNotePos + 1] and [afterNote.notePosition + 1]; the sum
    [notePosition + 1] of the UPDATE statement is integer arithmetic of the
    store. *)
Definition getNewNotePosition (parentNoteId : string) (noteOpts : NoteOpts) : M Z :=
  if js_strict_eq (target noteOpts) (JStr "into") then
    maxNotePos <- get (select_max_notePosition parentNoteId) ;;
    ret (match maxNotePos with
         | None => 0
         | Some m => js_add (to_number m) 1
         end)
  else if js_strict_eq (target noteOpts) (JStr "after") then
    afterNote <- get (select_notePosition (target_branchId noteOpts)) ;;
    match afterNote with
    | None => throw "TypeError: Cannot read property 'notePosition' of null"
    | Some p =>
        let p := to_number p in
        modify (update_shift_positions parentNoteId p) ;;
        addNoteReorderingSync parentNoteId ;;
        ret (js_add p 1)
    end
  else
    throw ("Unknown target: " ++ js_to_string (target noteOpts)).

(** ** Relationship accessors

    The entity classes ([entities/note.js], [entities/branch.js]) and the
    repository are not part of [notes.js]; the accessors are those of
    section 6 of the specification. *)

(** Modelled from the spec: [repository.getNote(noteId)] and
    [branch.getNote()], the note with this identifier, or null. *)
Definition getNote (noteId : string) (w : World) : option Note.t :=
  find_key Note.noteId noteId (notes w).

(** Modelled from the spec: [note.getBranches()], "get non-deleted
    branches" of the note. *)
Definition getBranches (note : Note.t) (w : World) : list Branch.t :=
  filter (fun b => String.eqb (Branch.noteId b) (Note.noteId note)
                   && sql_eq0 (Branch.isDeleted b))
         (branches w).

(** Modelled from the spec: [note.getChildBranches()], "every non-deleted
    branch whose parent is this note". *)
Definition getChildBranches (note : Note.t) (w : World) : list Branch.t :=
  child_branches (Note.noteId note) w.

(** Modelled from the spec: [note.getChildNotes()], the notes placed by the
    "non-deleted branches whose parent is this note". *)
Definition getChildNotes (note : Note.t) (w : World) : list Note.t :=
  flat_map (fun b => match getNote (Branch.noteId b) w with
                     | Some n => [n]
                     | None => []
                     end)
           (getChildBranches note w).

(** Modelled from the spec: [note.getRevisions()], the revisions of the
    note. *)
Definition getRevisions (note : Note.t) (w : World) : list NoteRevision.t :=
  filter (fun r => String.eqb (NoteRevision.noteId r) (Note.noteId note))
         (note_revisions w).

(** Modelled from the spec: [note.getNoteImages()], the tracked images of
    the note: its image records that are not deleted. *)
Definition getNoteImages (note : Note.t) (w : World) : list NoteImage.t :=
  filter (fun i => String.eqb (NoteImage.noteId i) (Note.noteId note)
                   && sql_eq0 (NoteImage.isDeleted i))
         (note_images w).

(** A property read on the label object: the value, or undefined. *)
Definition get_label (labelsMap : string -> option string) (name : string) : jsval :=
  match labelsMap name with
  | Some v => JStr v
  | None => JUndefined
  end.

(** Modelled from the spec: [note.getLabelMap()], the "mapping of name to
    value" of the labels of the note. *)
Definition getLabelMap (note : Note.t) (w : World) : string -> option string :=
  labels w (Note.noteId note).

(** ** Protection propagator *)

Definition protectNoteRevisions (note : Note.t) : M unit :=
  revisions <- get (getRevisions note) ;;
  for_of revisions (fun revision =>
    if negb (js_strict_eq (Note.isProtected note) (NoteRevision.isProtected revision))
    then modify (save_note_revision
                   (NoteRevision.set_isProtected (Note.isProtected note) revision))
    else ret tt).

(** The note object is mutated in place; the result is the object after the
    call. *)
Definition protectNote (note : Note.t) (protect : jsval) : M Note.t :=
  note <- (if negb (js_strict_eq protect (Note.isProtected note))
           then modify (save_note (Note.set_isProtected protect note)) ;;
                ret (Note.set_isProtected protect note)
           else ret note) ;;
  protectNoteRevisions note ;;
  ret note.

(** [depth] bounds the depth of the calls, as for [deleteNote] below. *)
Fixpoint protectNoteRecursively (depth : nat) (note : Note.t) (protect : jsval) : M unit :=
  match depth with
  | O => fun _ => OutOfFuel
  | S depth' =>
      note <- protectNote note protect ;;
      children <- get (getChildNotes note) ;;
      for_of children (fun child => protectNoteRecursively depth' child protect)
  end.

(** ** Image reference tracker *)

Definition is_alnum (c : ascii) : bool :=
  let n := nat_of_ascii c in
  ((48 <=? n) && (n <=? 57) || (65 <=? n) && (n <=? 90) || (97 <=? n) && (n <=? 122))%nat.

(** The literal head of the pattern: src= , a double quote, /api/images/ *)
Definition image_src_prefix : string :=
  "src=" ++ String (ascii_of_nat 34) "/api/images/".

Fixpoint strip_prefix (p s : string) : option string :=
  match p with
  | EmptyString => Some s
  | String a p' =>
      match s with
      | EmptyString => None
      | String b s' => if Ascii.eqb a b then strip_prefix p' s' else None
      end
  end.

(** The longest alphanumeric head of a string, and what follows it. *)
Fixpoint take_alnum (s : string) : string * string :=
  match s with
  | EmptyString => (EmptyString, EmptyString)
  | String c s' =>
      if is_alnum c
      then let (id, rest) := take_alnum s' in (String c id, rest)
      else (EmptyString, s)
  end.

(** A match of the pattern at the head of the string: the captured group
    and the length of the match.  The group is greedy, and the character
    after it has to be a slash, which is not alphanumeric: only the longest
    alphanumeric run can match. *)
Definition match_here (s : string) : option (string * nat) :=
  match strip_prefix image_src_prefix s with
  | None => None
  | Some r =>
      let (id, rest) := take_alnum r in
      match id, rest with
      | String _ _, String "/" _ =>
          Some (id, (String.length image_src_prefix + String.length id + 1)%nat)
      | _, _ => None
      end
  end.

(** The groups captured by the successive [re.exec] calls of the global
    pattern: each search resumes where the previous match ended ([skip]
    counts the characters of that match still to pass). *)
Fixpoint exec_all (skip : nat) (s : string) : list string :=
  match s with
  | EmptyString => []
  | String _ s' =>
      match skip with
      | S k => exec_all k s'
      | O =>
          match match_here s with
          | Some (id, len) => id :: exec_all (len - 1) s'
          | None => exec_all 0 s'
          end
      end
  end.

Definition find_image (imageId : string) (l : list NoteImage.t) : option NoteImage.t :=
  find (fun ni => String.eqb (NoteImage.imageId ni) imageId) l.

Definition includes (l : list string) (x : string) : bool :=
  existsb (String.eqb x) l.

(** [repository.updateEntity(new NoteImage({...}))] with a newly drawn
    identifier. *)
Definition create_note_image (env : Env) (note : Note.t) (imageId : string) : M unit :=
  modify (fun w =>
    save_note_image
      (NoteImage.mk (newNoteImageId env (generated w)) (Note.noteId note) imageId (JNum 0))
      (with_generated (S (generated w)) w)).

(** The [while] loop runs once for each match of the pattern in the content,
    which it does not change: it is the loop over the groups captured. *)
Definition saveNoteImages (env : Env) (note : Note.t) : M unit :=
  if negb (String.eqb (Note.type note) "text") then ret tt
  else
    existingNoteImages <- get (getNoteImages note) ;;
    let foundImageIds := exec_all 0 (js_to_string (Note.content note)) in
    for_of foundImageIds (fun imageId =>
      match find_image imageId existingNoteImages with
      | None => create_note_image env note imageId
      | Some _ => ret tt
      end) ;;
    let unusedNoteImages :=
      filter (fun ni => negb (includes foundImageIds (NoteImage.imageId ni)))
             existingNoteImages in
    for_of unusedNoteImages (fun unusedNoteImage =>
      modify (save_note_image (NoteImage.set_isDeleted (JNum 1) unusedNoteImage))).

(** ** Revision snapshot policy *)

(** [SELECT noteRevisionId FROM note_revisions
     WHERE noteId = ? AND dateModifiedTo >= ?], first row or nothing. *)
Definition select_recent_revision (noteId : string) (cutoff : datetime) (w : World)
  : option string :=
  option_map NoteRevision.noteRevisionId
    (find (fun r => String.eqb (NoteRevision.noteId r) noteId
                    && (cutoff <=? NoteRevision.dateModifiedTo r))
          (note_revisions w)).

(** Truthiness of the value [sql.getValue] returned. *)
Definition id_truthy (v : option string) : bool :=
  match v with
  | Some s => str_truthy s
  | None => false
  end.

Definition new_revision (env : Env) (note : Note.t) : NoteRevision.t :=
  NoteRevision.mk (newNoteRevisionId env) (Note.noteId note)
                  (Note.title note) (Note.content note) (JNum 0)
                  (Note.dateModified note) (nowDate env).

Definition saveNoteRevision (env : Env) (note : Note.t) : M unit :=
  labelsMap <- get (getLabelMap note) ;;
  let interval := noteRevisionSnapshotTimeInterval env in
  let revisionCutoff := now env - interval * 1000 in
  existingnoteRevisionId <- get (select_recent_revision (Note.noteId note) revisionCutoff) ;;
  let msSinceDateCreated := now env - Note.dateCreated note in
  if negb (String.eqb (Note.type note) "file")
     && negb (js_strict_eq (get_label labelsMap "disable_versioning") (JStr "true"))
     && negb (id_truthy existingnoteRevisionId)
     && (interval * 1000 <=? msSinceDateCreated)
  then modify (save_note_revision (new_revision env note))
  else ret tt.

(** ** Note update *)

(** The update object of a request: its own properties, in order. *)
Definition jsobject : Type := list (string * jsval).

Definition get_prop (o : jsobject) (name : string) : jsval :=
  match find_key fst name o with
  | Some kv => snd kv
  | None => JUndefined
  end.

Definition set_prop (name : string) (v : jsval) (o : jsobject) : jsobject :=
  upsert fst (name, v) o.

(** For a file note the content property of the update object is
    overwritten before the object is read. *)
Definition updateNote (env : Env) (noteId : string) (noteUpdates : jsobject) : M unit :=
  note <- get (getNote noteId) ;;
  match note with
  | None => throw "TypeError: Cannot read property 'type' of null"
  | Some note =>
      let noteUpdates :=
        if String.eqb (Note.type note) "file"
        then set_prop "content" (Note.content note) noteUpdates
        else noteUpdates in
      saveNoteRevision env note ;;
      let note := Note.set_title (get_prop noteUpdates "title") note in
      let note := Note.set_content (get_prop noteUpdates "content") note in
      let note := Note.set_isProtected (get_prop noteUpdates "isProtected") note in
      modify (save_note note) ;;
      saveNoteImages env note ;;
      protectNoteRevisions note
  end.

(** ** Deletion cascade *)

(** The recursion of [deleteNote] follows the branches of the store and is
    not structural: [depth] bounds the depth of the calls. *)
Fixpoint deleteNote (depth : nat) (branch : option Branch.t) : M unit :=
  match branch with
  | None => ret tt
  | Some branch =>
      if js_strict_eq (Branch.isDeleted branch) (JNum 1) then ret tt
      else
        match depth with
        | O => fun _ => OutOfFuel
        | S depth' =>
            let branch := Branch.set_isDeleted (JBool true) branch in
            modify (save_branch branch) ;;
            note <- get (getNote (Branch.noteId branch)) ;;
            match note with
            | None => throw "TypeError: Cannot read property 'getBranches' of null"
            | Some note =>
                notDeletedBranches <- get (getBranches note) ;;
                if Nat.eqb (List.length notDeletedBranches) 0 then
                  let note := Note.set_isDeleted (JBool true) note in
                  modify (save_note note) ;;
                  childBranches <- get (getChildBranches note) ;;
                  for_of childBranches (fun childBranch =>
                    deleteNote depth' (Some childBranch))
                else ret tt
            end
        end
  end.

(** ** Note creation *)

(** Truthiness of a value, as tested by [!x] and by [x ? a : b]. *)
Definition js_truthy (v : jsval) : bool :=
  match v with
  | JUndefined => false
  | JNull => false
  | JBool b => b
  | JNum n => negb (Z.eqb n 0)
  | JStr s => str_truthy s
  end.

(** Truthiness of a property that holds a string or is absent. *)
Definition string_truthy (v : option string) : bool :=
  match v with
  | Some s => str_truthy s
  | None => false
  end.

(** The options object of [createNewNote].  [getNewNotePosition] reads its
    properties [target] and [target_branchId], the record [NoteOpts]; the
    properties [type] and [mime] hold a string or are absent. *)
Module NoteOptions.
Record t : Type := mk
  { placement : NoteOpts;
    title : jsval;
    content : jsval;
    isProtected : jsval;
    type : option string;
    mime : option string }.

Definition set_type (v : option string) (o : t) : t :=
  mk (placement o) (title o) (content o) (isProtected o) v (mime o).

Definition set_mime (v : option string) (o : t) : t :=
  mk (placement o) (title o) (content o) (isProtected o) (type o) v.
End NoteOptions.

(** The [extraOptions] object of [createNote]; [labels] is the object of
    label names and values, in the order of its properties, or is absent. *)
Module ExtraOptions.
Record t : Type := mk
  { json : jsval;
    isProtected : jsval;
    type : option string;
    mime : option string;
    labels : option (list (string * string)) }.

(** The default value [{}] of the parameter. *)
Definition empty : t := mk JUndefined JUndefined None None None.
End ExtraOptions.

(** The object that [createNewNote] returns. *)
Module NewNote.
Record t : Type := mk
  { noteId : string;
    note : Note.t;
    branchId : string;
    branch : Branch.t }.
End NewNote.

(** Modelled from the spec: the identifier generators of [utils] and the
    entity class [Note] are not part of [notes.js].  A creation request reads
    from them a new note identifier and a new branch identifier, opaque
    strings, and the values that the entity class gives to the fields of a
    new note that [notes.js] does not set (isDeleted, dateCreated,
    dateModified): these are parameters.  So is the library function
    [JSON.stringify(content, null, '\t')]. *)
Record NoteEnv : Type := mkNoteEnv
  { newNoteId : string;
    newBranchId : string;
    new_isDeleted : jsval;
    new_dateCreated : datetime;
    new_dateModified : datetime;
    json_stringify : jsval -> jsval }.

Definition createNewNote (env : NoteEnv) (parentNoteId : string) (noteOpts : NoteOptions.t)
  : M NewNote.t :=
  newNotePos <- getNewNotePosition parentNoteId (NoteOptions.placement noteOpts) ;;
  noteOpts <-
    (if negb (String.eqb parentNoteId "root") then
       parent <- get (getNote parentNoteId) ;;
       noteOpts <-
         (if negb (string_truthy (NoteOptions.type noteOpts)) then
            match parent with
            | None => throw "TypeError: Cannot read property 'type' of null"
            | Some parent =>
                ret (NoteOptions.set_type (Some (Note.type parent)) noteOpts)
            end
          else ret noteOpts) ;;
       (if negb (string_truthy (NoteOptions.mime noteOpts)) then
          match parent with
          | None => throw "TypeError: Cannot read property 'mime' of null"
          | Some parent =>
              ret (NoteOptions.set_mime (Some (Note.mime parent)) noteOpts)
          end
        else ret noteOpts)
     else ret noteOpts) ;;
  let note :=
    Note.mk (newNoteId env)
            (NoteOptions.title noteOpts)
            (if js_truthy (NoteOptions.content noteOpts)
             then NoteOptions.content noteOpts else JStr EmptyString)
            (match NoteOptions.type noteOpts with
             | Some s => if str_truthy s then s else "text"
             | None => "text"
             end)
            (match NoteOptions.mime noteOpts with
             | Some s => if str_truthy s then s else "text/html"
             | None => "text/html"
             end)
            (NoteOptions.isProtected noteOpts)
            (new_isDeleted env) (new_dateCreated env) (new_dateModified env) in
  modify (save_note note) ;;
  let branch :=
    Branch.mk (newBranchId env) (Note.noteId note) parentNoteId newNotePos
              (JNum 0) (JNum 0) in
  modify (save_branch branch) ;;
  ret (NewNote.mk (Note.noteId note) note (Branch.branchId branch) branch).

Definition with_labels (f : string -> string -> option string) (w : World) : World :=
  mkWorld (notes w) (branches w) (note_revisions w) (note_images w)
          f (reorderings w) (writes w) (generated w).

(** Modelled from the spec: [labels.createLabel(noteId, name, value)] of the
    label store, which is not part of [notes.js]: the label object of the
    note then maps the name to the value.  The label store keeps its own
    table; [writes] lists what [notes.js] itself persists. *)
Definition createLabel (noteId labelName value : string) : M unit :=
  modify (fun w =>
    with_labels (fun id name =>
                   if String.eqb id noteId && String.eqb name labelName
                   then Some value
                   else labels w id name) w).

(** The parameter [content] has the default value of the empty string, which
    replaces an undefined argument; [extraOptions] is given in full (its
    default is [ExtraOptions.empty]).  The note object built here has no
    [target_branchId], which the "into" intent does not read. *)
Definition createNote (env : NoteEnv) (parentNoteId : string) (title content : jsval)
    (extraOptions : ExtraOptions.t) : M string :=
  let content :=
    if js_strict_eq content JUndefined then JStr EmptyString else content in
  if negb (str_truthy parentNoteId) then throw "Empty parentNoteId"
  else if negb (js_truthy title) then throw "Empty title"
  else
    let note :=
      NoteOptions.mk
        (mkNoteOpts (JStr "into") EmptyString)
        title
        (if js_truthy (ExtraOptions.json extraOptions)
         then json_stringify env content else content)
        (if negb (js_strict_eq (ExtraOptions.isProtected extraOptions) JUndefined)
         then ExtraOptions.isProtected extraOptions else JBool false)
        (ExtraOptions.type extraOptions)
        (ExtraOptions.mime extraOptions) in
    let note :=
      if js_truthy (ExtraOptions.json extraOptions)
         && negb (string_truthy (NoteOptions.type note))
      then NoteOptions.set_mime (Some "application/json")
             (NoteOptions.set_type (Some "code") note)
      else note in
    let note :=
      if negb (string_truthy (NoteOptions.type note))
      then NoteOptions.set_mime (Some "text/html")
             (NoteOptions.set_type (Some "text") note)
      else note in
    created <- createNewNote env parentNoteId note ;;
    match ExtraOptions.labels extraOptions with
    | Some labels =>
        for_of labels (fun label =>
          createLabel (NewNote.noteId created) (fst label) (snd label))
    | None => ret tt
    end ;;
    ret (NewNote.noteId created).

(** ** The loops and the policy as functions of the store *)

(** One step of the loop of [protectNoteRevisions], as a function of the
    store. *)
Definition protect_revision_step (note : Note.t) (w : World) (revision : NoteRevision.t)
  : World :=
  if negb (js_strict_eq (Note.isProtected note) (NoteRevision.isProtected revision))
  then save_note_revision (NoteRevision.set_isProtected (Note.isProtected note) revision) w
  else w.

(** The steps of the two loops of [saveNoteImages], as functions of the
    store. *)
Definition create_image_step (env : Env) (note : Note.t) (existing : list NoteImage.t)
    (w : World) (imageId : string) : World :=
  match find_image imageId existing with
  | None =>
      save_note_image
        (NoteImage.mk (newNoteImageId env (generated w)) (Note.noteId note) imageId (JNum 0))
        (with_generated (S (generated w)) w)
  | Some _ => w
  end.

Definition mark_unused_step (w : World) (unusedNoteImage : NoteImage.t) : World :=
  save_note_image (NoteImage.set_isDeleted (JNum 1) unusedNoteImage) w.

Definition found_image_ids (note : Note.t) : list string :=
  exec_all 0 (js_to_string (Note.content note)).

Definition unused_note_images (note : Note.t) (existing : list NoteImage.t)
  : list NoteImage.t :=
  filter (fun ni => negb (includes (found_image_ids note) (NoteImage.imageId ni))) existing.

Definition save_note_images_world (env : Env) (note : Note.t) (w : World) : World :=
  let existing := getNoteImages note w in
  fold_left mark_unused_step (unused_note_images note existing)
            (fold_left (create_image_step env note existing) (found_image_ids note) w).

(** The store after [saveNoteRevision]. *)
Definition save_note_revision_world (env : Env) (note : Note.t) (w : World) : World :=
  if negb (String.eqb (Note.type note) "file")
     && negb (js_strict_eq (get_label (getLabelMap note w) "disable_versioning") (JStr "true"))
     && negb (id_truthy (select_recent_revision
                           (Note.noteId note)
                           (now env - noteRevisionSnapshotTimeInterval env * 1000) w))
     && (noteRevisionSnapshotTimeInterval env * 1000 <=? now env - Note.dateCreated note)
  then save_note_revision (new_revision env note) w
  else w.

(** The records the first loop of the tracker creates for the identifiers
    [ids], the first of them with the [g]-th generated identifier. *)
Fixpoint new_note_images (env : Env) (noteId : string) (g : nat) (ids : list string)
  : list NoteImage.t :=
  match ids with
  | [] => []
  | imageId :: ids' =>
      NoteImage.mk (newNoteImageId env g) noteId imageId (JNum 0)
      :: new_note_images env noteId (S g) ids'
  end.

(** The occurrences, among the identifiers found, of identifiers without a
    record. *)
Definition untracked (existing : list NoteImage.t) (ids : list string) : list string :=
  filter (fun imageId => match find_image imageId existing with
                         | None => true
                         | Some _ => false
                         end) ids.

(** The branch rewritten by [deleteNote] before it is saved. *)
Definition marked (b : Branch.t) : Branch.t := Branch.set_isDeleted (JBool true) b.

Definition result_world (r : Res unit) (default : World) : World :=
  match r with
  | Ok _ w => w
  | Throw _ w => w
  | OutOfFuel => default
  end.

(** ** Vocabulary of the position allocator *)

(** [m] is the greatest position among the branches [l]. *)
Definition is_max_position (l : list Branch.t) (m : Z) : Prop :=
  (exists b, In b l /\ Branch.notePosition b = m) /\
  (forall b, In b l -> Branch.notePosition b <= m).

(** How the row [b'] relates to the row [b] it was before an insertion after
    position [p] under the parent [parentNoteId]. *)
Definition shifted_after (parentNoteId : string) (p : Z) (b b' : Branch.t) : Prop :=
  Branch.branchId b' = Branch.branchId b /\
  Branch.noteId b' = Branch.noteId b /\
  Branch.parentNoteId b' = Branch.parentNoteId b /\
  Branch.isExpanded b' = Branch.isExpanded b /\
  Branch.isDeleted b' = Branch.isDeleted b /\
  (Branch.parentNoteId b = parentNoteId -> Branch.isDeleted b = JNum 0 ->
   p < Branch.notePosition b ->
   Branch.notePosition b' = Branch.notePosition b + 1) /\
  (Branch.notePosition b <= p -> b' = b) /\
  (Branch.parentNoteId b <> parentNoteId -> b' = b) /\
  (Branch.isDeleted b <> JNum 0 -> b' = b).

(** An integer on which the arithmetic of JavaScript numbers is exact
    ([Number.isSafeInteger]): its magnitude is below 2^53. *)
Definition safe_integer (n : Z) : Prop :=
  -9007199254740992 < n < 9007199254740992.

(** The positions of the branches of the store are safe integers. *)
Definition positions_safe (w : World) : Prop :=
  forall b, In b (branches w) -> safe_integer (Branch.notePosition b).

(** ** Vocabulary of the update path *)

(** The conditions under which the snapshot policy records nothing. *)
Definition snapshot_skipped (env : Env) (note : Note.t) (w : World) : Prop :=
  Note.type note = "file" \/
  labels w (Note.noteId note) "disable_versioning" = Some "true" \/
  (exists r, In r (note_revisions w) /\
             NoteRevision.noteId r = Note.noteId note /\
             now env - noteRevisionSnapshotTimeInterval env * 1000
               <= NoteRevision.dateModifiedTo r) \/
  now env - Note.dateCreated note < noteRevisionSnapshotTimeInterval env * 1000.

(** Revision identifiers are generated, non-empty strings. *)
Definition revision_ids_nonempty (w : World) : Prop :=
  forall r, In r (note_revisions w) -> NoteRevision.noteRevisionId r <> EmptyString.

(** A value that a column of the store can hold. *)
Definition is_column (v : jsval) : Prop := to_sql v = v.

(** Image record identifiers are unique in the table, and the identifiers
    still to be generated are new and distinct. *)
Definition image_ids_fresh (env : Env) (w : World) : Prop :=
  NoDup (map NoteImage.noteImageId (note_images w)) /\
  (forall k, (generated w <= k)%nat ->
             ~ In (newNoteImageId env k) (map NoteImage.noteImageId (note_images w))) /\
  (forall j k, (generated w <= j)%nat -> (generated w <= k)%nat ->
               newNoteImageId env j = newNoteImageId env k -> j = k).

(** ** Vocabulary of the deletion cascade *)

(** What identifies a placement: the branch, the note it places and the
    parent it places it under. *)
Definition skeleton (b : Branch.t) : string * string * string :=
  (Branch.branchId b, Branch.noteId b, Branch.parentNoteId b).

Definition active (b : Branch.t) : bool := sql_eq0 (Branch.isDeleted b).

(** The number of non-deleted rows of the branch table. *)
Definition count_active (l : list Branch.t) : nat := List.length (filter active l).

(** Some non-deleted branch places the note [noteId]. *)
Definition placed (w : World) (noteId : string) : Prop :=
  exists b, In b (branches w) /\ Branch.noteId b = noteId /\ Branch.isDeleted b = JNum 0.

(** A note row is marked deleted if and only if no non-deleted branch places
    the note. *)
Definition deleted_iff_unplaced (w : World) : Prop :=
  forall n, In n (notes w) ->
            (Note.isDeleted n = JNum 1 <-> getBranches n w = []).

(** Branch identifiers are a key of the branch table, and every branch
    places a note of the note table. *)
Definition store_consistent (w : World) : Prop :=
  NoDup (map Branch.branchId (branches w)) /\
  (forall b, In b (branches w) -> In (Branch.noteId b) (map Note.noteId (notes w))).

(** What a run of the cascade from the store [w] to the store [w'] keeps:
    consistency, the invariant, the placements and the notes there are, and
    no more non-deleted branches than [bound]. *)
Definition cascade_result (w w' : World) (bound : nat) : Prop :=
  store_consistent w' /\
  deleted_iff_unplaced w' /\
  map skeleton (branches w') = map skeleton (branches w) /\
  map Note.noteId (notes w') = map Note.noteId (notes w) /\
  (count_active (branches w') <= bound)%nat.

(** ** Vocabulary of the protection propagator *)

(** The flag is set: the store holds 1 for it (the object of a request may
    still carry [true]). *)
Definition flag_set (v : jsval) : Prop := to_sql v = JNum 1.

(** The note [c] of the store is placed under [p] by a non-deleted branch. *)
Definition child_note (w : World) (p c : string) : Prop :=
  exists b, In b (branches w) /\ Branch.parentNoteId b = p /\
            Branch.isDeleted b = JNum 0 /\ Branch.noteId b = c /\
            In c (map Note.noteId (notes w)).

Inductive reachable (w : World) : string -> string -> Prop :=
| reach_self (id : string) : reachable w id id
| reach_child (p c d : string) :
    child_note w p c -> reachable w c d -> reachable w p d.

(** The note [id] and all its revisions have the flag set. *)
Definition protected_in (w : World) (id : string) : Prop :=
  (forall n, getNote id w = Some n -> flag_set (Note.isProtected n)) /\
  (forall r, In r (note_revisions w) -> NoteRevision.noteId r = id ->
             flag_set (NoteRevision.isProtected r)).

(** The placement graph has no cycle: the non-deleted branches descend along
    a rank of the notes. *)
Definition acyclic (rank : string -> nat) (w : World) : Prop :=
  forall b, In b (branches w) -> Branch.isDeleted b = JNum 0 ->
            (rank (Branch.noteId b) < rank (Branch.parentNoteId b))%nat.

(** From [w] to [w'] the placements and the notes there are stay, and a row
    that changed has its flag set. *)
Definition advance (w w' : World) : Prop :=
  branches w' = branches w /\
  map Note.noteId (notes w') = map Note.noteId (notes w) /\
  (forall id n', getNote id w' = Some n' ->
                 getNote id w = Some n' \/ flag_set (Note.isProtected n')) /\
  (forall r', In r' (note_revisions w') ->
              In r' (note_revisions w) \/ flag_set (NoteRevision.isProtected r')).

(** The note object was read from the store, which since then changed at
    most by setting flags. *)
Definition loaded (note : Note.t) (w : World) : Prop :=
  exists n, getNote (Note.noteId note) w = Some n /\
            (Note.isProtected note = JBool true -> flag_set (Note.isProtected n)).

(** ** Sample stores *)

(** Sample store: three active children of root at positions 0, 1, 2 and a
    deleted one at position 7. *)
Definition sample_branches : list Branch.t :=
  [ Branch.mk "b1" "n1" "root" 0 (JNum 0) (JNum 0);
    Branch.mk "b2" "n2" "root" 1 (JNum 0) (JNum 0);
    Branch.mk "b3" "n3" "root" 2 (JNum 0) (JNum 0);
    Branch.mk "b4" "n4" "root" 7 (JNum 0) (JNum 1) ].

Definition sample_world : World :=
  mkWorld [] sample_branches [] [] (fun _ _ => None) [] [] 0.

Definition sample_deleted_branch : Branch.t :=
  Branch.mk "b4" "n4" "root" 7 (JNum 0) (JNum 1).

Definition sample_env : Env :=
  mkEnv 1000000 1000005 600 "rev2" (fun n => String "i" (string_of_list_ascii (repeat "x"%char n))).

Definition sample_note : Note.t :=
  Note.mk "n1" (JStr "Hello") (JStr "<p>hi</p>") "text" "text/html"
          (JNum 0) (JNum 0) 100000 200000.

Definition sample_revision : NoteRevision.t :=
  NoteRevision.mk "rev1" "n1" (JStr "Old") (JStr "<p>old</p>") (JNum 0) 100000 150000.

Definition sample_note_world : World :=
  mkWorld [sample_note] sample_branches [sample_revision] []
          (fun _ _ => None) [] [] 0.

(** The sample note placed under the root at position 2^53, the first
    integer on which adding 1 is not exact. *)
Definition beyond_safe_branch : Branch.t :=
  Branch.mk "b1" "n1" "root" 9007199254740992 (JNum 0) (JNum 0).

Definition beyond_safe_world : World :=
  mkWorld [sample_note] [beyond_safe_branch] [] [] (fun _ _ => None) [] [] 0.

Definition sample_file_note : Note.t :=
  Note.mk "f1" (JStr "report.pdf") (JStr "%PDF-1.4") "file" "application/pdf"
          (JNum 0) (JNum 0) 100000 200000.

Definition sample_file_world : World :=
  mkWorld [sample_note; sample_file_note] sample_branches [sample_revision] []
          (fun _ _ => None) [] [] 0.

Definition image_reference (imageId : string) : string :=
  "<img " ++ image_src_prefix ++ imageId ++ "/picture.png" ++ String (ascii_of_nat 34) ">".

(** A text note that shows the image abc twice. *)
Definition sample_gallery_note : Note.t :=
  Note.mk "n1" (JStr "Gallery")
          (JStr (image_reference "abc" ++ "<p>again</p>" ++ image_reference "abc"))
          "text" "text/html" (JNum 0) (JNum 0) 100000 200000.

Definition sample_gallery_world : World :=
  mkWorld [sample_gallery_note] sample_branches [] [] (fun _ _ => None) [] [] 0.

(** A text note that shows the images abc and Zz9, in a store that tracks
    abc and a third image that the note no longer shows. *)
Definition sample_album_note : Note.t :=
  Note.mk "n1" (JStr "Album")
          (JStr (image_reference "abc" ++ "<p>and</p>" ++ image_reference "Zz9"))
          "text" "text/html" (JNum 0) (JNum 0) 100000 200000.

Definition sample_album_world : World :=
  mkWorld [sample_album_note] sample_branches []
          [ NoteImage.mk "k1" "n1" "abc" (JNum 0);
            NoteImage.mk "k2" "n1" "old" (JNum 0);
            NoteImage.mk "k3" "n2" "old" (JNum 0) ]
          (fun _ _ => None) [] [] 0.

(** A store for the cascade: the note a placed under root once, with a child
    b that is also placed under the note c; c placed under root. *)
Definition cascade_notes : list Note.t :=
  [ Note.mk "a" (JStr "A") (JStr EmptyString) "text" "text/html" (JNum 0) (JNum 0) 100000 100000;
    Note.mk "b" (JStr "B") (JStr EmptyString) "text" "text/html" (JNum 0) (JNum 0) 100000 100000;
    Note.mk "c" (JStr "C") (JStr EmptyString) "text" "text/html" (JNum 0) (JNum 0) 100000 100000;
    Note.mk "d" (JStr "D") (JStr EmptyString) "text" "text/html" (JNum 0) (JNum 0) 100000 100000 ].

Definition cascade_branches : list Branch.t :=
  [ Branch.mk "ra" "a" "root" 0 (JNum 0) (JNum 0);
    Branch.mk "rc" "c" "root" 1 (JNum 0) (JNum 0);
    Branch.mk "ab" "b" "a" 0 (JNum 0) (JNum 0);
    Branch.mk "cb" "b" "c" 0 (JNum 0) (JNum 0);
    Branch.mk "ad" "d" "a" 1 (JNum 0) (JNum 0) ].

Definition cascade_world : World :=
  mkWorld cascade_notes cascade_branches [] [] (fun _ _ => None) [] [] 0.

Definition cascade_branch : Branch.t :=
  Branch.mk "ra" "a" "root" 0 (JNum 0) (JNum 0).

(** The deletion flags of the notes of a store, by note. *)
Definition deletion_flags (w : World) : list (string * jsval) :=
  map (fun n => (Note.noteId n, Note.isDeleted n)) (notes w).

(** Scenario 5: root note r with child a and grandchild b, each with a
    revision, and a deleted branch that would close a cycle. *)
Definition family_notes : list Note.t :=
  [ Note.mk "r" (JStr "R") (JStr EmptyString) "text" "text/html" (JNum 0) (JNum 0) 100000 100000;
    Note.mk "a" (JStr "A") (JStr EmptyString) "text" "text/html" (JNum 0) (JNum 0) 100000 100000;
    Note.mk "b" (JStr "B") (JStr EmptyString) "text" "text/html" (JNum 0) (JNum 0) 100000 100000;
    Note.mk "z" (JStr "Z") (JStr EmptyString) "text" "text/html" (JNum 0) (JNum 0) 100000 100000 ].

Definition family_branches : list Branch.t :=
  [ Branch.mk "ra" "a" "r" 0 (JNum 0) (JNum 0);
    Branch.mk "ab" "b" "a" 0 (JNum 0) (JNum 0);
    Branch.mk "br" "r" "b" 0 (JNum 0) (JNum 1) ].

Definition family_revisions : list NoteRevision.t :=
  [ NoteRevision.mk "v1" "r" (JStr "R0") (JStr EmptyString) (JNum 0) 100000 150000;
    NoteRevision.mk "v2" "a" (JStr "A0") (JStr EmptyString) (JNum 0) 100000 150000;
    NoteRevision.mk "v3" "b" (JStr "B0") (JStr EmptyString) (JNum 0) 100000 150000;
    NoteRevision.mk "v4" "z" (JStr "Z0") (JStr EmptyString) (JNum 0) 100000 150000 ].

Definition family_world : World :=
  mkWorld family_notes family_branches family_revisions [] (fun _ _ => None) [] [] 0.

Definition family_root : Note.t :=
  Note.mk "r" (JStr "R") (JStr EmptyString) "text" "text/html" (JNum 0) (JNum 0) 100000 100000.

Definition family_rank (id : string) : nat :=
  if String.eqb id "r" then 2 else if String.eqb id "a" then 1 else 0.

(** The protection flags of the notes and of the revisions of a store. *)
Definition protection_flags (w : World) : list (string * jsval) * list (string * jsval) :=
  (map (fun n => (Note.noteId n, Note.isProtected n)) (notes w),
   map (fun r => (NoteRevision.noteRevisionId r, NoteRevision.isProtected r))
       (note_revisions w)).

(** ** Vocabulary of note creation *)

(** The positions of the non-deleted branches under a parent. *)
Definition child_positions (parentNoteId : string) (w : World) : list Z :=
  map Branch.notePosition (child_branches parentNoteId w).

(** Under every parent the non-deleted branches have distinct positions. *)
Definition positions_unique (w : World) : Prop :=
  forall parentNoteId, NoDup (child_positions parentNoteId w).

(** A position after room was made behind the position [p]. *)
Definition make_room (p x : Z) : Z := if p <? x then x + 1 else x.

(** The options of [createNewNote] after the type and the mime that are
    missing were taken from the parent, or the message of the error. *)
Definition resolve_options (parentNoteId : string) (noteOpts : NoteOptions.t) (w : World)
  : string + NoteOptions.t :=
  if negb (String.eqb parentNoteId "root") then
    match
      (if negb (string_truthy (NoteOptions.type noteOpts)) then
         match getNote parentNoteId w with
         | None => inl "TypeError: Cannot read property 'type' of null"
         | Some parent => inr (NoteOptions.set_type (Some (Note.type parent)) noteOpts)
         end
       else inr noteOpts)
    with
    | inl msg => inl msg
    | inr noteOpts =>
        if negb (string_truthy (NoteOptions.mime noteOpts)) then
          match getNote parentNoteId w with
          | None => inl "TypeError: Cannot read property 'mime' of null"
          | Some parent => inr (NoteOptions.set_mime (Some (Note.mime parent)) noteOpts)
          end
        else inr noteOpts
    end
  else inr noteOpts.

(** The value of [x ? x : d] for a property that holds a string or is
    absent. *)
Definition string_or (v : option string) (d : string) : string :=
  match v with
  | Some s => if str_truthy s then s else d
  | None => d
  end.

(** The note and the branch that [createNewNote] builds. *)
Definition new_note (env : NoteEnv) (noteOpts : NoteOptions.t) : Note.t :=
  Note.mk (newNoteId env)
          (NoteOptions.title noteOpts)
          (if js_truthy (NoteOptions.content noteOpts)
           then NoteOptions.content noteOpts else JStr EmptyString)
          (string_or (NoteOptions.type noteOpts) "text")
          (string_or (NoteOptions.mime noteOpts) "text/html")
          (NoteOptions.isProtected noteOpts)
          (new_isDeleted env) (new_dateCreated env) (new_dateModified env).

Definition new_branch (env : NoteEnv) (parentNoteId : string) (newNotePos : Z) : Branch.t :=
  Branch.mk (newBranchId env) (newNoteId env) parentNoteId newNotePos (JNum 0) (JNum 0).

(** The identifiers of a creation request are not in use. *)
Definition ids_fresh (env : NoteEnv) (w : World) : Prop :=
  ~ In (newNoteId env) (map Note.noteId (notes w)) /\
  ~ In (newBranchId env) (map Branch.branchId (branches w)).

(** The options that [createNote] hands to [createNewNote]. *)
Definition createNote_options (env : NoteEnv) (title content : jsval)
    (extraOptions : ExtraOptions.t) : NoteOptions.t :=
  let content :=
    if js_strict_eq content JUndefined then JStr EmptyString else content in
  let note :=
    NoteOptions.mk
      (mkNoteOpts (JStr "into") EmptyString)
      title
      (if js_truthy (ExtraOptions.json extraOptions)
       then json_stringify env content else content)
      (if negb (js_strict_eq (ExtraOptions.isProtected extraOptions) JUndefined)
       then ExtraOptions.isProtected extraOptions else JBool false)
      (ExtraOptions.type extraOptions)
      (ExtraOptions.mime extraOptions) in
  let note :=
    if js_truthy (ExtraOptions.json extraOptions)
       && negb (string_truthy (NoteOptions.type note))
    then NoteOptions.set_mime (Some "application/json")
           (NoteOptions.set_type (Some "code") note)
    else note in
  if negb (string_truthy (NoteOptions.type note))
  then NoteOptions.set_mime (Some "text/html")
         (NoteOptions.set_type (Some "text") note)
  else note.

(** The store after the labels of [createNote] were attached. *)
Definition attach_label (noteId : string) (w : World) (label : string * string) : World :=
  with_labels (fun id name =>
                 if String.eqb id noteId && String.eqb name (fst label)
                 then Some (snd label)
                 else labels w id name) w.

Definition attach_labels (noteId : string) (labels : option (list (string * string)))
    (w : World) : World :=
  match labels with
  | Some l => fold_left (attach_label noteId) l w
  | None => w
  end.

(** A creation request on the cascade store. *)
Definition sample_note_env : NoteEnv :=
  mkNoteEnv "N9" "B9" (JNum 0) 500000 500000 (fun v => JStr (js_to_string v)).

Definition sample_note_options : NoteOptions.t :=
  NoteOptions.mk (mkNoteOpts (JStr "after") "ra") (JStr "New") JUndefined JUndefined
                 None None.

Definition sample_extra_options : ExtraOptions.t :=
  ExtraOptions.mk (JBool true) JUndefined None (Some "text/x-custom")
                  (Some [("color", "red"); ("archived", "false")]).

(** ** Vocabulary of the further properties of the cascade *)

(** From [w] to [w'] nothing happened but deletion marks: the revisions,
    the image records, the labels and the notifications are the same; every
    branch row and every note row is a row of before or is marked deleted;
    no row went away; and the writes of before are a prefix of the writes. *)
Definition only_marks (w w' : World) : Prop :=
  note_revisions w' = note_revisions w /\
  note_images w' = note_images w /\
  labels w' = labels w /\
  reorderings w' = reorderings w /\
  generated w' = generated w /\
  (forall b, In b (branches w') -> In b (branches w) \/ Branch.isDeleted b = JNum 1) /\
  (forall n, In n (notes w') -> In n (notes w) \/ Note.isDeleted n = JNum 1) /\
  (forall k, In k (map Branch.branchId (branches w)) ->
             In k (map Branch.branchId (branches w'))) /\
  (forall k, In k (map Note.noteId (notes w)) -> In k (map Note.noteId (notes w'))) /\
  (exists l, writes w' = (writes w ++ l)%list).

(** The parent of the branch is a note that is marked deleted. *)
Definition under_deleted (w : World) (c : Branch.t) : Prop :=
  exists n, getNote (Branch.parentNoteId c) w = Some n /\ Note.isDeleted n = JNum 1.

(** Every non-deleted branch under a note marked deleted satisfies [P]. *)
Definition orphans_satisfy (P : Branch.t -> Prop) (w : World) : Prop :=
  forall c, In c (branches w) -> Branch.isDeleted c = JNum 0 -> under_deleted w c -> P c.

(** No non-deleted branch hangs under a note that is marked deleted. *)
Definition no_orphan_branch (w : World) : Prop := orphans_satisfy (fun _ => False) w.

(** What a run of the cascade keeps of a consistent store. *)
Definition cascade_kept (w w' : World) (bound : nat) : Prop :=
  store_consistent w' /\
  map skeleton (branches w') = map skeleton (branches w) /\
  map Note.noteId (notes w') = map Note.noteId (notes w) /\
  (count_active (branches w') <= bound)%nat.

(** A store with revisions of two notes. *)
Definition sample_revision_world : World :=
  mkWorld [sample_note] sample_branches
          [ NoteRevision.mk "r1" "n1" (JStr "a") (JStr "b") (JNum 1) 10 20;
            NoteRevision.mk "r2" "n2" (JStr "c") (JStr "d") (JNum 1) 10 20;
            NoteRevision.mk "r3" "n1" (JStr "e") (JStr "f") (JNum 0) 30 40 ]
          [] (fun _ _ => None) [] [] 0.

(** ** Vocabulary of the further properties of the propagator *)

(** The second note row is the first but for the protection flag, field by
    field as columns hold them. *)
Definition same_note_but_flag (n n' : Note.t) : Prop :=
  Note.noteId n' = Note.noteId n /\
  to_sql (Note.title n') = to_sql (Note.title n) /\
  to_sql (Note.content n') = to_sql (Note.content n) /\
  Note.type n' = Note.type n /\
  Note.mime n' = Note.mime n /\
  to_sql (Note.isDeleted n') = to_sql (Note.isDeleted n) /\
  Note.dateCreated n' = Note.dateCreated n /\
  Note.dateModified n' = Note.dateModified n.

Definition same_revision_but_flag (r r' : NoteRevision.t) : Prop :=
  NoteRevision.noteRevisionId r' = NoteRevision.noteRevisionId r /\
  NoteRevision.noteId r' = NoteRevision.noteId r /\
  to_sql (NoteRevision.title r') = to_sql (NoteRevision.title r) /\
  to_sql (NoteRevision.content r') = to_sql (NoteRevision.content r) /\
  NoteRevision.dateModifiedFrom r' = NoteRevision.dateModifiedFrom r /\
  NoteRevision.dateModifiedTo r' = NoteRevision.dateModifiedTo r.

(** From [w] to [w'] nothing changed but protection flags: the placements,
    the image records, the labels and the notifications are the same, the
    notes and the revisions have the same identifiers in the same order, and
    each note and each revision is one of before but for its flag. *)
Definition only_flags (w w' : World) : Prop :=
  branches w' = branches w /\
  note_images w' = note_images w /\
  labels w' = labels w /\
  reorderings w' = reorderings w /\
  generated w' = generated w /\
  map Note.noteId (notes w') = map Note.noteId (notes w) /\
  map NoteRevision.noteRevisionId (note_revisions w')
  = map NoteRevision.noteRevisionId (note_revisions w) /\
  (forall n', In n' (notes w') ->
              exists n, In n (notes w) /\ same_note_but_flag n n') /\
  (forall r', In r' (note_revisions w') ->
              exists r, In r (note_revisions w) /\ same_revision_but_flag r r').

(** * Properties *)

(** ** Values and tables *)

Lemma sql_eq0_true (v : jsval) : sql_eq0 v = true <-> v = JNum 0.
Proof.
  destruct v; simpl; split; intro H; try discriminate; try congruence.
  - apply Z.eqb_eq in H. now subst.
  - injection H as ->. reflexivity.
Qed.

Lemma js_strict_eq_true (a b : jsval) : js_strict_eq a b = true <-> a = b.
Proof.
  destruct a, b; simpl; split; intro H; try discriminate; try reflexivity;
    try congruence.
  - apply Bool.eqb_prop in H. now subst.
  - injection H as ->. apply Bool.eqb_reflx.
  - apply Z.eqb_eq in H. now subst.
  - injection H as ->. apply Z.eqb_refl.
  - apply String.eqb_eq in H. now subst.
  - injection H as ->. apply String.eqb_refl.
Qed.

Lemma js_strict_eq_false (a b : jsval) : js_strict_eq a b = false <-> a <> b.
Proof.
  rewrite <- js_strict_eq_true. destruct (js_strict_eq a b); split; congruence.
Qed.

Lemma is_child_of_true (parentNoteId : string) (b : Branch.t) :
  is_child_of parentNoteId b = true <->
  Branch.parentNoteId b = parentNoteId /\ Branch.isDeleted b = JNum 0.
Proof.
  unfold is_child_of. rewrite andb_true_iff, String.eqb_eq, sql_eq0_true. tauto.
Qed.

Lemma sql_max_none (l : list Z) : sql_max l = None <-> l = [].
Proof.
  destruct l as [|x l]; simpl; [tauto|].
  destruct (sql_max l); split; discriminate.
Qed.

Lemma sql_max_some (l : list Z) (m : Z) :
  sql_max l = Some m -> In m l /\ forall x, In x l -> x <= m.
Proof.
  revert m. induction l as [|x l IH]; simpl; intros m H; [discriminate|].
  destruct (sql_max l) as [m'|] eqn:E.
  - injection H as <-. destruct (IH m' eq_refl) as [Hin Hle]. split.
    + destruct (Z.max_spec x m') as [[_ ->]|[_ ->]]; auto.
    + intros y [<-|Hy]; [lia|]. specialize (Hle y Hy). lia.
  - injection H as <-. apply sql_max_none in E. subst l. split; [auto|].
    intros y [<-|[]]. lia.
Qed.

(** ** Position allocator *)

Lemma to_number_exact (n : Z) :
  -9007199254740992 <= n <= 9007199254740992 -> to_number n = n.
Proof.
  intro H. unfold to_number.
  assert (Hle : (Z.abs n <=? 9007199254740992) = true) by (apply Z.leb_le; lia).
  now rewrite Hle.
Qed.

Lemma to_number_safe (n : Z) : safe_integer n -> to_number n = n.
Proof. unfold safe_integer. intro H. apply to_number_exact. lia. Qed.

(** Adding 1 to a safe integer is exact. *)
Lemma js_add_one_safe (n : Z) : safe_integer n -> js_add (to_number n) 1 = n + 1.
Proof.
  intro H. rewrite (to_number_safe n H). unfold js_add, safe_integer in *.
  apply to_number_exact. lia.
Qed.

Lemma getNewNotePosition_into_eq (parentNoteId branchId : string) (w : World) :
  getNewNotePosition parentNoteId (mkNoteOpts (JStr "into") branchId) w
  = Ok (match select_max_notePosition parentNoteId w with
        | None => 0
        | Some m => js_add (to_number m) 1
        end) w.
Proof. reflexivity. Qed.

(** C1. With the "into" intent the allocator changes nothing and returns 0
    when the parent has no non-deleted branch.  Otherwise, when the
    positions of the parent's non-deleted branches are safe integers (of
    magnitude below 2^53), it returns 1 + the greatest of them, and the
    result is above the position of every non-deleted branch of the
    parent. *)
Theorem getNewNotePosition_into (parentNoteId branchId : string) (w : World) :
  (forall b, In b (child_branches parentNoteId w) ->
             safe_integer (Branch.notePosition b)) ->
  exists pos,
    getNewNotePosition parentNoteId (mkNoteOpts (JStr "into") branchId) w = Ok pos w /\
    (child_branches parentNoteId w = [] -> pos = 0) /\
    (forall m, is_max_position (child_branches parentNoteId w) m -> pos = 1 + m) /\
    (child_branches parentNoteId w <> [] ->
     exists m, is_max_position (child_branches parentNoteId w) m) /\
    (forall b, In b (branches w) ->
       Branch.parentNoteId b = parentNoteId -> Branch.isDeleted b = JNum 0 ->
       Branch.notePosition b < pos).
Proof.
  intro Hsafe.
  rewrite getNewNotePosition_into_eq. unfold select_max_notePosition.
  set (sib := child_branches parentNoteId w) in *.
  assert (Hsib : forall b, In b (branches w) ->
             Branch.parentNoteId b = parentNoteId -> Branch.isDeleted b = JNum 0 ->
             In b sib).
  { intros b Hb Hp Hd. apply filter_In. split; [exact Hb|].
    apply is_child_of_true. tauto. }
  destruct (sql_max (map Branch.notePosition sib)) as [m|] eqn:E.
  - destruct (sql_max_some _ _ E) as [Hin Hle].
    apply in_map_iff in Hin. destruct Hin as [bm [Hbm Hinm]].
    assert (Hmax : is_max_position sib m).
    { split; [now exists bm|]. intros b Hb. apply Hle. now apply in_map. }
    assert (Hm : safe_integer m) by (rewrite <- Hbm; now apply Hsafe).
    rewrite (js_add_one_safe m Hm).
    exists (m + 1). repeat split.
    + intro Hnil. rewrite Hnil in Hinm. destruct Hinm.
    + intros m' [[b' [Hb' <-]] Hle']. destruct Hmax as [_ Hle2].
      specialize (Hle' bm Hinm). specialize (Hle2 b' Hb'). lia.
    + intros _. now exists m.
    + intros b Hb Hp Hd. destruct Hmax as [_ Hle2].
      specialize (Hle2 b (Hsib b Hb Hp Hd)). lia.
  - apply sql_max_none in E. apply map_eq_nil in E.
    exists 0. repeat split.
    + intros m [[b [Hb _]] _]. rewrite E in Hb. destruct Hb.
    + intro Hne. contradiction.
    + intros b Hb Hp Hd. specialize (Hsib b Hb Hp Hd). rewrite E in Hsib.
      destruct Hsib.
Qed.

Lemma sample_world_positions_safe : positions_safe sample_world.
Proof.
  intros b Hb. unfold safe_integer. simpl in Hb.
  repeat (destruct Hb as [<-|Hb]; [simpl; lia|]). destruct Hb.
Defined.

(** Scenario: three active children at positions 0, 1, 2 and a deleted one
    at 7; the next position is 3. *)
Lemma getNewNotePosition_into_sample :
  getNewNotePosition "root" (mkNoteOpts (JStr "into") EmptyString) sample_world = Ok 3 sample_world /\
  (forall b, In b (branches sample_world) ->
             Branch.parentNoteId b = "root" -> Branch.isDeleted b = JNum 0 ->
             Branch.notePosition b < 3).
Proof.
  assert (Hsafe : forall b, In b (child_branches "root" sample_world) ->
                            safe_integer (Branch.notePosition b)).
  { intros b Hb. apply filter_In in Hb. apply sample_world_positions_safe. tauto. }
  destruct (getNewNotePosition_into "root" EmptyString sample_world Hsafe)
    as [pos [Hrun [_ [_ [_ Hlt]]]]].
  assert (Hpos : pos = 3).
  { rewrite getNewNotePosition_into_eq in Hrun. injection Hrun as <-. reflexivity. }
  rewrite Hpos in Hrun, Hlt. split; [exact Hrun|exact Hlt].
Defined.

(** With a non-deleted branch at 2^53 the sum [maxNotePos + 1] is 2^53
    again: the position returned is neither 1 + the greatest position nor
    above the branch. *)
Lemma getNewNotePosition_into_beyond_safe :
  is_max_position (child_branches "root" beyond_safe_world) 9007199254740992 /\
  getNewNotePosition "root" (mkNoteOpts (JStr "into") EmptyString) beyond_safe_world
  = Ok 9007199254740992 beyond_safe_world /\
  9007199254740992 <> 1 + 9007199254740992 /\
  ~ (forall b, In b (branches beyond_safe_world) ->
               Branch.parentNoteId b = "root" -> Branch.isDeleted b = JNum 0 ->
               Branch.notePosition b < 9007199254740992).
Proof.
  split; [|split; [|split]].
  - split.
    + exists beyond_safe_branch. split; [now left|reflexivity].
    + intros b [<-|[]]. simpl. lia.
  - vm_compute. reflexivity.
  - lia.
  - intro H. specialize (H beyond_safe_branch (or_introl eq_refl) eq_refl eq_refl).
    simpl in H. lia.
Qed.

Lemma shift_row_shifted (parentNoteId : string) (p : Z) (b : Branch.t) :
  shifted_after parentNoteId p b (shift_row parentNoteId p b).
Proof.
  unfold shift_row, shifted_after.
  destruct (is_child_of parentNoteId b) eqn:Hc; simpl.
  - apply is_child_of_true in Hc. destruct Hc as [Hp Hd].
    destruct (p <? Branch.notePosition b) eqn:Hlt; simpl.
    + apply Z.ltb_lt in Hlt. repeat split; auto; intros; try lia; congruence.
    + apply Z.ltb_ge in Hlt. repeat split; auto; intros; lia.
  - assert (Hn : ~ (Branch.parentNoteId b = parentNoteId /\ Branch.isDeleted b = JNum 0)).
    { rewrite <- is_child_of_true, Hc. discriminate. }
    repeat split; auto; intros; tauto.
Qed.

Lemma getNewNotePosition_after_eq (parentNoteId branchId : string) (w : World) :
  getNewNotePosition parentNoteId (mkNoteOpts (JStr "after") branchId) w
  = match select_notePosition branchId w with
    | None => Throw "TypeError: Cannot read property 'notePosition' of null" w
    | Some p =>
        Ok (js_add (to_number p) 1)
           (with_reorderings
              (reorderings (update_shift_positions parentNoteId (to_number p) w)
               ++ [parentNoteId])
              (update_shift_positions parentNoteId (to_number p) w))
    end.
Proof.
  unfold getNewNotePosition, bind, get, modify, addNoteReorderingSync, ret, throw.
  simpl. destruct (select_notePosition branchId w); reflexivity.
Qed.

(** C2. With the "after" intent and a reference branch at a position [p]
    that is a safe integer (of magnitude below 2^53), the allocator returns
    [p + 1]; every row of the branch table keeps its place and its other
    fields; the non-deleted branches of the parent above [p] move up by
    exactly one and the branches at or below [p] are unchanged; and exactly
    one reorder notification, for the parent, is recorded. *)
Theorem getNewNotePosition_after
    (parentNoteId branchId : string) (w : World) (reference : Branch.t) :
  find_key Branch.branchId branchId (branches w) = Some reference ->
  safe_integer (Branch.notePosition reference) ->
  exists w',
    getNewNotePosition parentNoteId (mkNoteOpts (JStr "after") branchId) w
      = Ok (Branch.notePosition reference + 1) w' /\
    Forall2 (shifted_after parentNoteId (Branch.notePosition reference))
            (branches w) (branches w') /\
    reorderings w' = (reorderings w ++ [parentNoteId])%list /\
    notes w' = notes w /\
    note_revisions w' = note_revisions w /\
    note_images w' = note_images w.
Proof.
  intros Href Hsafe.
  rewrite getNewNotePosition_after_eq. unfold select_notePosition.
  rewrite Href. simpl option_map. cbv iota.
  rewrite (js_add_one_safe _ Hsafe), (to_number_safe _ Hsafe).
  eexists. split; [reflexivity|]. simpl.
  split; [|repeat split].
  clear Href. generalize (branches w) as l.
  induction l as [|b l IH]; simpl; constructor; auto.
  apply shift_row_shifted.
Qed.

(** The sample placement of scenario 2: inserting after the branch at
    position 1 gives position 2 and one notification. *)
Lemma getNewNotePosition_after_sample :
  exists w',
    getNewNotePosition "root" (mkNoteOpts (JStr "after") "b2") sample_world
      = Ok (1 + 1) w' /\
    Forall2 (shifted_after "root" 1) (branches sample_world) (branches w') /\
    reorderings w' = ["root"] /\
    notes w' = [] /\ note_revisions w' = [] /\ note_images w' = [].
Proof.
  apply (getNewNotePosition_after "root" "b2" sample_world
           (Branch.mk "b2" "n2" "root" 1 (JNum 0) (JNum 0)) eq_refl).
  unfold safe_integer. simpl. lia.
Defined.

(** With the reference at 2^53 the sum [afterNote.notePosition + 1] is 2^53
    again: the position returned is that of the reference, not the one
    after it. *)
Lemma getNewNotePosition_after_beyond_safe :
  find_key Branch.branchId "b1" (branches beyond_safe_world) = Some beyond_safe_branch /\
  Branch.notePosition beyond_safe_branch = 9007199254740992 /\
  (exists w',
     getNewNotePosition "root" (mkNoteOpts (JStr "after") "b1") beyond_safe_world
     = Ok 9007199254740992 w') /\
  9007199254740992 <> 9007199254740992 + 1.
Proof.
  split; [reflexivity|]. split; [reflexivity|]. split; [|lia].
  eexists. vm_compute. reflexivity.
Qed.

(** ** Loops *)

Lemma for_of_modify {A} (body : A -> M unit) (g : World -> A -> World) (l : list A) :
  (forall x w, body x w = Ok tt (g w x)) ->
  forall w, for_of l body w = Ok tt (fold_left g l w).
Proof.
  intros Hbody. induction l as [|x l IH]; intro w; simpl; [reflexivity|].
  unfold bind. rewrite Hbody. apply IH.
Qed.

Lemma fold_left_frame {A T} (proj : World -> T) (g : World -> A -> World) (l : list A) :
  (forall w x, proj (g w x) = proj w) ->
  forall w, proj (fold_left g l w) = proj w.
Proof.
  intros Hg. induction l as [|x l IH]; intro w; simpl; [reflexivity|].
  rewrite IH. apply Hg.
Qed.

Lemma protectNoteRevisions_eq (note : Note.t) (w : World) :
  protectNoteRevisions note w
  = Ok tt (fold_left (protect_revision_step note) (getRevisions note w) w).
Proof.
  unfold protectNoteRevisions, bind, get.
  apply for_of_modify. intros r w'. unfold protect_revision_step.
  destruct (negb _); reflexivity.
Qed.

(** ** Revision snapshot policy *)

Lemma select_recent_revision_none (noteId : string) (cutoff : datetime) (w : World) :
  select_recent_revision noteId cutoff w = None <->
  ~ exists r, In r (note_revisions w) /\ NoteRevision.noteId r = noteId /\
              cutoff <= NoteRevision.dateModifiedTo r.
Proof.
  unfold select_recent_revision.
  destruct (find _ (note_revisions w)) as [r|] eqn:E; simpl.
  - apply find_some in E. destruct E as [Hin Hc].
    apply andb_true_iff in Hc. destruct Hc as [Hid Hd].
    apply String.eqb_eq in Hid. apply Z.leb_le in Hd.
    split; [discriminate|]. intro Hn. exfalso. apply Hn. now exists r.
  - split; [|reflexivity]. intros _ [r [Hin [Hid Hd]]].
    pose proof (find_none _ _ E r Hin) as Hf. simpl in Hf.
    apply andb_false_iff in Hf. destruct Hf as [Hf|Hf].
    + apply String.eqb_neq in Hf. contradiction.
    + apply Z.leb_gt in Hf. lia.
Qed.

Lemma select_recent_revision_truthy (noteId : string) (cutoff : datetime) (w : World) :
  revision_ids_nonempty w ->
  id_truthy (select_recent_revision noteId cutoff w) = true <->
  exists r, In r (note_revisions w) /\ NoteRevision.noteId r = noteId /\
            cutoff <= NoteRevision.dateModifiedTo r.
Proof.
  intro Hne. unfold select_recent_revision.
  destruct (find _ (note_revisions w)) as [r|] eqn:E; simpl.
  - apply find_some in E. destruct E as [Hin Hc].
    apply andb_true_iff in Hc. destruct Hc as [Hid Hd].
    apply String.eqb_eq in Hid. apply Z.leb_le in Hd.
    unfold str_truthy. specialize (Hne r Hin). apply String.eqb_neq in Hne.
    rewrite Hne. simpl. split; [|reflexivity]. intros _. now exists r.
  - split; [discriminate|]. intros [r [Hin [Hid Hd]]].
    pose proof (find_none _ _ E r Hin) as Hf. simpl in Hf.
    apply andb_false_iff in Hf. destruct Hf as [Hf|Hf].
    + apply String.eqb_neq in Hf. contradiction.
    + apply Z.leb_gt in Hf. lia.
Qed.

Lemma get_label_true (labelsMap : string -> option string) (name : string) :
  js_strict_eq (get_label labelsMap name) (JStr "true") = true <->
  labelsMap name = Some "true".
Proof.
  rewrite js_strict_eq_true. unfold get_label.
  destruct (labelsMap name); split; intro H; try discriminate; congruence.
Qed.

Lemma upsert_fresh {R} (key : R -> string) (r : R) (l : list R) :
  ~ In (key r) (map key l) -> upsert key r l = (l ++ [r])%list.
Proof.
  intro Hn. unfold upsert. destruct (has_key key (key r) l) eqn:E; [|reflexivity].
  exfalso. apply Hn. unfold has_key in E. apply existsb_exists in E.
  destruct E as [x [Hx Hk]]. apply String.eqb_eq in Hk. rewrite <- Hk.
  now apply in_map.
Qed.

Lemma saveNoteRevision_eq (env : Env) (note : Note.t) (w : World) :
  saveNoteRevision env note w = Ok tt (save_note_revision_world env note w).
Proof.
  unfold saveNoteRevision, save_note_revision_world, bind, get.
  destruct (_ && _ && _ && _); reflexivity.
Qed.

(** Whether the policy snapshots, in the terms of [snapshot_skipped]. *)
Lemma snapshot_decision (env : Env) (note : Note.t) (w : World) :
  revision_ids_nonempty w ->
  (snapshot_skipped env note w -> save_note_revision_world env note w = w) /\
  (~ snapshot_skipped env note w ->
   save_note_revision_world env note w = save_note_revision (new_revision env note) w).
Proof.
  intro Hne.
  unfold save_note_revision_world, getLabelMap.
  set (cutoff := now env - noteRevisionSnapshotTimeInterval env * 1000).
  pose proof (select_recent_revision_truthy (Note.noteId note) cutoff w Hne) as Hrev.
  pose proof (get_label_true (labels w (Note.noteId note)) "disable_versioning") as Hlab.
  destruct (String.eqb (Note.type note) "file") eqn:Hty; simpl.
  { apply String.eqb_eq in Hty. split; [reflexivity|].
    intro Hn. exfalso. apply Hn. left. exact Hty. }
  apply String.eqb_neq in Hty.
  destruct (js_strict_eq (get_label (labels w (Note.noteId note)) "disable_versioning")
                         (JStr "true")) eqn:Hl; simpl.
  { split; [reflexivity|]. intro Hn. exfalso. apply Hn. right. left.
    now apply Hlab. }
  destruct (id_truthy (select_recent_revision (Note.noteId note) cutoff w)) eqn:Hid; simpl.
  { split; [reflexivity|]. intro Hn. exfalso. apply Hn. right. right. left.
    now apply Hrev. }
  destruct (noteRevisionSnapshotTimeInterval env * 1000 <=? now env - Note.dateCreated note)
    eqn:Hage.
  - apply Z.leb_le in Hage. split; [|reflexivity].
    intros [H|[H|[H|H]]].
    + contradiction.
    + apply Hlab in H. congruence.
    + apply Hrev in H. congruence.
    + lia.
  - apply Z.leb_gt in Hage. split; [reflexivity|].
    intro Hn. exfalso. apply Hn. right. right. right. exact Hage.
Qed.

(** C3. The snapshot policy writes nothing when the note is a file, when its
    label disable_versioning is "true", when one of its revisions has
    dateModifiedTo at or after now minus the interval, or when the note is
    younger than the interval.  Otherwise it issues exactly one write, of a
    revision that carries the title and content of the note as it stands,
    dateModifiedFrom = the note's dateModified, dateModifiedTo = the current
    time and isProtected = 0; with a new identifier this adds one row to the
    revisions and changes no other row. *)
Theorem saveNoteRevision_policy (env : Env) (note : Note.t) (w : World) :
  revision_ids_nonempty w ->
  (snapshot_skipped env note w -> saveNoteRevision env note w = Ok tt w) /\
  (~ snapshot_skipped env note w ->
   let revision :=
     NoteRevision.mk (newNoteRevisionId env) (Note.noteId note)
                     (Note.title note) (Note.content note) (JNum 0)
                     (Note.dateModified note) (nowDate env) in
   exists w',
     saveNoteRevision env note w = Ok tt w' /\
     writes w' = (writes w ++ [WNoteRevision revision])%list /\
     note_revisions w'
       = upsert NoteRevision.noteRevisionId (NoteRevision.row revision) (note_revisions w) /\
     (~ In (newNoteRevisionId env) (map NoteRevision.noteRevisionId (note_revisions w)) ->
      note_revisions w' = (note_revisions w ++ [NoteRevision.row revision])%list) /\
     notes w' = notes w /\ branches w' = branches w /\ note_images w' = note_images w).
Proof.
  intro Hne. destruct (snapshot_decision env note w Hne) as [Hskip Hsnap].
  rewrite saveNoteRevision_eq. split.
  - intro H. now rewrite Hskip.
  - intros H revision. rewrite (Hsnap H). eexists. split; [reflexivity|].
    unfold new_revision. simpl. fold revision.
    split; [reflexivity|]. split; [reflexivity|]. split; [|auto].
    intro Hfresh. now apply upsert_fresh.
Qed.

(** On the sample store the last revision is older than the cutoff and the
    note older than the interval: a second revision is recorded. *)
Lemma saveNoteRevision_policy_sample :
  exists w',
    saveNoteRevision sample_env sample_note sample_note_world = Ok tt w' /\
    note_revisions w'
    = [ sample_revision;
        NoteRevision.mk "rev2" "n1" (JStr "Hello") (JStr "<p>hi</p>") (JNum 0)
                        200000 1000005 ].
Proof.
  assert (Hne : revision_ids_nonempty sample_note_world).
  { intros r [<-|[]]. discriminate. }
  assert (Hns : ~ snapshot_skipped sample_env sample_note sample_note_world).
  { intros [H|[H|[[r [[<-|[]] [_ H]]]|H]]]; try discriminate; simpl in H; lia. }
  destruct (proj2 (saveNoteRevision_policy sample_env sample_note sample_note_world Hne) Hns)
    as [w' [Hrun [_ [Hrows _]]]].
  exists w'. split; [exact Hrun|]. rewrite Hrows. reflexivity.
Defined.

(** ** Tables *)

Lemma find_key_upsert {R} (key : R -> string) (r : R) (l : list R) :
  find_key key (key r) (upsert key r l) = Some r.
Proof.
  unfold upsert, find_key, has_key, replace_key.
  destruct (existsb _ l) eqn:E.
  - induction l as [|x l IH]; simpl in *; [discriminate|].
    destruct (String.eqb (key x) (key r)) eqn:Hx; simpl.
    + rewrite String.eqb_refl. reflexivity.
    + rewrite Hx. apply IH. exact E.
  - induction l as [|x l IH]; simpl in *.
    + rewrite String.eqb_refl. reflexivity.
    + apply orb_false_iff in E. destruct E as [Hx E]. rewrite Hx. now apply IH.
Qed.

Lemma find_key_some {R} (key : R -> string) (k : string) (l : list R) (r : R) :
  find_key key k l = Some r -> In r l /\ key r = k.
Proof.
  unfold find_key. intro H. apply find_some in H. destruct H as [Hin Hk].
  apply String.eqb_eq in Hk. now split.
Qed.

Lemma get_prop_set_prop (name : string) (v : jsval) (o : jsobject) :
  get_prop (set_prop name v o) name = v.
Proof.
  unfold get_prop, set_prop.
  pose proof (find_key_upsert fst (name, v) o) as H. simpl in H.
  rewrite H. reflexivity.
Qed.

Lemma get_prop_absent (o : jsobject) (name : string) :
  (forall v, ~ In (name, v) o) -> get_prop o name = JUndefined.
Proof.
  intro Habs. unfold get_prop.
  destruct (find_key fst name o) as [[k v]|] eqn:E; [|reflexivity].
  apply find_key_some in E. destruct E as [Hin Hk]. simpl in Hk. subst k.
  exfalso. exact (Habs v Hin).
Qed.

Lemma getNote_save_note (n : Note.t) (w : World) :
  getNote (Note.noteId n) (save_note n w) = Some (Note.row n).
Proof.
  unfold getNote, save_note. simpl.
  change (Note.noteId n) with (Note.noteId (Note.row n)) at 1.
  apply find_key_upsert.
Qed.

(** ** The update path *)

Lemma saveNoteImages_not_text (env : Env) (note : Note.t) (w : World) :
  Note.type note <> "text" -> saveNoteImages env note w = Ok tt w.
Proof.
  intro H. apply String.eqb_neq in H. unfold saveNoteImages. rewrite H. reflexivity.
Qed.

Lemma saveNoteImages_text (env : Env) (note : Note.t) (w : World) :
  Note.type note = "text" ->
  saveNoteImages env note w = Ok tt (save_note_images_world env note w).
Proof.
  intro H. unfold saveNoteImages. rewrite H. simpl. unfold bind, get.
  rewrite (for_of_modify _ (create_image_step env note (getNoteImages note w))).
  - rewrite (for_of_modify _ mark_unused_step); reflexivity.
  - intros id w'. unfold create_image_step.
    destruct (find_image id (getNoteImages note w)); reflexivity.
Qed.

Lemma saveNoteImages_run (env : Env) (note : Note.t) (w : World) :
  exists w', saveNoteImages env note w = Ok tt w' /\
             notes w' = notes w /\
             note_revisions w' = note_revisions w /\
             branches w' = branches w /\
             (forall x, In x (writes w) -> In x (writes w')).
Proof.
  destruct (String.eqb (Note.type note) "text") eqn:Hty.
  - apply String.eqb_eq in Hty. exists (save_note_images_world env note w).
    split; [now apply saveNoteImages_text|].
    unfold save_note_images_world.
    set (existing := getNoteImages note w).
    assert (Hframe : forall T (proj : World -> T),
              (forall w i, proj (save_note_image i w) = proj w) ->
              (forall w n, proj (with_generated n w) = proj w) ->
              proj (fold_left mark_unused_step (unused_note_images note existing)
                      (fold_left (create_image_step env note existing)
                         (found_image_ids note) w)) = proj w).
    { intros T proj H1 H2.
      rewrite (fold_left_frame proj mark_unused_step).
      - rewrite (fold_left_frame proj (create_image_step env note existing)); [reflexivity|].
        intros w0 x. unfold create_image_step.
        destruct (find_image x existing); [reflexivity|]. now rewrite H1, H2.
      - intros w0 x. apply H1. }
    repeat split; try (apply Hframe; reflexivity).
    intros x Hx.
    assert (Hmono : forall (g : World -> NoteImage.t -> World) l w0,
              (forall w1 y, In x (writes w1) -> In x (writes (g w1 y))) ->
              In x (writes w0) -> In x (writes (fold_left g l w0))).
    { intros g l. induction l as [|y l IH]; intros w0 Hg H0; simpl; auto. }
    apply Hmono.
    + intros w1 y H1. unfold mark_unused_step, save_note_image. simpl.
      apply in_or_app. now left.
    + clear Hmono. generalize (found_image_ids note) as l. revert Hx. generalize w as w0.
      intros w0 Hx l. revert w0 Hx.
      induction l as [|y l IH]; intros w0 Hx; simpl; auto.
      apply IH. unfold create_image_step.
      destruct (find_image y existing); [exact Hx|]. simpl.
      apply in_or_app. now left.
  - apply String.eqb_neq in Hty. exists w.
    split; [now apply saveNoteImages_not_text|]. auto.
Qed.

Lemma protectNoteRevisions_run (note : Note.t) (w : World) :
  exists w', protectNoteRevisions note w = Ok tt w' /\
             notes w' = notes w /\
             branches w' = branches w /\
             note_images w' = note_images w /\
             (forall x, In x (writes w) -> In x (writes w')).
Proof.
  rewrite protectNoteRevisions_eq. eexists. split; [reflexivity|].
  generalize (getRevisions note w) as l. intro l. revert w.
  induction l as [|r l IH]; intro w; simpl; [auto|].
  destruct (IH (protect_revision_step note w r)) as [H1 [H2 [H3 H4]]].
  rewrite H1, H2, H3.
  assert (Hs : notes (protect_revision_step note w r) = notes w /\
               branches (protect_revision_step note w r) = branches w /\
               note_images (protect_revision_step note w r) = note_images w /\
               (forall x, In x (writes w) -> In x (writes (protect_revision_step note w r)))).
  { unfold protect_revision_step. destruct (negb _); simpl; auto.
    repeat split. intros x Hx. apply in_or_app. now left. }
  destruct Hs as [S1 [S2 [S3 S4]]]. repeat split; auto.
Qed.

Lemma save_note_revision_world_frame (env : Env) (note : Note.t) (w : World) :
  notes (save_note_revision_world env note w) = notes w /\
  (forall x, In x (writes w) -> In x (writes (save_note_revision_world env note w))).
Proof.
  unfold save_note_revision_world. destruct (_ && _ && _ && _); simpl; auto.
  split; [reflexivity|]. intros x Hx. apply in_or_app. now left.
Qed.

(** What [updateNote] does to a note that exists: the object it persists,
    and the row the store then holds. *)
Lemma updateNote_run (env : Env) (noteId : string) (noteUpdates : jsobject)
    (w : World) (note : Note.t) :
  getNote noteId w = Some note ->
  let updates :=
    if String.eqb (Note.type note) "file"
    then set_prop "content" (Note.content note) noteUpdates
    else noteUpdates in
  let written :=
    Note.mk (Note.noteId note) (get_prop updates "title") (get_prop updates "content")
            (Note.type note) (Note.mime note) (get_prop updates "isProtected")
            (Note.isDeleted note) (Note.dateCreated note) (Note.dateModified note) in
  exists w',
    updateNote env noteId noteUpdates w = Ok tt w' /\
    In (WNote written) (writes w') /\
    getNote noteId w' = Some (Note.row written).
Proof.
  intros Hnote updates written.
  unfold updateNote, bind, get. rewrite Hnote. fold updates.
  rewrite saveNoteRevision_eq.
  set (w1 := save_note_revision_world env note w).
  unfold modify.
  change (Note.set_isProtected (get_prop updates "isProtected")
            (Note.set_content (get_prop updates "content")
               (Note.set_title (get_prop updates "title") note))) with written.
  set (w2 := save_note written w1).
  destruct (saveNoteImages_run env written w2) as [w3 [Hrun3 [Hn3 [_ [_ Hw3]]]]].
  rewrite Hrun3.
  destruct (protectNoteRevisions_run written w3) as [w4 [Hrun4 [Hn4 [_ [_ Hw4]]]]].
  exists w4. split; [exact Hrun4|]. split.
  - apply Hw4, Hw3. unfold w2, save_note. simpl. apply in_or_app. right. now left.
  - unfold getNote. rewrite Hn4, Hn3.
    apply find_key_some in Hnote. destruct Hnote as [_ Hid].
    change (getNote noteId w2 = Some (Note.row written)).
    rewrite <- Hid. apply (getNote_save_note written w1).
Qed.

(** The snapshot that [updateNote] takes carries the title and the content
    the note had before the update. *)
Lemma updateNote_snapshot_before_update (env : Env) (noteId : string)
    (noteUpdates : jsobject) (w : World) (note : Note.t) :
  getNote noteId w = Some note ->
  revision_ids_nonempty w ->
  ~ snapshot_skipped env note w ->
  exists w',
    updateNote env noteId noteUpdates w = Ok tt w' /\
    In (WNoteRevision
          (NoteRevision.mk (newNoteRevisionId env) (Note.noteId note)
                           (Note.title note) (Note.content note) (JNum 0)
                           (Note.dateModified note) (nowDate env)))
       (writes w').
Proof.
  intros Hnote Hne Hns.
  unfold updateNote, bind, get. rewrite Hnote, saveNoteRevision_eq.
  rewrite (proj2 (snapshot_decision env note w Hne) Hns). unfold modify.
  set (w1 := save_note_revision (new_revision env note) w).
  set (written := Note.set_isProtected _ _).
  destruct (saveNoteImages_run env written (save_note written w1))
    as [w3 [Hrun3 [_ [_ [_ Hw3]]]]].
  rewrite Hrun3.
  destruct (protectNoteRevisions_run written w3) as [w4 [Hrun4 [_ [_ [_ Hw4]]]]].
  exists w4. split; [exact Hrun4|].
  apply Hw4, Hw3. unfold save_note. simpl. apply in_or_app. left.
  apply in_or_app. right. now left.
Qed.

(** C4. For a note of type file, whatever the update object holds, the note
    that the store holds after [updateNote] has the content it had before. *)
Theorem updateNote_file_keeps_content (env : Env) (noteId : string)
    (noteUpdates : jsobject) (w : World) (note : Note.t) :
  getNote noteId w = Some note ->
  Note.type note = "file" ->
  is_column (Note.content note) ->
  exists w' note',
    updateNote env noteId noteUpdates w = Ok tt w' /\
    getNote noteId w' = Some note' /\
    Note.content note' = Note.content note.
Proof.
  intros Hnote Hty Hcol.
  destruct (updateNote_run env noteId noteUpdates w note Hnote) as [w' [Hrun [_ Hget]]].
  rewrite Hty in Hget. simpl in Hget. rewrite get_prop_set_prop in Hget.
  eexists. eexists. split; [exact Hrun|]. split; [exact Hget|]. exact Hcol.
Qed.

(** Scenario 3: an update of the sample file note with other content. *)
Lemma updateNote_file_keeps_content_sample :
  exists w' note',
    updateNote sample_env "f1" [("title", JStr "renamed"); ("content", JStr "ignored")]
               sample_file_world = Ok tt w' /\
    getNote "f1" w' = Some note' /\
    Note.content note' = JStr "%PDF-1.4".
Proof.
  exact (updateNote_file_keeps_content sample_env "f1"
           [("title", JStr "renamed"); ("content", JStr "ignored")]
           sample_file_world sample_file_note eq_refl eq_refl eq_refl).
Defined.

(** C10. For a note that is not a file, [updateNote] persists the note
    object with title, content and isProtected replaced by the properties of
    the update object of these names and every other field as it was; the
    store then holds the column image of that object; and a property that
    the update object lacks reads as undefined, which is what replaces the
    field. *)
Theorem updateNote_overwrites_fields (env : Env) (noteId : string)
    (noteUpdates : jsobject) (w : World) (note : Note.t) :
  getNote noteId w = Some note ->
  Note.type note <> "file" ->
  let written :=
    Note.mk (Note.noteId note)
            (get_prop noteUpdates "title") (get_prop noteUpdates "content")
            (Note.type note) (Note.mime note) (get_prop noteUpdates "isProtected")
            (Note.isDeleted note) (Note.dateCreated note) (Note.dateModified note) in
  (exists w',
     updateNote env noteId noteUpdates w = Ok tt w' /\
     In (WNote written) (writes w') /\
     getNote noteId w' = Some (Note.row written)) /\
  (forall name, (forall v, ~ In (name, v) noteUpdates) ->
                get_prop noteUpdates name = JUndefined).
Proof.
  intros Hnote Hty written. split.
  - pose proof (updateNote_run env noteId noteUpdates w note Hnote) as H.
    apply String.eqb_neq in Hty. rewrite Hty in H. exact H.
  - intro name. apply get_prop_absent.
Qed.

(** An update that names only the title leaves the sample note with
    undefined content and protection flag, stored as NULL. *)
Lemma updateNote_overwrites_fields_sample :
  exists w',
    updateNote sample_env "n1" [("title", JStr "Renamed")] sample_note_world = Ok tt w' /\
    In (WNote (Note.mk "n1" (JStr "Renamed") JUndefined "text" "text/html" JUndefined
                       (JNum 0) 100000 200000)) (writes w') /\
    getNote "n1" w'
    = Some (Note.mk "n1" (JStr "Renamed") JNull "text" "text/html" JNull
                    (JNum 0) 100000 200000).
Proof.
  assert (Hty : Note.type sample_note <> "file") by discriminate.
  exact (proj1 (updateNote_overwrites_fields sample_env "n1" [("title", JStr "Renamed")]
                  sample_note_world sample_note eq_refl Hty)).
Defined.

(** ** Deletion cascade: the guard *)

(** [deleteNote] called without a branch, or with a branch whose isDeleted
    flag is 1, the value a deleted row of the store carries, returns at
    once: no write is issued and the store is what it was. *)
Theorem deleteNote_absent_or_deleted (depth : nat) (w : World) :
  deleteNote depth None w = Ok tt w /\
  (forall branch, Branch.isDeleted branch = JNum 1 ->
                  deleteNote depth (Some branch) w = Ok tt w).
Proof.
  split.
  - destruct depth; reflexivity.
  - intros branch Hd. destruct depth; simpl; rewrite Hd; reflexivity.
Qed.

Lemma deleteNote_absent_or_deleted_sample :
  deleteNote 0 None sample_world = Ok tt sample_world /\
  deleteNote 0 (Some sample_deleted_branch) sample_world = Ok tt sample_world.
Proof.
  split.
  - exact (proj1 (deleteNote_absent_or_deleted 0 sample_world)).
  - exact (proj2 (deleteNote_absent_or_deleted 0 sample_world)
                 sample_deleted_branch eq_refl).
Defined.

(** ** Image reference tracker *)

Lemma In_upsert {R} (key : R -> string) (r : R) (l : list R) :
  In r (upsert key r l).
Proof.
  unfold upsert. destruct (has_key key (key r) l) eqn:E.
  - unfold has_key in E. apply existsb_exists in E. destruct E as [x [Hx Hk]].
    unfold replace_key. apply in_map_iff. exists x. rewrite Hk. now split.
  - apply in_or_app. right. now left.
Qed.

Lemma In_upsert_inv {R} (key : R -> string) (r y : R) (l : list R) :
  In y (upsert key r l) -> y = r \/ (In y l /\ key y <> key r).
Proof.
  unfold upsert. destruct (has_key key (key r) l) eqn:E.
  - unfold replace_key. intro H. apply in_map_iff in H. destruct H as [x [Hx Hin]].
    destruct (String.eqb_spec (key x) (key r)) as [Heq|Hneq].
    + left. now symmetry.
    + right. subst y. now split.
  - intro H. apply in_app_or in H. destruct H as [H|[H|[]]]; [|now left].
    right. split; [exact H|]. intro Heq.
    assert (Ht : has_key key (key r) l = true).
    { unfold has_key. apply existsb_exists. exists y. split; [exact H|].
      now apply String.eqb_eq. }
    congruence.
Qed.

Lemma In_upsert_other {R} (key : R -> string) (r x : R) (l : list R) :
  In x l -> key x <> key r -> In x (upsert key r l).
Proof.
  intros Hin Hk. unfold upsert. destruct (has_key key (key r) l).
  - unfold replace_key. apply in_map_iff. exists x.
    apply String.eqb_neq in Hk. rewrite Hk. now split.
  - apply in_or_app. now left.
Qed.

Lemma filter_nil {A} (f : A -> bool) (l : list A) :
  (forall x, In x l -> f x = false) -> filter f l = [].
Proof.
  induction l as [|x l IH]; intro H; simpl; [reflexivity|].
  rewrite (H x (or_introl eq_refl)). apply IH. intros y Hy. apply H. now right.
Qed.

Lemma includes_In (l : list string) (x : string) : includes l x = true <-> In x l.
Proof.
  unfold includes. rewrite existsb_exists. split.
  - intros [y [Hy He]]. apply String.eqb_eq in He. now subst.
  - intro H. exists x. split; [exact H|]. apply String.eqb_refl.
Qed.

Lemma find_image_some (imageId : string) (l : list NoteImage.t) (x : NoteImage.t) :
  In x l -> NoteImage.imageId x = imageId -> exists y, find_image imageId l = Some y.
Proof.
  intros Hin Hid. unfold find_image.
  destruct (find (fun ni => String.eqb (NoteImage.imageId ni) imageId) l) as [y|] eqn:E.
  - now exists y.
  - pose proof (find_none _ _ E x Hin) as Hf. simpl in Hf.
    apply String.eqb_neq in Hf. contradiction.
Qed.

Lemma getNoteImages_In (note : Note.t) (w : World) (x : NoteImage.t) :
  In x (getNoteImages note w) <->
  In x (note_images w) /\ NoteImage.noteId x = Note.noteId note /\
  NoteImage.isDeleted x = JNum 0.
Proof.
  unfold getNoteImages. rewrite filter_In, andb_true_iff, String.eqb_eq, sql_eq0_true.
  tauto.
Qed.

Section TrackerRun.
Variable env : Env.
Variable note : Note.t.
Variable w0 : World.
Hypothesis Hfresh : image_ids_fresh env w0.

Let existing := getNoteImages note w0.
Let found := found_image_ids note.
Let unused := unused_note_images note existing.
Let key := NoteImage.noteImageId.

(** The identifiers still to be drawn in [w] differ from [k]. *)
Let safe (k : string) (w : World) : Prop :=
  forall g, (generated w <= g)%nat -> newNoteImageId env g <> k.

Lemma existing_safe (x : NoteImage.t) (w : World) :
  In x (note_images w0) -> (generated w0 <= generated w)%nat -> safe (key x) w.
Proof.
  intros Hin Hg g Hge Heq. destruct Hfresh as [_ [Hnew _]].
  apply (Hnew g); [lia|]. rewrite Heq. now apply in_map.
Qed.

Lemma create_step_generated (ex : list NoteImage.t) (w : World) (imageId : string) :
  (generated w <= generated (create_image_step env note ex w imageId))%nat.
Proof.
  unfold create_image_step. destruct (find_image imageId ex); simpl; lia.
Qed.

Lemma create_fold_generated (ex : list NoteImage.t) (l : list string) (w : World) :
  (generated w <= generated (fold_left (create_image_step env note ex) l w))%nat.
Proof.
  revert w. induction l as [|id l IH]; intro w; simpl; [lia|].
  specialize (IH (create_image_step env note ex w id)).
  pose proof (create_step_generated ex w id). lia.
Qed.

Lemma create_step_keeps (ex : list NoteImage.t) (w : World) (imageId : string)
    (x : NoteImage.t) :
  In x (note_images w) -> safe (key x) w ->
  In x (note_images (create_image_step env note ex w imageId)).
Proof.
  intros Hin Hsafe. unfold create_image_step.
  destruct (find_image imageId ex); [exact Hin|]. simpl.
  apply In_upsert_other; [exact Hin|]. simpl.
  intro Heq. apply (Hsafe (generated w)); [lia|]. now symmetry.
Qed.

Lemma safe_mono (k : string) (w w' : World) :
  (generated w <= generated w')%nat -> safe k w -> safe k w'.
Proof. intros Hle Hs g Hg. apply Hs. lia. Qed.

Lemma create_fold_keeps (ex : list NoteImage.t) (l : list string) (w : World)
    (x : NoteImage.t) :
  In x (note_images w) -> safe (key x) w ->
  In x (note_images (fold_left (create_image_step env note ex) l w)).
Proof.
  revert w. induction l as [|id l IH]; intros w Hin Hsafe; simpl; [exact Hin|].
  apply IH.
  - now apply create_step_keeps.
  - apply (safe_mono _ w); [apply create_step_generated|exact Hsafe].
Qed.

(** No record that the second loop marks has the key of [x]. *)
Let apart (x : NoteImage.t) : Prop :=
  forall u, In u unused -> key u <> key x.

Lemma unused_In (u : NoteImage.t) :
  In u unused <->
  In u existing /\ ~ In (NoteImage.imageId u) found.
Proof.
  unfold unused, unused_note_images. rewrite filter_In, negb_true_iff.
  fold found. rewrite <- includes_In.
  destruct (includes found (NoteImage.imageId u)); split; intros [H1 H2];
    split; auto; try discriminate. exfalso. now apply H2.
Qed.

Lemma key_injective (x y : NoteImage.t) :
  In x (note_images w0) -> In y (note_images w0) -> key x = key y -> x = y.
Proof.
  destruct Hfresh as [Hnd _]. revert Hnd.
  induction (note_images w0) as [|z l IH]; intros Hnd Hx Hy Hk; [destruct Hx|].
  simpl in Hnd. inversion Hnd as [|? ? Hnotin Hnd']; subst.
  destruct Hx as [<-|Hx], Hy as [<-|Hy]; auto.
  - exfalso. apply Hnotin. fold key. rewrite Hk. now apply in_map.
  - exfalso. apply Hnotin. fold key. rewrite <- Hk. now apply in_map.
Qed.

Lemma existing_apart (x : NoteImage.t) :
  In x existing -> In (NoteImage.imageId x) found -> apart x.
Proof.
  intros Hx Hf u Hu Hk. apply unused_In in Hu. destruct Hu as [Hu Hnf].
  apply getNoteImages_In in Hx. apply getNoteImages_In in Hu.
  assert (u = x) by (apply key_injective; tauto). subst u. contradiction.
Qed.

Lemma generated_apart (x : NoteImage.t) (g : nat) :
  (generated w0 <= g)%nat -> key x = newNoteImageId env g -> apart x.
Proof.
  intros Hg Hk u Hu Heq. apply unused_In in Hu. destruct Hu as [Hu _].
  apply getNoteImages_In in Hu. destruct Hu as [Hu _].
  destruct Hfresh as [_ [Hnew _]]. apply (Hnew g Hg).
  rewrite <- Hk, <- Heq. now apply in_map.
Qed.

(** After the first loop every identifier found has a record that is not
    deleted, and that the second loop leaves alone. *)
Lemma create_fold_covers (l : list string) (w : World) (imageId : string) :
  (forall id, In id l -> In id found) ->
  (generated w0 <= generated w)%nat ->
  (forall x, In x existing -> In x (note_images w)) ->
  In imageId l ->
  exists x, In x (note_images (fold_left (create_image_step env note existing) l w)) /\
            NoteImage.noteId x = Note.noteId note /\
            NoteImage.isDeleted x = JNum 0 /\
            NoteImage.imageId x = imageId /\
            apart x.
Proof.
  revert w. induction l as [|id l IH]; intros w Hl Hg Hex Hin; [destruct Hin|].
  simpl.
  assert (Hg' : (generated w0 <= generated (create_image_step env note existing w id))%nat).
  { pose proof (create_step_generated existing w id). lia. }
  assert (Hex' : forall x, In x existing ->
                   In x (note_images (create_image_step env note existing w id))).
  { intros x Hx. apply create_step_keeps; [now apply Hex|].
    apply existing_safe; [|exact Hg]. apply getNoteImages_In in Hx. tauto. }
  destruct Hin as [<-|Hin].
  - destruct (find_image id existing) as [x|] eqn:E.
    + unfold find_image in E. apply find_some in E. destruct E as [Hx Hid].
      apply String.eqb_eq in Hid. exists x.
      pose proof Hx as Hx0. apply getNoteImages_In in Hx0.
      split; [|repeat split; try tauto].
      * apply create_fold_keeps; [now apply Hex'|].
        apply existing_safe; [tauto|exact Hg'].
      * apply existing_apart; [exact Hx|]. rewrite Hid. apply Hl. now left.
    + set (c := NoteImage.mk (newNoteImageId env (generated w)) (Note.noteId note)
                             id (JNum 0)).
      exists c.
      assert (Hstep : create_image_step env note existing w id
                      = save_note_image c (with_generated (S (generated w)) w)).
      { unfold create_image_step. now rewrite E. }
      split; [|repeat split].
      * apply create_fold_keeps.
        -- rewrite Hstep. simpl. apply (In_upsert NoteImage.noteImageId c).
        -- rewrite Hstep. intros g Hge. simpl in Hge. simpl.
           destruct Hfresh as [_ [_ Hinj]]. intro Heq.
           apply Hinj in Heq; lia.
      * apply (generated_apart c (generated w)); [exact Hg|reflexivity].
  - apply (IH (create_image_step env note existing w id)); auto.
    intros id' Hid'. apply Hl. now right.
Qed.

Lemma mark_fold_keeps (l : list NoteImage.t) (w : World) (x : NoteImage.t) :
  In x (note_images w) -> (forall u, In u l -> key u <> key x) ->
  In x (note_images (fold_left mark_unused_step l w)).
Proof.
  revert w. induction l as [|u l IH]; intros w Hin Hl; simpl; [exact Hin|].
  apply IH.
  - unfold mark_unused_step. simpl. apply In_upsert_other; [exact Hin|].
    simpl. intro Heq. apply (Hl u); [now left|]. now symmetry.
  - intros u' Hu'. apply Hl. now right.
Qed.

(** What the first loop adds is found in the content. *)
Lemma create_fold_sound (l : list string) (w : World) (P : NoteImage.t -> Prop) :
  (forall id, In id l -> In id found) ->
  (forall y, In y (note_images w) -> In (NoteImage.imageId y) found \/ P y) ->
  forall y, In y (note_images (fold_left (create_image_step env note existing) l w)) ->
            In (NoteImage.imageId y) found \/ P y.
Proof.
  revert w. induction l as [|id l IH]; intros w Hl Hw; simpl; [exact Hw|].
  apply IH.
  - intros id' Hid'. apply Hl. now right.
  - intros y Hy. unfold create_image_step in Hy.
    destruct (find_image id existing); [now apply Hw|]. simpl in Hy.
    apply In_upsert_inv in Hy. destruct Hy as [->|[Hy _]]; [|now apply Hw].
    left. simpl. apply Hl. now left.
Qed.

(** What the second loop leaves undeleted for the note is found in the
    content. *)
Lemma mark_fold_sound (l : list NoteImage.t) (w : World) :
  (forall y, In y (note_images w) ->
             NoteImage.noteId y = Note.noteId note ->
             NoteImage.isDeleted y = JNum 0 ->
             In (NoteImage.imageId y) found \/ exists u, In u l /\ key u = key y) ->
  forall y, In y (note_images (fold_left mark_unused_step l w)) ->
            NoteImage.noteId y = Note.noteId note ->
            NoteImage.isDeleted y = JNum 0 ->
            In (NoteImage.imageId y) found.
Proof.
  revert w. induction l as [|u l IH]; intros w Hw; simpl.
  - intros y Hy Hn Hd. destruct (Hw y Hy Hn Hd) as [H|[u [[] _]]]. exact H.
  - apply IH. intros y Hy Hn Hd. unfold mark_unused_step in Hy. simpl in Hy.
    apply In_upsert_inv in Hy. destruct Hy as [->|[Hy Hk]]; [discriminate|].
    simpl in Hk. destruct (Hw y Hy Hn Hd) as [H|[u' [[<-|Hu'] Hk']]].
    + now left.
    + exfalso. apply Hk. now symmetry.
    + right. now exists u'.
Qed.

Let w1 := save_note_images_world env note w0.

Lemma tracker_covers (imageId : string) :
  In imageId found ->
  exists x, In x (getNoteImages note w1) /\ NoteImage.imageId x = imageId.
Proof.
  intro Hin.
  destruct (create_fold_covers found w0 imageId) as [x [Hx [Hn [Hd [Hid Hap]]]]]; auto.
  { intros x Hx. apply getNoteImages_In in Hx. tauto. }
  exists x. split; [|exact Hid]. apply getNoteImages_In. repeat split; auto.
  unfold w1, save_note_images_world. now apply mark_fold_keeps.
Qed.

Lemma tracker_sound (y : NoteImage.t) :
  In y (getNoteImages note w1) -> In (NoteImage.imageId y) found.
Proof.
  intro Hy. apply getNoteImages_In in Hy. destruct Hy as [Hy [Hn Hd]].
  unfold w1, save_note_images_world in Hy. fold existing found unused in Hy.
  apply (mark_fold_sound unused
           (fold_left (create_image_step env note existing) found w0)); auto.
  intros z Hz Hzn Hzd.
  apply (create_fold_sound found w0
           (fun z => NoteImage.noteId z = Note.noteId note ->
                     NoteImage.isDeleted z = JNum 0 ->
                     exists u, In u unused /\ key u = key z)) in Hz; auto.
  - destruct Hz as [Hz|Hz]; [now left|right; now apply Hz].
  - intros v Hv.
    destruct (includes found (NoteImage.imageId v)) eqn:Hinc.
    + left. now apply includes_In.
    + right. intros Hvn Hvd. exists v. split; [|reflexivity].
      apply unused_In. split; [apply getNoteImages_In; tauto|].
      rewrite <- includes_In. congruence.
Qed.

(** A second run of the tracker finds nothing to do. *)
Lemma tracker_second_run : save_note_images_world env note w1 = w1.
Proof.
  unfold save_note_images_world at 1.
  assert (Hun : unused_note_images note (getNoteImages note w1) = []).
  { unfold unused_note_images. apply filter_nil. intros y Hy.
    apply tracker_sound in Hy. apply negb_false_iff. now apply includes_In. }
  rewrite Hun. simpl.
  assert (Hid : forall l w, (forall id, In id l -> In id found) ->
            fold_left (create_image_step env note (getNoteImages note w1)) l w = w).
  { induction l as [|id l IH]; intros w Hl; simpl; [reflexivity|].
    assert (Hs : create_image_step env note (getNoteImages note w1) w id = w).
    { unfold create_image_step.
      destruct (tracker_covers id (Hl id (or_introl eq_refl))) as [x [Hx Hxi]].
      destruct (find_image_some id _ x Hx Hxi) as [y ->]. reflexivity. }
    rewrite Hs. apply IH. intros id' Hid'. apply Hl. now right. }
  apply Hid. auto.
Qed.

End TrackerRun.

(** C8. Run a second time on the note, whose content has not changed, the
    tracker issues no write and leaves the store as the first run left it. *)
Theorem saveNoteImages_idempotent (env : Env) (note : Note.t) (w : World) :
  image_ids_fresh env w ->
  exists w1,
    saveNoteImages env note w = Ok tt w1 /\
    saveNoteImages env note w1 = Ok tt w1 /\
    (forall w2, saveNoteImages env note w1 = Ok tt w2 -> writes w2 = writes w1).
Proof.
  intro Hfresh.
  assert (H : exists w1, saveNoteImages env note w = Ok tt w1 /\
                         saveNoteImages env note w1 = Ok tt w1).
  { destruct (String.eqb (Note.type note) "text") eqn:Hty.
    - apply String.eqb_eq in Hty. exists (save_note_images_world env note w).
      split; [now apply saveNoteImages_text|].
      rewrite (saveNoteImages_text env note _ Hty).
      now rewrite tracker_second_run.
    - apply String.eqb_neq in Hty. exists w.
      split; now apply saveNoteImages_not_text. }
  destruct H as [w1 [H1 H2]]. exists w1. repeat split; auto.
  intros w2 Hw2. rewrite H2 in Hw2. now injection Hw2 as <-.
Qed.

(** The writes of one run: a record for each occurrence in the content of an
    identifier that had no record, then the records no longer referred to,
    marked deleted.  Records whose identifier is still present are not
    written. *)
Lemma saveNoteImages_writes (env : Env) (note : Note.t) (w : World) :
  Note.type note = "text" ->
  exists w',
    saveNoteImages env note w = Ok tt w' /\
    writes w'
    = (writes w
       ++ map WNoteImage
              (new_note_images env (Note.noteId note) (generated w)
                 (untracked (getNoteImages note w) (found_image_ids note)))
       ++ map (fun u => WNoteImage (NoteImage.set_isDeleted (JNum 1) u))
              (unused_note_images note (getNoteImages note w)))%list.
Proof.
  intro Hty. eexists. split; [now apply saveNoteImages_text|].
  unfold save_note_images_world.
  set (existing := getNoteImages note w).
  assert (Hmark : forall l w0,
            writes (fold_left mark_unused_step l w0)
            = (writes w0
               ++ map (fun u => WNoteImage (NoteImage.set_isDeleted (JNum 1) u)) l)%list).
  { induction l as [|u l IH]; intro w0; simpl.
    - now rewrite app_nil_r.
    - rewrite IH. unfold mark_unused_step. simpl. now rewrite <- app_assoc. }
  rewrite Hmark, app_assoc. f_equal.
  generalize (found_image_ids note) as l. intro l. generalize w as w0.
  induction l as [|id l IH]; intro w0; simpl.
  - now rewrite app_nil_r.
  - rewrite IH. unfold create_image_step.
    destruct (find_image id existing); simpl; [reflexivity|].
    now rewrite <- app_assoc.
Qed.

(** C7, on a note that shows the same image twice and has no record yet: the
    tracker creates two records for the one identifier, where the
    specification has exactly one record for each distinct identifier. *)
Theorem saveNoteImages_repeated_reference :
  found_image_ids sample_gallery_note = ["abc"; "abc"] /\
  exists w',
    saveNoteImages sample_env sample_gallery_note sample_gallery_world = Ok tt w' /\
    note_images w'
    = [ NoteImage.mk "i" "n1" "abc" (JNum 0);
        NoteImage.mk "ix" "n1" "abc" (JNum 0) ].
Proof.
  split; [reflexivity|].
  exists (save_note_images_world sample_env sample_gallery_note sample_gallery_world).
  split; [now apply saveNoteImages_text|reflexivity].
Qed.

(** Scenario 4: the record of an image still shown is kept as it is, the
    record of the image no longer shown is marked deleted, a record is
    created for the new image, and the records of other notes are left
    alone. *)
Example saveNoteImages_album :
  exists w',
    saveNoteImages sample_env sample_album_note sample_album_world = Ok tt w' /\
    note_images w'
    = [ NoteImage.mk "k1" "n1" "abc" (JNum 0);
        NoteImage.mk "k2" "n1" "old" (JNum 1);
        NoteImage.mk "k3" "n2" "old" (JNum 0);
        NoteImage.mk "i" "n1" "Zz9" (JNum 0) ] /\
    writes w'
    = [ WNoteImage (NoteImage.mk "i" "n1" "Zz9" (JNum 0));
        WNoteImage (NoteImage.mk "k2" "n1" "old" (JNum 1)) ].
Proof.
  exists (save_note_images_world sample_env sample_album_note sample_album_world).
  split; [now apply saveNoteImages_text|]. split; reflexivity.
Qed.

Lemma sample_image_ids_fresh : image_ids_fresh sample_env sample_album_world.
Proof.
  split; [|split].
  - simpl. repeat constructor; simpl; intuition discriminate.
  - intros k _. simpl. intuition discriminate.
  - intros j k _ _ H. simpl in H. injection H as H.
    assert (Hl : list_ascii_of_string (string_of_list_ascii (repeat "x"%char j))
                 = list_ascii_of_string (string_of_list_ascii (repeat "x"%char k)))
      by now rewrite H.
    rewrite !list_ascii_of_string_of_list_ascii in Hl.
    apply (f_equal (@List.length ascii)) in Hl. now rewrite !repeat_length in Hl.
Defined.

Lemma saveNoteImages_idempotent_sample :
  exists w1,
    saveNoteImages sample_env sample_album_note sample_album_world = Ok tt w1 /\
    saveNoteImages sample_env sample_album_note w1 = Ok tt w1 /\
    (forall w2, saveNoteImages sample_env sample_album_note w1 = Ok tt w2 ->
                writes w2 = writes w1).
Proof.
  exact (saveNoteImages_idempotent sample_env sample_album_note sample_album_world
           sample_image_ids_fresh).
Defined.

(** ** Deletion cascade *)

Lemma NoDup_key_injective {R} (key : R -> string) (l : list R) (x y : R) :
  NoDup (map key l) -> In x l -> In y l -> key x = key y -> x = y.
Proof.
  induction l as [|z l IH]; intros Hnd Hx Hy Hk; [destruct Hx|].
  simpl in Hnd. inversion Hnd as [|? ? Hnotin Hnd']; subst.
  destruct Hx as [<-|Hx], Hy as [<-|Hy]; auto.
  - exfalso. apply Hnotin. rewrite Hk. now apply in_map.
  - exfalso. apply Hnotin. rewrite <- Hk. now apply in_map.
Qed.

Lemma has_key_In {R} (key : R -> string) (k : string) (l : list R) :
  has_key key k l = true <-> In k (map key l).
Proof.
  unfold has_key. rewrite existsb_exists, in_map_iff.
  split; intros [x [H1 H2]]; exists x.
  - apply String.eqb_eq in H2. now split.
  - split; [exact H2|]. now apply String.eqb_eq.
Qed.

Lemma find_key_In {R} (key : R -> string) (k : string) (l : list R) :
  In k (map key l) -> exists r, find_key key k l = Some r.
Proof.
  intro H. unfold find_key.
  destruct (find (fun x => String.eqb (key x) k) l) as [r|] eqn:E; [now exists r|].
  apply in_map_iff in H. destruct H as [x [Hk Hx]].
  pose proof (find_none _ _ E x Hx) as Hf. simpl in Hf.
  apply String.eqb_neq in Hf. contradiction.
Qed.

Lemma upsert_keys_present {R} (key : R -> string) (r : R) (l : list R) :
  In (key r) (map key l) -> map key (upsert key r l) = map key l.
Proof.
  intro H. unfold upsert. apply has_key_In in H. rewrite H.
  unfold replace_key. rewrite map_map. apply map_ext. intro x.
  destruct (String.eqb_spec (key x) (key r)); congruence.
Qed.

Lemma count_active_replace_le (r : Branch.t) (l : list Branch.t) :
  active r = false ->
  (count_active (replace_key Branch.branchId r l) <= count_active l)%nat.
Proof.
  intro Hr. unfold count_active, replace_key.
  induction l as [|x l IH]; simpl; [lia|].
  destruct (String.eqb (Branch.branchId x) (Branch.branchId r)).
  - rewrite Hr. destruct (active x); simpl; lia.
  - destruct (active x); simpl; lia.
Qed.

Lemma count_active_replace_lt (r x : Branch.t) (l : list Branch.t) :
  active r = false -> In x l -> active x = true ->
  Branch.branchId x = Branch.branchId r ->
  (count_active (replace_key Branch.branchId r l) < count_active l)%nat.
Proof.
  intros Hr Hx Hax Hk. induction l as [|y l IH]; [destruct Hx|].
  pose proof (count_active_replace_le r l Hr) as Hle.
  unfold count_active, replace_key in *. simpl.
  destruct Hx as [->|Hx].
  - apply String.eqb_eq in Hk. rewrite Hk, Hr, Hax. simpl. lia.
  - specialize (IH Hx).
    destruct (String.eqb (Branch.branchId y) (Branch.branchId r)).
    + rewrite Hr. destruct (active y); simpl; lia.
    + destruct (active y); simpl; lia.
Qed.

Lemma count_active_upsert_le (r : Branch.t) (l : list Branch.t) :
  active r = false ->
  (count_active (upsert Branch.branchId r l) <= count_active l)%nat.
Proof.
  intro Hr. unfold upsert. destruct (has_key Branch.branchId (Branch.branchId r) l).
  - now apply count_active_replace_le.
  - unfold count_active. rewrite filter_app. simpl. rewrite Hr.
    rewrite app_nil_r. lia.
Qed.

Lemma count_active_upsert_lt (r x : Branch.t) (l : list Branch.t) :
  active r = false -> In x l -> active x = true ->
  Branch.branchId x = Branch.branchId r ->
  (count_active (upsert Branch.branchId r l) < count_active l)%nat.
Proof.
  intros Hr Hx Hax Hk. unfold upsert.
  assert (Hh : has_key Branch.branchId (Branch.branchId r) l = true).
  { apply has_key_In. rewrite <- Hk. now apply in_map. }
  rewrite Hh. now apply (count_active_replace_lt r x).
Qed.

Lemma marked_row_inactive (b : Branch.t) : active (Branch.row (marked b)) = false.
Proof. reflexivity. Qed.

Lemma upsert_skeleton (r b : Branch.t) (l : list Branch.t) :
  NoDup (map Branch.branchId l) ->
  In (skeleton b) (map skeleton l) ->
  skeleton r = skeleton b ->
  map skeleton (upsert Branch.branchId r l) = map skeleton l.
Proof.
  intros Hnd Hin Hsk.
  apply in_map_iff in Hin. destruct Hin as [x0 [Hx0 Hin0]].
  assert (Hkr : Branch.branchId r = Branch.branchId x0).
  { unfold skeleton in *. congruence. }
  unfold upsert.
  assert (Hh : has_key Branch.branchId (Branch.branchId r) l = true).
  { apply has_key_In. rewrite Hkr. now apply in_map. }
  rewrite Hh. unfold replace_key. rewrite map_map. apply map_ext_in.
  intros x Hx. destruct (String.eqb_spec (Branch.branchId x) (Branch.branchId r)) as [He|];
    [|reflexivity].
  assert (x = x0).
  { apply (NoDup_key_injective Branch.branchId l); auto. congruence. }
  subst x. congruence.
Qed.

Lemma filter_nil_iff {A} (f : A -> bool) (l : list A) :
  filter f l = [] <-> forall x, In x l -> f x = false.
Proof.
  split; [|apply filter_nil].
  intros H x Hx. destruct (f x) eqn:E; [|reflexivity].
  assert (Hin : In x (filter f l)) by (apply filter_In; now split).
  rewrite H in Hin. destruct Hin.
Qed.

Lemma getBranches_nil (n : Note.t) (w : World) :
  getBranches n w = [] <-> ~ placed w (Note.noteId n).
Proof.
  unfold getBranches, placed. rewrite filter_nil_iff. split.
  - intros H [b [Hb [Hn Hd]]]. specialize (H b Hb). simpl in H.
    apply String.eqb_eq in Hn. apply sql_eq0_true in Hd. rewrite Hn, Hd in H.
    discriminate.
  - intros H b Hb. simpl.
    destruct (String.eqb_spec (Branch.noteId b) (Note.noteId n)) as [Hn|]; [|reflexivity].
    destruct (sql_eq0 (Branch.isDeleted b)) eqn:Hd; [|reflexivity].
    exfalso. apply H. exists b. apply sql_eq0_true in Hd. auto.
Qed.

Lemma getBranches_placed (n : Note.t) (w : World) :
  getBranches n w <> [] -> placed w (Note.noteId n).
Proof.
  intro Hne. destruct (getBranches n w) as [|t l] eqn:E; [contradiction|].
  assert (Hin : In t (getBranches n w)) by (rewrite E; now left).
  unfold getBranches in Hin. apply filter_In in Hin. destruct Hin as [Hin Hc].
  apply andb_true_iff in Hc. destruct Hc as [Hc1 Hc2].
  exists t. apply String.eqb_eq in Hc1. apply sql_eq0_true in Hc2. auto.
Qed.

Lemma store_consistent_transfer (w w' : World) :
  map skeleton (branches w') = map skeleton (branches w) ->
  map Note.noteId (notes w') = map Note.noteId (notes w) ->
  store_consistent w -> store_consistent w'.
Proof.
  intros Hsk Hk [Hnd Href]. split.
  - assert (Hkeys : forall l, map Branch.branchId l
                              = map (fun s => fst (fst s)) (map skeleton l)).
    { intro l. rewrite map_map. reflexivity. }
    rewrite Hkeys, Hsk, <- Hkeys. exact Hnd.
  - intros b Hb. rewrite Hk.
    assert (Hs : In (skeleton b) (map skeleton (branches w)))
      by (rewrite <- Hsk; now apply in_map).
    apply in_map_iff in Hs. destruct Hs as [b0 [Hs0 Hb0]].
    replace (Branch.noteId b) with (Branch.noteId b0)
      by (unfold skeleton in Hs0; congruence).
    now apply Href.
Qed.

Lemma deleteNote_step (depth : nat) (b : Branch.t) (w : World) :
  Branch.isDeleted b <> JNum 1 ->
  deleteNote (S depth) (Some b) w
  = match getNote (Branch.noteId b) (save_branch (marked b) w) with
    | None => Throw "TypeError: Cannot read property 'getBranches' of null"
                    (save_branch (marked b) w)
    | Some note =>
        if Nat.eqb (List.length (getBranches note (save_branch (marked b) w))) 0
        then for_of (getChildBranches note
                       (save_note (Note.set_isDeleted (JBool true) note)
                                  (save_branch (marked b) w)))
                    (fun c => deleteNote depth (Some c))
                    (save_note (Note.set_isDeleted (JBool true) note)
                               (save_branch (marked b) w))
        else Ok tt (save_branch (marked b) w)
    end.
Proof.
  intro Hd. apply js_strict_eq_false in Hd. unfold marked.
  cbn [deleteNote]. rewrite Hd. unfold bind, modify, get.
  change (Branch.noteId (Branch.set_isDeleted (JBool true) b)) with (Branch.noteId b).
  destruct (getNote (Branch.noteId b) (save_branch (Branch.set_isDeleted (JBool true) b) w))
    as [note|]; [|reflexivity].
  destruct (Nat.eqb _ 0); reflexivity.
Qed.

Section BranchWrite.
Variable w : World.
Variable b : Branch.t.
Hypothesis Hcons : store_consistent w.
Hypothesis Hsk : In (skeleton b) (map skeleton (branches w)).

Let w1 := save_branch (marked b) w.

Lemma save_branch_skeleton :
  map skeleton (branches w1) = map skeleton (branches w).
Proof.
  unfold w1, save_branch. simpl. destruct Hcons as [Hnd _].
  now apply (upsert_skeleton _ b).
Qed.

Lemma save_branch_active (y : Branch.t) :
  In y (branches w1) -> active y = true -> In y (branches w).
Proof.
  unfold w1, save_branch. simpl. intros Hy Ha.
  apply In_upsert_inv in Hy. destruct Hy as [->|[Hy _]]; [discriminate|exact Hy].
Qed.

Lemma save_branch_other (y : Branch.t) :
  In y (branches w) -> Branch.noteId y <> Branch.noteId b -> In y (branches w1).
Proof.
  intros Hy Hn. unfold w1, save_branch. simpl.
  apply In_upsert_other; [exact Hy|]. simpl. intro Hk. apply Hn.
  apply in_map_iff in Hsk. destruct Hsk as [x0 [Hx0 Hin0]].
  destruct Hcons as [Hnd _].
  assert (y = x0).
  { apply (NoDup_key_injective Branch.branchId (branches w)); auto.
    unfold skeleton in Hx0. congruence. }
  subst y. unfold skeleton in Hx0. congruence.
Qed.

Lemma save_branch_placed_other (id : string) :
  id <> Branch.noteId b -> (placed w1 id <-> placed w id).
Proof.
  intro Hid. split; intros [y [Hy [Hn Hd]]]; exists y; repeat split; auto.
  - apply save_branch_active; [exact Hy|]. unfold active. now apply sql_eq0_true.
  - apply save_branch_other; [exact Hy|]. congruence.
Qed.

Lemma save_branch_placed (id : string) : placed w1 id -> placed w id.
Proof.
  intros [y [Hy [Hn Hd]]]. exists y. repeat split; auto.
  apply save_branch_active; [exact Hy|]. unfold active. now apply sql_eq0_true.
Qed.

Lemma save_branch_consistent : store_consistent w1.
Proof.
  apply (store_consistent_transfer w); auto using save_branch_skeleton.
Qed.

Lemma save_branch_note :
  exists note, getNote (Branch.noteId b) w1 = Some note /\
               Note.noteId note = Branch.noteId b /\ In note (notes w).
Proof.
  apply in_map_iff in Hsk. destruct Hsk as [x0 [Hx0 Hin0]].
  destruct Hcons as [_ Href]. specialize (Href x0 Hin0).
  replace (Branch.noteId x0) with (Branch.noteId b) in Href
    by (unfold skeleton in Hx0; congruence).
  destruct (find_key_In Note.noteId _ _ Href) as [note Hnote].
  exists note. split; [exact Hnote|].
  apply find_key_some in Hnote. tauto.
Qed.

(** The branch is saved and its note keeps another placement. *)
Lemma save_branch_inv_placed (note : Note.t) :
  deleted_iff_unplaced w ->
  Note.noteId note = Branch.noteId b ->
  getBranches note w1 <> [] ->
  deleted_iff_unplaced w1.
Proof.
  intros Hinv Hid Hne n Hn. change (notes w1) with (notes w) in Hn.
  apply getBranches_placed in Hne.
  specialize (Hinv n Hn). rewrite getBranches_nil in *.
  destruct (String.eqb_spec (Note.noteId n) (Branch.noteId b)) as [He|Hneq].
  - assert (Hp : placed w1 (Note.noteId n)) by (rewrite He, <- Hid; exact Hne).
    pose proof (save_branch_placed _ Hp) as Hp0. tauto.
  - rewrite (save_branch_placed_other _ Hneq). exact Hinv.
Qed.

(** The branch is saved, no placement of its note remains, and the note is
    marked. *)
Lemma save_note_inv_unplaced (note : Note.t) :
  deleted_iff_unplaced w ->
  Note.noteId note = Branch.noteId b ->
  getBranches note w1 = [] ->
  deleted_iff_unplaced (save_note (Note.set_isDeleted (JBool true) note) w1).
Proof.
  intros Hinv Hid Hnil n Hn.
  set (w2 := save_note (Note.set_isDeleted (JBool true) note) w1) in *.
  assert (Hgb : forall m, getBranches m w2 = getBranches m w1) by reflexivity.
  rewrite Hgb. unfold w2, save_note in Hn. simpl in Hn.
  apply In_upsert_inv in Hn. destruct Hn as [->|[Hn Hk]].
  - simpl. split; [intros _|reflexivity]. exact Hnil.
  - simpl in Hk. change (notes w1) with (notes w) in Hn.
    specialize (Hinv n Hn). rewrite getBranches_nil in *.
    rewrite save_branch_placed_other; [exact Hinv|congruence].
Qed.

End BranchWrite.

Ltac split_cascade_result :=
  unfold cascade_result; split; [|split; [|split; [|split]]].

Lemma cascade_result_trans (w w' w'' : World) (bound bound' : nat) :
  cascade_result w w' bound -> cascade_result w' w'' bound' ->
  cascade_result w w'' bound'.
Proof.
  intros [_ [_ [S1 [K1 _]]]] [C2 [I2 [S2 [K2 B2]]]].
  split; [exact C2|]. split; [exact I2|]. split; [congruence|]. split; [congruence|exact B2].
Qed.

(** The cascade from a branch of the store, with a depth above the number
    of non-deleted branches that remain once the branch is marked. *)
Lemma deleteNote_cascade (depth : nat) :
  forall (b : Branch.t) (w : World),
    store_consistent w -> deleted_iff_unplaced w ->
    In (skeleton b) (map skeleton (branches w)) ->
    Branch.isDeleted b <> JNum 1 ->
    (count_active (branches (save_branch (marked b) w)) < depth)%nat ->
    exists w', deleteNote depth (Some b) w = Ok tt w' /\
               cascade_result w w' (count_active (branches (save_branch (marked b) w))).
Proof.
  induction depth as [|d IH]; intros b w Hcons Hinv Hsk Hdel Hcount; [lia|].
  rewrite (deleteNote_step d b w Hdel).
  set (w1 := save_branch (marked b) w) in *.
  pose proof (save_branch_skeleton w b Hcons Hsk) as Hsk1. fold w1 in Hsk1.
  pose proof (save_branch_consistent w b Hcons Hsk) as Hcons1. fold w1 in Hcons1.
  destruct (save_branch_note w b Hcons Hsk) as [note [Hnote [Hid Hin]]]. fold w1 in Hnote.
  rewrite Hnote.
  destruct (getBranches note w1) as [|t l] eqn:Hgb; simpl Nat.eqb; cbv iota.
  2:{ exists w1. split; [reflexivity|].
      split_cascade_result; auto.
      apply (save_branch_inv_placed w b Hcons Hsk note Hinv Hid). fold w1.
      rewrite Hgb. discriminate. }
  set (w2 := save_note (Note.set_isDeleted (JBool true) note) w1).
  assert (Hinv2 : deleted_iff_unplaced w2).
  { apply (save_note_inv_unplaced w b Hcons Hsk note Hinv Hid). exact Hgb. }
  assert (Hkeys2 : map Note.noteId (notes w2) = map Note.noteId (notes w)).
  { unfold w2, save_note. simpl. apply upsert_keys_present. simpl.
    now apply in_map. }
  assert (Hsk2 : map skeleton (branches w2) = map skeleton (branches w)) by exact Hsk1.
  assert (Hcons2 : store_consistent w2).
  { now apply (store_consistent_transfer w). }
  assert (Hcount2 : (count_active (branches w2) <= d)%nat).
  { change (branches w2) with (branches w1). lia. }
  (* the loop over the child branches *)
  assert (Hloop : forall cs wc,
            store_consistent wc -> deleted_iff_unplaced wc ->
            (forall c, In c cs -> In (skeleton c) (map skeleton (branches wc)) /\
                                  Branch.isDeleted c <> JNum 1) ->
            (forall c rest, cs = c :: rest ->
               (count_active (branches (save_branch (marked c) wc)) < d)%nat) ->
            exists w', for_of cs (fun c => deleteNote d (Some c)) wc = Ok tt w' /\
                       cascade_result wc w' (count_active (branches wc))).
  { induction cs as [|c cs IHcs]; intros wc Hc Hi Hcs Hhd.
    - exists wc. split; [reflexivity|]. split_cascade_result; auto.
    - destruct (Hcs c (or_introl eq_refl)) as [Hskc Hdc].
      destruct (IH c wc Hc Hi Hskc Hdc (Hhd c cs eq_refl)) as [w' [Hrun Hres]].
      pose proof Hres as [Hc' [Hi' [Hs' [Hk' Hb']]]].
      assert (Hle : (count_active (branches (save_branch (marked c) wc))
                     <= count_active (branches wc))%nat).
      { unfold save_branch. simpl. apply count_active_upsert_le. reflexivity. }
      destruct (IHcs w' Hc' Hi') as [w'' [Hrun' Hres']].
      + intros c' Hc'in. destruct (Hcs c' (or_intror Hc'in)) as [H1 H2].
        split; [|exact H2]. now rewrite Hs'.
      + intros c' rest Heq.
        assert (Hle' : (count_active (branches (save_branch (marked c') w'))
                        <= count_active (branches w'))%nat).
        { unfold save_branch. simpl. apply count_active_upsert_le. reflexivity. }
        specialize (Hhd c cs eq_refl). lia.
      + exists w''. split.
        * simpl. unfold bind. rewrite Hrun. exact Hrun'.
        * pose proof (cascade_result_trans _ _ _ _ _ Hres Hres') as Ht.
          destruct Hres' as [_ [_ [_ [_ Hb'']]]].
          destruct Ht as [T1 [T2 [T3 [T4 _]]]]. split_cascade_result; auto. lia. }
  destruct (Hloop (getChildBranches note w2) w2 Hcons2 Hinv2) as [w' [Hrun Hres]].
  - intros c Hc. unfold getChildBranches, child_branches in Hc.
    apply filter_In in Hc. destruct Hc as [Hc Hch]. apply is_child_of_true in Hch.
    split; [now apply in_map|]. destruct Hch as [_ ->]. discriminate.
  - intros c rest Heq.
    assert (Hc : In c (getChildBranches note w2)) by (rewrite Heq; now left).
    unfold getChildBranches, child_branches in Hc.
    apply filter_In in Hc. destruct Hc as [Hc Hch]. apply is_child_of_true in Hch.
    assert (Hlt : (count_active (branches (save_branch (marked c) w2))
                   < count_active (branches w2))%nat).
    { unfold save_branch. simpl. apply (count_active_upsert_lt _ c); auto.
      unfold active. apply sql_eq0_true. tauto. }
    lia.
  - exists w'. split; [exact Hrun|].
    destruct Hres as [R1 [R2 [R3 [R4 R5]]]].
    split_cascade_result; auto; congruence.
Qed.

(** When the note of the branch keeps another placement, the call writes
    the branch and nothing else: no note is touched. *)
Lemma deleteNote_keeps_placed_note (depth : nat) (b : Branch.t) (w : World) (note : Note.t) :
  Branch.isDeleted b <> JNum 1 ->
  getNote (Branch.noteId b) (save_branch (marked b) w) = Some note ->
  getBranches note (save_branch (marked b) w) <> [] ->
  deleteNote (S depth) (Some b) w = Ok tt (save_branch (marked b) w) /\
  notes (save_branch (marked b) w) = notes w.
Proof.
  intros Hd Hnote Hne. rewrite (deleteNote_step depth b w Hd), Hnote.
  destruct (getBranches note (save_branch (marked b) w)); [contradiction|].
  split; reflexivity.
Qed.

(** C5. The property that a note is marked deleted if and only if it has no
    non-deleted branch holds after every [deleteNote] call made on a store
    where it holds: for no branch, for a branch already marked, and for a
    placement of the store that the call marks, with the cascade that
    follows; the call returns with any depth above the number of
    non-deleted branches.  In particular no note that keeps a non-deleted
    branch is marked deleted. *)
Theorem deleteNote_deleted_iff_unplaced (depth : nat) (branch : option Branch.t) (w : World) :
  store_consistent w ->
  deleted_iff_unplaced w ->
  (forall b, branch = Some b ->
             Branch.isDeleted b = JNum 1 \/ In (skeleton b) (map skeleton (branches w))) ->
  (count_active (branches w) < depth)%nat ->
  exists w',
    deleteNote depth branch w = Ok tt w' /\
    deleted_iff_unplaced w' /\
    (forall n, In n (notes w') -> getBranches n w' <> [] -> Note.isDeleted n <> JNum 1).
Proof.
  intros Hcons Hinv Hb Hdepth.
  assert (H : exists w', deleteNote depth branch w = Ok tt w' /\ deleted_iff_unplaced w').
  { destruct branch as [b|].
    - destruct (js_strict_eq (Branch.isDeleted b) (JNum 1)) eqn:Hd.
      + exists w. split; [|exact Hinv]. apply js_strict_eq_true in Hd.
        destruct depth; simpl; rewrite Hd; reflexivity.
      + apply js_strict_eq_false in Hd.
        destruct (deleteNote_cascade depth b w Hcons Hinv) as [w' [Hrun Hres]]; auto.
        * destruct (Hb b eq_refl) as [H|H]; [contradiction|exact H].
        * assert (Hle : (count_active (branches (save_branch (marked b) w))
                         <= count_active (branches w))%nat).
          { unfold save_branch. simpl. apply count_active_upsert_le. reflexivity. }
          lia.
        * exists w'. split; [exact Hrun|]. apply Hres.
    - exists w. split; [|exact Hinv]. destruct depth; reflexivity. }
  destruct H as [w' [Hrun Hinv']]. exists w'.
  split; [exact Hrun|]. split; [exact Hinv'|].
  intros n Hn Hne Hdel. apply (Hinv' n Hn) in Hdel. contradiction.
Qed.

Lemma cascade_world_consistent : store_consistent cascade_world.
Proof.
  split.
  - simpl. repeat constructor; simpl; intuition discriminate.
  - intros b Hb. simpl in Hb.
    repeat (destruct Hb as [<-|Hb]; [simpl; tauto|]). destruct Hb.
Defined.

Lemma cascade_world_invariant : deleted_iff_unplaced cascade_world.
Proof.
  intros n Hn. simpl in Hn.
  repeat (destruct Hn as [<-|Hn]; [split; discriminate|]). destruct Hn.
Defined.

(** Removing the only placement of a: a and its child d, which has no other
    placement, are marked; b, which is also placed under c, is not. *)
Lemma deleteNote_deleted_iff_unplaced_sample :
  exists w',
    deleteNote 6 (Some cascade_branch) cascade_world = Ok tt w' /\
    deleted_iff_unplaced w' /\
    (forall n, In n (notes w') -> getBranches n w' <> [] -> Note.isDeleted n <> JNum 1).
Proof.
  apply (deleteNote_deleted_iff_unplaced 6 (Some cascade_branch) cascade_world
           cascade_world_consistent cascade_world_invariant).
  - intros b Hb. injection Hb as <-. right. simpl. tauto.
  - unfold count_active. simpl. lia.
Defined.

Example deleteNote_cascade_flags :
  deletion_flags (result_world (deleteNote 6 (Some cascade_branch) cascade_world)
                               cascade_world)
  = [("a", JNum 1); ("b", JNum 0); ("c", JNum 0); ("d", JNum 1)].
Proof. vm_compute. reflexivity. Qed.

(** C9. A branch that is already marked deleted is not always left alone.
    The guard of [deleteNote] compares the flag with the number 1, and the
    function marks the object it is given with [true].  A deleted row read
    from the store carries 1; the object that a first call has just marked,
    handed over a second time, passes the guard: its branch and its note
    are written again, to the same rows, and the second call is not the
    no-op that a deleted branch is to get. *)
Theorem deleteNote_marked_object_again :
  let w1 := result_world (deleteNote 6 (Some cascade_branch) cascade_world) cascade_world in
  let w2 := result_world (deleteNote 6 (Some (marked cascade_branch)) w1) w1 in
  deleteNote 6 (Some cascade_branch) cascade_world = Ok tt w1 /\
  Branch.isDeleted (marked cascade_branch) = JBool true /\
  deleteNote 6 (Some (marked cascade_branch)) w1 = Ok tt w2 /\
  notes w2 = notes w1 /\ branches w2 = branches w1 /\
  writes w2
  = (writes w1 ++ [ WBranch (marked cascade_branch);
                    WNote (Note.mk "a" (JStr "A") (JStr EmptyString) "text" "text/html"
                                   (JNum 0) (JBool true) 100000 100000) ])%list.
Proof. vm_compute. split; [|split; [|split; [|split; [|split]]]]; reflexivity. Qed.

(** ** Protection propagator *)

Lemma find_key_upsert_other {R} (key : R -> string) (k : string) (r : R) (l : list R) :
  k <> key r -> find_key key k (upsert key r l) = find_key key k l.
Proof.
  intro Hk. assert (Hr : String.eqb (key r) k = false).
  { apply String.eqb_neq. congruence. }
  unfold upsert, find_key. destruct (has_key key (key r) l).
  - unfold replace_key. induction l as [|x l IH]; simpl; [reflexivity|].
    destruct (String.eqb_spec (key x) (key r)) as [He|Hne].
    + rewrite Hr. rewrite He, Hr. exact IH.
    + destruct (String.eqb (key x) k); [reflexivity|exact IH].
  - induction l as [|x l IH]; simpl.
    + now rewrite Hr.
    + destruct (String.eqb (key x) k); [reflexivity|exact IH].
Qed.

Lemma find_key_key_In {R} (key : R -> string) (k : string) (l : list R) (r : R) :
  find_key key k l = Some r -> In k (map key l).
Proof.
  intro H. apply find_key_some in H. destruct H as [Hin <-]. now apply in_map.
Qed.

Lemma advance_refl (w : World) : advance w w.
Proof. repeat split; auto. Qed.

Lemma advance_trans (w w' w'' : World) : advance w w' -> advance w' w'' -> advance w w''.
Proof.
  intros [B1 [K1 [N1 R1]]] [B2 [K2 [N2 R2]]].
  split; [congruence|]. split; [congruence|]. split.
  - intros id n Hn. destruct (N2 id n Hn) as [H|H]; [|now right]. now apply N1.
  - intros r Hr. destruct (R2 r Hr) as [H|H]; [|now right]. now apply R1.
Qed.

Lemma advance_protected (w w' : World) (id : string) :
  advance w w' -> protected_in w id -> protected_in w' id.
Proof.
  intros [_ [_ [N R]]] [Pn Pr]. split.
  - intros n Hn. destruct (N id n Hn) as [H|H]; [now apply Pn|exact H].
  - intros r Hr Hid. destruct (R r Hr) as [H|H]; [now apply Pr|exact H].
Qed.

Lemma advance_loaded (w w' : World) (note : Note.t) :
  advance w w' -> loaded note w -> loaded note w'.
Proof.
  intros [_ [K [N _]]] [n [Hn Hp]].
  assert (Hin : In (Note.noteId note) (map Note.noteId (notes w'))).
  { rewrite K. exact (find_key_key_In _ _ _ _ Hn). }
  destruct (find_key_In Note.noteId _ _ Hin) as [n' Hn'].
  exists n'. split; [exact Hn'|]. intro Ht.
  destruct (N _ _ Hn') as [H|H]; [|exact H].
  unfold getNote in H, Hn. rewrite Hn in H. injection H as <-. now apply Hp.
Qed.

Lemma advance_child_note (w w' : World) (p c : string) :
  advance w w' -> child_note w p c -> child_note w' p c.
Proof.
  intros [B [K _]] [b [Hb [Hp [Hd [Hc Hk]]]]].
  exists b. rewrite B, K. auto.
Qed.

Lemma advance_reachable (w w' : World) (a d : string) :
  advance w w' -> reachable w a d -> reachable w' a d.
Proof.
  intros Hadv Hr. induction Hr as [id|p c d Hc _ IH].
  - apply reach_self.
  - apply (reach_child w' p c d); [|exact IH]. now apply (advance_child_note w).
Qed.

Lemma advance_acyclic (rank : string -> nat) (w w' : World) :
  advance w w' -> acyclic rank w -> acyclic rank w'.
Proof. intros [B _] H b Hb. rewrite B in Hb. now apply H. Qed.

Section ProtectRevisions.
Variable note : Note.t.
Hypothesis Hflag : Note.isProtected note = JBool true.

Lemma protect_revision_step_rows (w : World) (u y : NoteRevision.t) :
  In y (note_revisions (protect_revision_step note w u)) ->
  flag_set (NoteRevision.isProtected y) \/
  (In y (note_revisions w) /\
   (NoteRevision.noteRevisionId y = NoteRevision.noteRevisionId u ->
    NoteRevision.isProtected u = JBool true)).
Proof.
  unfold protect_revision_step. rewrite Hflag.
  destruct (js_strict_eq (JBool true) (NoteRevision.isProtected u)) eqn:E; simpl.
  - apply js_strict_eq_true in E. intro Hy. right. split; [exact Hy|]. now intros _.
  - intro Hy. apply In_upsert_inv in Hy. destruct Hy as [->|[Hy Hk]].
    + left. reflexivity.
    + right. split; [exact Hy|]. intro He. simpl in Hk. contradiction.
Qed.

Lemma protect_fold_rows (l : list NoteRevision.t) (w : World) (y : NoteRevision.t) :
  In y (note_revisions (fold_left (protect_revision_step note) l w)) ->
  flag_set (NoteRevision.isProtected y) \/ In y (note_revisions w).
Proof.
  revert w. induction l as [|u l IH]; intros w Hy; simpl in Hy; [now right|].
  destruct (IH _ Hy) as [H|H]; [now left|].
  destruct (protect_revision_step_rows w u y H) as [H'|[H' _]]; auto.
Qed.

(** A row is flagged at the end when a revision of the loop with its
    identifier still has to be written. *)
Lemma protect_fold_pending (l : list NoteRevision.t) (w : World) (y : NoteRevision.t) :
  (In y (note_revisions w) ->
   flag_set (NoteRevision.isProtected y) \/
   exists u, In u l /\
             NoteRevision.noteRevisionId u = NoteRevision.noteRevisionId y /\
             NoteRevision.isProtected u <> JBool true) ->
  In y (note_revisions (fold_left (protect_revision_step note) l w)) ->
  flag_set (NoteRevision.isProtected y).
Proof.
  revert w. induction l as [|u l IH]; intros w Hw Hy; simpl in Hy.
  - destruct (Hw Hy) as [H|[u [[] _]]]. exact H.
  - apply (IH (protect_revision_step note w u)); [|exact Hy].
    intros Hz.
    destruct (protect_revision_step_rows w u y Hz) as [H|[Hin Hu]]; [now left|].
    destruct (Hw Hin) as [H|[u' [[<-|Hu'] [Hk' Hp']]]].
    + now left.
    + exfalso. apply Hp'. apply Hu. congruence.
    + right. now exists u'.
Qed.

Lemma protect_fold_frame (l : list NoteRevision.t) (w : World) :
  notes (fold_left (protect_revision_step note) l w) = notes w /\
  branches (fold_left (protect_revision_step note) l w) = branches w.
Proof.
  split; apply fold_left_frame; intros w0 x; unfold protect_revision_step;
    destruct (negb _); reflexivity.
Qed.

Lemma protectNoteRevisions_flagged (w : World) :
  exists w', protectNoteRevisions note w = Ok tt w' /\
             notes w' = notes w /\ branches w' = branches w /\
             (forall y, In y (note_revisions w') ->
                        flag_set (NoteRevision.isProtected y) \/ In y (note_revisions w)) /\
             (forall y, In y (note_revisions w') ->
                        NoteRevision.noteId y = Note.noteId note ->
                        flag_set (NoteRevision.isProtected y)).
Proof.
  rewrite protectNoteRevisions_eq. eexists. split; [reflexivity|].
  destruct (protect_fold_frame (getRevisions note w) w) as [F1 F2].
  split; [exact F1|]. split; [exact F2|]. split.
  - intros y. apply protect_fold_rows.
  - intros y Hy Hid.
    apply (protect_fold_pending (getRevisions note w) w); [|exact Hy].
    intros Hin.
    destruct (js_strict_eq (JBool true) (NoteRevision.isProtected y)) eqn:E.
    + left. apply js_strict_eq_true in E. rewrite <- E. reflexivity.
    + apply js_strict_eq_false in E.
      right. exists y. split; [|split; [reflexivity|congruence]].
      unfold getRevisions. apply filter_In. split; [exact Hin|].
      now apply String.eqb_eq.
Qed.

End ProtectRevisions.

Lemma protectNote_run (note : Note.t) (w : World) :
  loaded note w ->
  exists note' w1,
    protectNote note (JBool true) w = Ok note' w1 /\
    Note.noteId note' = Note.noteId note /\
    advance w w1 /\
    protected_in w1 (Note.noteId note).
Proof.
  intros [n0 [Hn0 Hp0]]. unfold protectNote, bind.
  destruct (js_strict_eq (JBool true) (Note.isProtected note)) eqn:E; simpl.
  - apply js_strict_eq_true in E. symmetry in E.
    destruct (protectNoteRevisions_flagged note E w) as [w1 [Hrun [Hn [Hb [Hr1 Hr2]]]]].
    unfold ret at 1. rewrite Hrun. exists note, w1.
    split; [reflexivity|]. split; [reflexivity|]. split.
    + split; [exact Hb|]. split; [now rewrite Hn|]. split.
      * intros id n' Hn'. left. unfold getNote in *. now rewrite <- Hn.
      * intros r Hr. destruct (Hr1 r Hr); auto.
    + split; [|exact Hr2]. intros n Hget. unfold getNote in *.
      rewrite Hn, Hn0 in Hget. injection Hget as <-. now apply Hp0.
  - set (note' := Note.set_isProtected (JBool true) note).
    unfold modify, ret.
    destruct (protectNoteRevisions_flagged note' eq_refl (save_note note' w))
      as [w1 [Hrun [Hn [Hb [Hr1 Hr2]]]]].
    rewrite Hrun. exists note', w1.
    split; [reflexivity|]. split; [reflexivity|]. split.
    + split; [exact Hb|]. split; [|split].
      * rewrite Hn. unfold save_note. simpl. apply upsert_keys_present. simpl.
        exact (find_key_key_In _ _ _ _ Hn0).
      * intros id n' Hn'. unfold getNote in Hn'. rewrite Hn in Hn'.
        destruct (String.eqb_spec id (Note.noteId note)) as [->|Hne].
        -- right. pose proof (getNote_save_note note' w) as Hs.
           unfold getNote in Hs. simpl Note.noteId in Hs. rewrite Hs in Hn'.
           injection Hn' as <-. reflexivity.
        -- left. unfold save_note in Hn'. simpl in Hn'.
           rewrite find_key_upsert_other in Hn'; [exact Hn'|exact Hne].
      * intros r Hr. destruct (Hr1 r Hr); auto.
    + split; [|exact Hr2]. intros n Hget. unfold getNote in Hget. rewrite Hn in Hget.
      pose proof (getNote_save_note note' w) as Hs.
      unfold getNote in Hs. simpl Note.noteId in Hs. rewrite Hs in Hget.
      injection Hget as <-. reflexivity.
Qed.

Lemma getChildNotes_In (note : Note.t) (w : World) (c : Note.t) :
  In c (getChildNotes note w) ->
  getNote (Note.noteId c) w = Some c /\
  exists b, In b (branches w) /\ Branch.parentNoteId b = Note.noteId note /\
            Branch.isDeleted b = JNum 0 /\ Branch.noteId b = Note.noteId c.
Proof.
  unfold getChildNotes, getChildBranches, child_branches. intro H.
  apply in_flat_map in H. destruct H as [b [Hb Hc]].
  apply filter_In in Hb. destruct Hb as [Hb Hch]. apply is_child_of_true in Hch.
  destruct (getNote (Branch.noteId b) w) as [n|] eqn:E; [|destruct Hc].
  destruct Hc as [<-|[]].
  pose proof (find_key_some _ _ _ _ E) as [_ Hid].
  split; [now rewrite Hid|]. exists b. destruct Hch as [H1 H2]. auto.
Qed.

Lemma child_note_getChildNotes (note : Note.t) (w : World) (c : string) :
  child_note w (Note.noteId note) c ->
  exists cn, In cn (getChildNotes note w) /\ Note.noteId cn = c.
Proof.
  intros [b [Hb [Hp [Hd [Hc Hk]]]]].
  destruct (find_key_In Note.noteId _ _ Hk) as [cn Hcn].
  exists cn. split; [|exact (proj2 (find_key_some _ _ _ _ Hcn))].
  unfold getChildNotes. apply in_flat_map. exists b. split.
  - unfold getChildBranches, child_branches. apply filter_In. split; [exact Hb|].
    apply is_child_of_true. tauto.
  - unfold getNote. rewrite Hc, Hcn. now left.
Qed.

Lemma reachable_key (w : World) (a d : string) :
  reachable w a d -> d = a \/ In d (map Note.noteId (notes w)).
Proof.
  intro H. induction H as [id|p c d Hc Hr IH]; [now left|].
  right. destruct IH as [->|IH]; [|exact IH].
  destruct Hc as [b [_ [_ [_ [_ Hk]]]]]. exact Hk.
Qed.

(** The recursion from a note read from the store, on a graph that descends
    along [rank], with a depth above the rank of the note. *)
Lemma protectNoteRecursively_run (rank : string -> nat) (depth : nat) :
  forall (note : Note.t) (w : World),
    acyclic rank w -> loaded note w ->
    (rank (Note.noteId note) < depth)%nat ->
    exists w',
      protectNoteRecursively depth note (JBool true) w = Ok tt w' /\
      advance w w' /\
      (forall id, reachable w (Note.noteId note) id -> protected_in w' id).
Proof.
  induction depth as [|d IH]; intros note w Hacy Hload Hrank; [lia|].
  cbn [protectNoteRecursively]. unfold bind at 1.
  destruct (protectNote_run note w Hload) as [note' [w1 [Hrun [Hid [Hadv1 Hprot1]]]]].
  rewrite Hrun. unfold bind, get.
  assert (Hloop : forall cs wc,
            advance w1 wc ->
            (forall c, In c cs -> loaded c wc /\ (rank (Note.noteId c) < d)%nat) ->
            exists w', for_of cs (fun child => protectNoteRecursively d child (JBool true)) wc
                       = Ok tt w' /\
                       advance wc w' /\
                       (forall c id, In c cs -> reachable wc (Note.noteId c) id ->
                                     protected_in w' id)).
  { induction cs as [|c cs IHcs]; intros wc Hadv Hcs.
    - exists wc. split; [reflexivity|]. split; [apply advance_refl|].
      intros c id [].
    - destruct (Hcs c (or_introl eq_refl)) as [Hlc Hrc].
      assert (Hacyc : acyclic rank wc).
      { apply (advance_acyclic rank w1); [exact Hadv|].
        now apply (advance_acyclic rank w). }
      destruct (IH c wc Hacyc Hlc Hrc) as [w' [Hrunc [Hadvc Hprotc]]].
      destruct (IHcs w') as [w'' [Hrun' [Hadv' Hprot']]].
      + now apply (advance_trans w1 wc).
      + intros c' Hc'. destruct (Hcs c' (or_intror Hc')) as [H1 H2].
        split; [|exact H2]. now apply (advance_loaded wc).
      + exists w''. split; [|split].
        * simpl. unfold bind. rewrite Hrunc. exact Hrun'.
        * now apply (advance_trans wc w').
        * intros c' id [<-|Hc'] Hreach.
          -- apply (advance_protected w'); [exact Hadv'|]. now apply Hprotc.
          -- apply (Hprot' c' id Hc'). now apply (advance_reachable wc). }
  destruct (Hloop (getChildNotes note' w1) w1 (advance_refl w1)) as [w' [Hrun' [Hadv' Hprot']]].
  - intros c Hc. apply getChildNotes_In in Hc. destruct Hc as [Hget [b [Hb [Hp [Hd Hn]]]]].
    split.
    + exists c. split; [exact Hget|]. intros ->. reflexivity.
    + assert (Hacy1 : acyclic rank w1) by now apply (advance_acyclic rank w).
      specialize (Hacy1 b Hb Hd). rewrite Hp, Hn, Hid in Hacy1. lia.
  - exists w'. split; [exact Hrun'|]. split; [now apply (advance_trans w w1)|].
    intros id Hreach. inversion Hreach as [id0|p c d' Hc Hr]; subst.
    + now apply (advance_protected w1).
    + apply (advance_child_note w w1) in Hc; [|exact Hadv1].
      rewrite <- Hid in Hc.
      destruct (child_note_getChildNotes note' w1 c Hc) as [cn [Hcn Hcid]].
      apply (Hprot' cn id Hcn). rewrite Hcid. now apply (advance_reachable w).
Qed.

(** C6. On a placement graph without cycle, [protectNoteRecursively] called
    with [true] on a note of the store returns, with any depth above the
    rank of the note, and then every note that is reachable from it through
    non-deleted branches, and every revision of such a note, has its
    protection flag set. *)
Theorem protectNoteRecursively_protects
    (rank : string -> nat) (depth : nat) (note : Note.t) (w : World) :
  acyclic rank w ->
  getNote (Note.noteId note) w = Some note ->
  (rank (Note.noteId note) < depth)%nat ->
  exists w',
    protectNoteRecursively depth note (JBool true) w = Ok tt w' /\
    (forall id, reachable w (Note.noteId note) id ->
       (exists n, getNote id w' = Some n /\ flag_set (Note.isProtected n)) /\
       (forall r, In r (note_revisions w') -> NoteRevision.noteId r = id ->
                  flag_set (NoteRevision.isProtected r))).
Proof.
  intros Hacy Hget Hrank.
  assert (Hload : loaded note w).
  { exists note. split; [exact Hget|]. intros ->. reflexivity. }
  destruct (protectNoteRecursively_run rank depth note w Hacy Hload Hrank)
    as [w' [Hrun [Hadv Hprot]]].
  exists w'. split; [exact Hrun|]. intros id Hreach.
  destruct (Hprot id Hreach) as [Pn Pr]. split; [|exact Pr].
  assert (Hk : In id (map Note.noteId (notes w'))).
  { destruct Hadv as [_ [K _]]. rewrite K.
    destruct (reachable_key w _ _ Hreach) as [->|H]; [|exact H].
    exact (find_key_key_In _ _ _ _ Hget). }
  destruct (find_key_In Note.noteId _ _ Hk) as [n Hn].
  exists n. split; [exact Hn|]. now apply Pn.
Qed.

Lemma family_world_acyclic : acyclic family_rank family_world.
Proof.
  intros b Hb Hd. simpl in Hb.
  destruct Hb as [<-|[<-|[<-|[]]]]; try discriminate; unfold family_rank; simpl; lia.
Defined.

Lemma protectNoteRecursively_protects_sample :
  exists w',
    protectNoteRecursively 3 family_root (JBool true) family_world = Ok tt w' /\
    (forall id, reachable family_world "r" id ->
       (exists n, getNote id w' = Some n /\ flag_set (Note.isProtected n)) /\
       (forall r, In r (note_revisions w') -> NoteRevision.noteId r = id ->
                  flag_set (NoteRevision.isProtected r))).
Proof.
  apply (protectNoteRecursively_protects family_rank 3 family_root family_world
           family_world_acyclic eq_refl).
  unfold family_rank. simpl. lia.
Defined.

(** On the sample family the notes r, a and b and their revisions end with
    the flag 1; the note z, which is not below r, keeps 0. *)
Example protectNoteRecursively_family_flags :
  protection_flags
    (result_world (protectNoteRecursively 3 family_root (JBool true) family_world)
                  family_world)
  = ([("r", JNum 1); ("a", JNum 1); ("b", JNum 1); ("z", JNum 0)],
     [("v1", JNum 1); ("v2", JNum 1); ("v3", JNum 1); ("v4", JNum 0)]).
Proof. vm_compute. reflexivity. Qed.

(** * Further properties *)

(** ** Position allocator: failure and room *)

(** The three ways the allocator runs, by the target. *)
Lemma getNewNotePosition_cases (parentNoteId : string) (noteOpts : NoteOpts) (w : World) :
  (target noteOpts = JStr "into" /\
   getNewNotePosition parentNoteId noteOpts w
   = Ok (match select_max_notePosition parentNoteId w with
         | None => 0
         | Some m => js_add (to_number m) 1
         end) w) \/
  (target noteOpts = JStr "after" /\
   getNewNotePosition parentNoteId noteOpts w
   = match select_notePosition (target_branchId noteOpts) w with
     | None => Throw "TypeError: Cannot read property 'notePosition' of null" w
     | Some p =>
         Ok (js_add (to_number p) 1)
            (with_reorderings
               (reorderings (update_shift_positions parentNoteId (to_number p) w)
                ++ [parentNoteId])
               (update_shift_positions parentNoteId (to_number p) w))
     end) \/
  (target noteOpts <> JStr "into" /\ target noteOpts <> JStr "after" /\
   getNewNotePosition parentNoteId noteOpts w
   = Throw ("Unknown target: " ++ js_to_string (target noteOpts)) w).
Proof.
  destruct noteOpts as [t tb]. simpl.
  destruct (js_strict_eq t (JStr "into")) eqn:E1.
  - left. apply js_strict_eq_true in E1. subst t. split; [reflexivity|].
    apply getNewNotePosition_into_eq.
  - destruct (js_strict_eq t (JStr "after")) eqn:E2.
    + right. left. apply js_strict_eq_true in E2. subst t. split; [reflexivity|].
      apply getNewNotePosition_after_eq.
    + right. right. apply js_strict_eq_false in E1. apply js_strict_eq_false in E2.
      split; [exact E1|]. split; [exact E2|].
      unfold getNewNotePosition. simpl.
      apply js_strict_eq_false in E1. apply js_strict_eq_false in E2.
      rewrite E1, E2. reflexivity.
Qed.

(** X1. The allocator fails in two cases only, a target that is neither
    "into" nor "after" and an "after" reference that is not a branch of the
    store, and when it fails it has written nothing. *)
Theorem getNewNotePosition_failure (parentNoteId : string) (noteOpts : NoteOpts) (w : World) :
  match getNewNotePosition parentNoteId noteOpts w with
  | Ok _ _ =>
      target noteOpts = JStr "into" \/
      (target noteOpts = JStr "after" /\
       exists reference,
         find_key Branch.branchId (target_branchId noteOpts) (branches w) = Some reference)
  | Throw _ w' =>
      w' = w /\
      ((target noteOpts <> JStr "into" /\ target noteOpts <> JStr "after") \/
       (target noteOpts = JStr "after" /\
        find_key Branch.branchId (target_branchId noteOpts) (branches w) = None))
  | OutOfFuel => False
  end.
Proof.
  destruct (getNewNotePosition_cases parentNoteId noteOpts w)
    as [[Ht ->]|[[Ht ->]|[Hi [Ha ->]]]].
  - now left.
  - unfold select_notePosition.
    destruct (find_key Branch.branchId (target_branchId noteOpts) (branches w)) as [r|];
      simpl.
    + right. split; [exact Ht|]. now exists r.
    + split; [reflexivity|]. right. now split.
  - split; [reflexivity|]. left. now split.
Qed.

Lemma filter_map_commute {A} (f : A -> bool) (g : A -> A) (l : list A) :
  (forall x, f (g x) = f x) -> filter f (map g l) = map g (filter f l).
Proof.
  intro H. induction l as [|x l IH]; simpl; [reflexivity|].
  rewrite H. destruct (f x); simpl; now rewrite IH.
Qed.

Lemma shift_row_is_child_of (q parentNoteId : string) (p : Z) (b : Branch.t) :
  is_child_of q (shift_row parentNoteId p b) = is_child_of q b.
Proof.
  unfold shift_row. destruct (is_child_of parentNoteId b && (p <? Branch.notePosition b));
    reflexivity.
Qed.

Lemma child_positions_shift (q parentNoteId : string) (p : Z) (w : World) :
  child_positions q (update_shift_positions parentNoteId p w)
  = if String.eqb q parentNoteId
    then map (make_room p) (child_positions q w)
    else child_positions q w.
Proof.
  unfold child_positions, child_branches, update_shift_positions. simpl.
  rewrite filter_map_commute by (intro x; apply shift_row_is_child_of).
  rewrite !map_map.
  destruct (String.eqb_spec q parentNoteId) as [->|Hne].
  - apply map_ext_in. intros b Hb. apply filter_In in Hb. destruct Hb as [_ Hc].
    unfold shift_row, make_room. rewrite Hc. simpl.
    destruct (p <? Branch.notePosition b); reflexivity.
  - apply map_ext_in. intros b Hb. apply filter_In in Hb. destruct Hb as [_ Hc].
    apply is_child_of_true in Hc. destruct Hc as [Hq _].
    unfold shift_row.
    assert (Hn : is_child_of parentNoteId b = false).
    { unfold is_child_of. apply andb_false_iff. left. apply String.eqb_neq. congruence. }
    rewrite Hn. reflexivity.
Qed.

Lemma make_room_injective (p x y : Z) : make_room p x = make_room p y -> x = y.
Proof.
  unfold make_room. destruct (Z.ltb_spec p x), (Z.ltb_spec p y); lia.
Qed.

Lemma make_room_free (p x : Z) : make_room p x <> p + 1.
Proof. unfold make_room. destruct (Z.ltb_spec p x); lia. Qed.

Lemma NoDup_map_injective {A B} (f : A -> B) (l : list A) :
  (forall x y, f x = f y -> x = y) -> NoDup l -> NoDup (map f l).
Proof.
  intros Hinj Hnd. induction Hnd as [|x l Hx Hnd IH]; simpl; constructor; auto.
  intro Hin. apply in_map_iff in Hin. destruct Hin as [y [Hy Hin]].
  apply Hinj in Hy. subst y. contradiction.
Qed.

Lemma select_notePosition_In (branchId : string) (w : World) (p : Z) :
  select_notePosition branchId w = Some p ->
  exists b, In b (branches w) /\ Branch.notePosition b = p.
Proof.
  unfold select_notePosition. intro H.
  destruct (find_key Branch.branchId branchId (branches w)) as [b|] eqn:E; [|discriminate].
  injection H as <-. apply find_key_some in E. exists b. tauto.
Qed.

(** What the allocator leaves when it returns: positions stay distinct, no
    note, placement or other table is touched, and, the positions of the
    store being safe integers, the position is free under the parent. *)
Lemma getNewNotePosition_result
    (parentNoteId : string) (noteOpts : NoteOpts) (w w1 : World) (pos : Z) :
  getNewNotePosition parentNoteId noteOpts w = Ok pos w1 ->
  (positions_safe w -> ~ In pos (child_positions parentNoteId w1)) /\
  (positions_unique w -> positions_unique w1) /\
  notes w1 = notes w /\
  map skeleton (branches w1) = map skeleton (branches w) /\
  labels w1 = labels w /\
  (target noteOpts <> JStr "after" -> w1 = w).
Proof.
  intro Hrun.
  destruct (getNewNotePosition_cases parentNoteId noteOpts w)
    as [[Ht Heq]|[[Ht Heq]|[Hi [Ha Heq]]]]; rewrite Heq in Hrun.
  - injection Hrun as <- <-. repeat split; auto.
    unfold child_positions, select_max_notePosition. intros Hsafe Hin.
    destruct (sql_max (map Branch.notePosition (child_branches parentNoteId w)))
      as [m|] eqn:E.
    + destruct (sql_max_some _ _ E) as [Hm Hle].
      assert (Hms : safe_integer m).
      { apply in_map_iff in Hm. destruct Hm as [bm [<- Hbm]].
        apply filter_In in Hbm. apply Hsafe. tauto. }
      rewrite (js_add_one_safe m Hms) in Hin. specialize (Hle _ Hin). lia.
    + apply sql_max_none in E. rewrite E in Hin. destruct Hin.
  - destruct (select_notePosition (target_branchId noteOpts) w) as [p0|] eqn:Ep;
      [|discriminate].
    injection Hrun as <- <-.
    set (p := to_number p0).
    assert (Hcp : forall q,
              child_positions q
                (with_reorderings
                   (reorderings (update_shift_positions parentNoteId p w) ++ [parentNoteId])
                   (update_shift_positions parentNoteId p w))
              = child_positions q (update_shift_positions parentNoteId p w)) by reflexivity.
    split; [|split; [|split; [|split; [|split]]]].
    + intro Hsafe.
      destruct (select_notePosition_In _ _ _ Ep) as [b [Hb Hbp]].
      assert (Hp0 : safe_integer p0) by (rewrite <- Hbp; now apply Hsafe).
      unfold p. rewrite (js_add_one_safe p0 Hp0), (to_number_safe p0 Hp0).
      change (~ In (p0 + 1)
                (child_positions parentNoteId (update_shift_positions parentNoteId p0 w))).
      rewrite child_positions_shift, String.eqb_refl.
      intro Hin. apply in_map_iff in Hin. destruct Hin as [x [Hx _]].
      exact (make_room_free p0 x Hx).
    + intros Hu q. rewrite Hcp, child_positions_shift.
      destruct (String.eqb q parentNoteId); [|apply Hu].
      apply NoDup_map_injective; [apply make_room_injective|apply Hu].
    + reflexivity.
    + simpl. rewrite map_map. apply map_ext. intro b. unfold shift_row.
      destruct (is_child_of parentNoteId b && (p <? Branch.notePosition b)); reflexivity.
    + reflexivity.
    + intro Hn. contradiction.
  - discriminate.
Qed.

(** X2. With the "after" intent and a reference at a position [p] that is
    a safe integer (of magnitude below 2^53), the positions of the
    non-deleted children of the parent are the former ones with those above
    [p] moved up by one, in the same order; the position [p + 1] that is
    returned is free among them; the children of every other parent keep
    their positions; and distinct positions stay distinct. *)
Theorem getNewNotePosition_after_makes_room
    (parentNoteId branchId : string) (w : World) (reference : Branch.t) :
  find_key Branch.branchId branchId (branches w) = Some reference ->
  safe_integer (Branch.notePosition reference) ->
  exists w',
    getNewNotePosition parentNoteId (mkNoteOpts (JStr "after") branchId) w
      = Ok (Branch.notePosition reference + 1) w' /\
    child_positions parentNoteId w'
      = map (make_room (Branch.notePosition reference)) (child_positions parentNoteId w) /\
    ~ In (Branch.notePosition reference + 1) (child_positions parentNoteId w') /\
    (forall q, q <> parentNoteId -> child_positions q w' = child_positions q w) /\
    (positions_unique w -> positions_unique w').
Proof.
  intros Href Hsafe. rewrite getNewNotePosition_after_eq. unfold select_notePosition.
  rewrite Href. simpl option_map. cbv iota.
  rewrite (js_add_one_safe _ Hsafe), (to_number_safe _ Hsafe).
  eexists. split; [reflexivity|].
  set (p := Branch.notePosition reference).
  set (w' := with_reorderings _ _).
  assert (Hcp : forall q, child_positions q w'
                          = child_positions q (update_shift_positions parentNoteId p w))
    by reflexivity.
  split; [|split; [|split]].
  - now rewrite Hcp, child_positions_shift, String.eqb_refl.
  - rewrite Hcp, child_positions_shift, String.eqb_refl.
    intro Hin. apply in_map_iff in Hin. destruct Hin as [x [Hx _]].
    exact (make_room_free p x Hx).
  - intros q Hq. rewrite Hcp, child_positions_shift.
    apply String.eqb_neq in Hq. now rewrite Hq.
  - intros Hu q. rewrite Hcp, child_positions_shift.
    destruct (String.eqb q parentNoteId); [|apply Hu].
    apply NoDup_map_injective; [apply make_room_injective|apply Hu].
Qed.

(** Scenario 2: children at 0, 1, 2 and a reference at 1 give 0, 1, 3, with
    room at 2. *)
Lemma getNewNotePosition_after_makes_room_sample :
  exists w',
    getNewNotePosition "root" (mkNoteOpts (JStr "after") "b2") sample_world = Ok (1 + 1) w' /\
    child_positions "root" w' = [0; 1; 3].
Proof.
  assert (Hsafe : safe_integer 1) by (unfold safe_integer; lia).
  destruct (getNewNotePosition_after_makes_room "root" "b2" sample_world
              (Branch.mk "b2" "n2" "root" 1 (JNum 0) (JNum 0)) eq_refl Hsafe)
    as [w' [Hrun [Hpos _]]].
  exists w'. split; [exact Hrun|]. rewrite Hpos. reflexivity.
Defined.

(** ** Note creation *)

Lemma createNewNote_run (env : NoteEnv) (parentNoteId : string)
    (noteOpts : NoteOptions.t) (w : World) :
  createNewNote env parentNoteId noteOpts w
  = match getNewNotePosition parentNoteId (NoteOptions.placement noteOpts) w with
    | Ok pos w1 =>
        match resolve_options parentNoteId noteOpts w1 with
        | inl msg => Throw msg w1
        | inr resolved =>
            Ok (NewNote.mk (newNoteId env) (new_note env resolved)
                           (newBranchId env) (new_branch env parentNoteId pos))
               (save_branch (new_branch env parentNoteId pos)
                            (save_note (new_note env resolved) w1))
        end
    | Throw msg w1 => Throw msg w1
    | OutOfFuel => OutOfFuel
    end.
Proof.
  unfold createNewNote, bind at 1.
  destruct (getNewNotePosition parentNoteId (NoteOptions.placement noteOpts) w)
    as [pos w1|msg w1|]; try reflexivity.
  unfold resolve_options, bind, get, ret, throw, modify.
  destruct (negb (String.eqb parentNoteId "root")); [|reflexivity].
  destruct (negb (string_truthy (NoteOptions.type noteOpts)));
    destruct (getNote parentNoteId w1) as [parent|]; try reflexivity.
  - destruct (negb (string_truthy
                      (NoteOptions.mime
                         (NoteOptions.set_type (Some (Note.type parent)) noteOpts))));
      reflexivity.
  - destruct (negb (string_truthy (NoteOptions.mime noteOpts))); reflexivity.
  - destruct (negb (string_truthy (NoteOptions.mime noteOpts))); reflexivity.
Qed.

Lemma resolve_options_fields (parentNoteId : string) (noteOpts resolved : NoteOptions.t)
    (w : World) :
  resolve_options parentNoteId noteOpts w = inr resolved ->
  NoteOptions.placement resolved = NoteOptions.placement noteOpts /\
  NoteOptions.title resolved = NoteOptions.title noteOpts /\
  NoteOptions.content resolved = NoteOptions.content noteOpts /\
  NoteOptions.isProtected resolved = NoteOptions.isProtected noteOpts.
Proof.
  unfold resolve_options.
  destruct (negb (String.eqb parentNoteId "root")).
  2:{ intro H. injection H as <-. auto. }
  destruct (negb (string_truthy (NoteOptions.type noteOpts)));
    destruct (getNote parentNoteId w) as [parent|]; try discriminate.
  - destruct (negb (string_truthy _)); intro H; injection H as <-; auto.
  - destruct (negb (string_truthy _)); intro H; injection H as <-; auto.
  - destruct (negb (string_truthy _)); intro H; [discriminate|].
    injection H as <-. auto.
Qed.

Lemma string_truthy_true (v : option string) :
  string_truthy v = true <-> exists s, v = Some s /\ s <> EmptyString.
Proof.
  destruct v as [s|]; simpl; unfold str_truthy.
  - rewrite negb_true_iff, String.eqb_neq. split.
    + intro H. now exists s.
    + intros [s' [H1 H2]]. now injection H1 as ->.
  - split; [discriminate|]. intros [s [H _]]. discriminate.
Qed.

Lemma string_or_given (v : option string) (d : string) :
  string_truthy v = true -> Some (string_or v d) = v.
Proof.
  destruct v as [s|]; simpl; [|discriminate]. intro H. now rewrite H.
Qed.

Lemma string_or_default (v : option string) (d : string) :
  string_truthy v = false -> string_or v d = d.
Proof.
  destruct v as [s|]; simpl; [|reflexivity]. intro H. now rewrite H.
Qed.

(** The type and the mime of the options once resolved. *)
Lemma resolve_options_type_mime (parentNoteId : string) (noteOpts resolved : NoteOptions.t)
    (w : World) :
  resolve_options parentNoteId noteOpts w = inr resolved ->
  (string_truthy (NoteOptions.type noteOpts) = true ->
   NoteOptions.type resolved = NoteOptions.type noteOpts) /\
  (string_truthy (NoteOptions.mime noteOpts) = true ->
   NoteOptions.mime resolved = NoteOptions.mime noteOpts) /\
  (parentNoteId = "root" -> resolved = noteOpts) /\
  (parentNoteId <> "root" ->
   string_truthy (NoteOptions.type noteOpts) = false ->
   exists parent, getNote parentNoteId w = Some parent /\
                  NoteOptions.type resolved = Some (Note.type parent)) /\
  (parentNoteId <> "root" ->
   string_truthy (NoteOptions.mime noteOpts) = false ->
   exists parent, getNote parentNoteId w = Some parent /\
                  NoteOptions.mime resolved = Some (Note.mime parent)).
Proof.
  unfold resolve_options.
  destruct (String.eqb_spec parentNoteId "root") as [Hr|Hr]; simpl.
  { intro H. injection H as <-. repeat split; auto; intro; contradiction. }
  destruct (string_truthy (NoteOptions.type noteOpts)) eqn:Et;
    destruct (string_truthy (NoteOptions.mime noteOpts)) eqn:Em; simpl;
    destruct (getNote parentNoteId w) as [parent|]; simpl; try rewrite Em; simpl;
    try discriminate; intro H; injection H as <-; simpl;
    repeat split; auto; try discriminate; try contradiction;
    intros; exists parent; auto.
Qed.

(** X3. After [createNewNote] returned, with identifiers that were not in
    use, the note is found under the identifier returned, as the column
    image of the note returned; the branch returned is its one non-deleted
    branch, placed under the parent asked for; and the store is consistent
    as it was. *)
Theorem createNewNote_lookup (env : NoteEnv) (parentNoteId : string)
    (noteOpts : NoteOptions.t) (w w' : World) (created : NewNote.t) :
  store_consistent w ->
  ids_fresh env w ->
  createNewNote env parentNoteId noteOpts w = Ok created w' ->
  NewNote.noteId created = newNoteId env /\
  NewNote.branchId created = newBranchId env /\
  Note.noteId (NewNote.note created) = NewNote.noteId created /\
  Branch.branchId (NewNote.branch created) = NewNote.branchId created /\
  Branch.parentNoteId (NewNote.branch created) = parentNoteId /\
  getNote (NewNote.noteId created) w' = Some (Note.row (NewNote.note created)) /\
  getBranches (NewNote.note created) w' = [NewNote.branch created] /\
  store_consistent w'.
Proof.
  intros Hcons [Hfn Hfb] Hrun. rewrite createNewNote_run in Hrun.
  destruct (getNewNotePosition parentNoteId (NoteOptions.placement noteOpts) w)
    as [pos w1|msg w1|] eqn:Halloc; try discriminate.
  destruct (resolve_options parentNoteId noteOpts w1) as [msg|resolved]; [discriminate|].
  injection Hrun as <- <-.
  destruct (getNewNotePosition_result _ _ _ _ _ Halloc) as [_ [_ [Hn1 [Hs1 _]]]].
  set (note := new_note env resolved). set (branch := new_branch env parentNoteId pos).
  assert (Hkeys1 : map Branch.branchId (branches w1) = map Branch.branchId (branches w)).
  { assert (Hk : forall l, map Branch.branchId l
                           = map (fun s => fst (fst s)) (map skeleton l))
      by (intro l; rewrite map_map; reflexivity).
    now rewrite Hk, Hs1, <- Hk. }
  assert (Hcons1 : store_consistent w1).
  { apply (store_consistent_transfer w); auto. now rewrite Hn1. }
  assert (Hbr : branches (save_branch branch (save_note note w1))
                = (branches w1 ++ [branch])%list).
  { unfold save_branch. simpl. apply (upsert_fresh Branch.branchId (Branch.row branch)).
    simpl. now rewrite Hkeys1. }
  assert (Hno : notes (save_branch branch (save_note note w1))
                = (notes w1 ++ [Note.row note])%list).
  { unfold save_branch, save_note. simpl.
    apply (upsert_fresh Note.noteId (Note.row note)). simpl. now rewrite Hn1. }
  assert (Hnone : forall b, In b (branches w1) -> Branch.noteId b <> newNoteId env).
  { intros b Hb Heq. apply Hfn. rewrite <- Hn1, <- Heq. now apply (proj2 Hcons1). }
  repeat split; try reflexivity.
  - change (getNote (Note.noteId note) (save_branch branch (save_note note w1))
            = Some (Note.row note)).
    exact (getNote_save_note note w1).
  - unfold getBranches. rewrite Hbr, filter_app. simpl.
    rewrite String.eqb_refl. simpl.
    rewrite filter_nil; [reflexivity|].
    intros b Hb. simpl. specialize (Hnone b Hb). apply String.eqb_neq in Hnone.
    now rewrite Hnone.
  - rewrite Hbr, map_app. simpl.
    apply NoDup_app; [apply Hcons1|repeat constructor; intros []|].
    intros k Hk [<-|[]]. apply Hfb. now rewrite <- Hkeys1.
  - intros b Hb. rewrite Hbr in Hb. rewrite Hno, map_app. apply in_or_app.
    apply in_app_or in Hb. destruct Hb as [Hb|[<-|[]]].
    + left. now apply (proj2 Hcons1).
    + right. now left.
Qed.

Lemma sample_ids_fresh : ids_fresh sample_note_env cascade_world.
Proof. split; simpl; intuition discriminate. Defined.

Lemma sample_creation_runs :
  exists created w',
    createNewNote sample_note_env "a" sample_note_options cascade_world = Ok created w'.
Proof. vm_compute. eexists. eexists. reflexivity. Defined.

Lemma createNewNote_lookup_sample :
  exists created w',
    createNewNote sample_note_env "a" sample_note_options cascade_world = Ok created w' /\
    getNote (NewNote.noteId created) w' = Some (Note.row (NewNote.note created)) /\
    getBranches (NewNote.note created) w' = [NewNote.branch created].
Proof.
  destruct sample_creation_runs as [created [w' Hrun]]. exists created, w'.
  split; [exact Hrun|].
  destruct (createNewNote_lookup _ _ _ _ _ _ cascade_world_consistent sample_ids_fresh Hrun)
    as [_ [_ [_ [_ [_ [Hget [Hbr _]]]]]]].
  split; [exact Hget|exact Hbr].
Defined.

Lemma NoDup_snoc {A} (l : list A) (x : A) :
  NoDup l -> ~ In x l -> NoDup (l ++ [x]).
Proof.
  intros Hnd Hx. apply NoDup_app; [exact Hnd|repeat constructor; intros []|].
  intros y Hy [<-|[]]. contradiction.
Qed.

(** X4. [createNewNote] keeps the positions of the non-deleted branches
    distinct under every parent, for both intents, when the positions of
    the store are safe integers (of magnitude below 2^53) and the branch
    identifier is new: the branch it adds takes a position that no sibling
    has. *)
Theorem createNewNote_positions_unique (env : NoteEnv) (parentNoteId : string)
    (noteOpts : NoteOptions.t) (w w' : World) (created : NewNote.t) :
  positions_safe w ->
  positions_unique w ->
  ~ In (newBranchId env) (map Branch.branchId (branches w)) ->
  createNewNote env parentNoteId noteOpts w = Ok created w' ->
  positions_unique w' /\
  In (NewNote.branch created) (child_branches parentNoteId w') /\
  (forall b, In b (child_branches parentNoteId w') ->
             Branch.notePosition b = Branch.notePosition (NewNote.branch created) ->
             b = NewNote.branch created).
Proof.
  intros Hsafe Huniq Hfb Hrun. rewrite createNewNote_run in Hrun.
  destruct (getNewNotePosition parentNoteId (NoteOptions.placement noteOpts) w)
    as [pos w1|msg w1|] eqn:Halloc; try discriminate.
  destruct (resolve_options parentNoteId noteOpts w1) as [msg|resolved]; [discriminate|].
  injection Hrun as <- <-.
  destruct (getNewNotePosition_result _ _ _ _ _ Halloc) as [Hfree [Hu1 [_ [Hs1 _]]]].
  specialize (Hfree Hsafe). specialize (Hu1 Huniq).
  set (note := new_note env resolved). set (branch := new_branch env parentNoteId pos).
  assert (Hkeys1 : map Branch.branchId (branches w1) = map Branch.branchId (branches w)).
  { assert (Hk : forall l, map Branch.branchId l
                           = map (fun s => fst (fst s)) (map skeleton l))
      by (intro l; rewrite map_map; reflexivity).
    now rewrite Hk, Hs1, <- Hk. }
  assert (Hbr : branches (save_branch branch (save_note note w1))
                = (branches w1 ++ [branch])%list).
  { unfold save_branch. simpl. apply (upsert_fresh Branch.branchId (Branch.row branch)).
    simpl. now rewrite Hkeys1. }
  assert (Hcb : forall q, child_branches q (save_branch branch (save_note note w1))
                          = (child_branches q w1
                             ++ if String.eqb parentNoteId q then [branch] else [])%list).
  { intro q. unfold child_branches. rewrite Hbr, filter_app. simpl.
    unfold is_child_of at 2. simpl. rewrite andb_true_r.
    destruct (String.eqb parentNoteId q); reflexivity. }
  split; [|split].
  - intro q. unfold child_positions. rewrite Hcb, map_app.
    destruct (String.eqb_spec parentNoteId q) as [<-|Hq]; simpl.
    + apply NoDup_snoc; [apply Hu1|exact Hfree].
    + rewrite app_nil_r. apply Hu1.
  - rewrite Hcb, String.eqb_refl. apply in_or_app. right. now left.
  - intros b Hb Hpos. rewrite Hcb, String.eqb_refl in Hb.
    apply in_app_or in Hb. destruct Hb as [Hb|[<-|[]]]; [|reflexivity].
    exfalso. apply Hfree. simpl in Hpos. rewrite <- Hpos.
    unfold child_positions. now apply in_map.
Qed.

Lemma positions_unique_by_parents (w : World) :
  (forall b, In b (branches w) -> NoDup (child_positions (Branch.parentNoteId b) w)) ->
  positions_unique w.
Proof.
  intros H q. unfold child_positions.
  destruct (child_branches q w) as [|t l] eqn:E; [constructor|].
  assert (Ht : In t (child_branches q w)) by (rewrite E; now left).
  unfold child_branches in Ht. apply filter_In in Ht. destruct Ht as [Hin Hc].
  apply is_child_of_true in Hc. destruct Hc as [<- _].
  rewrite <- E. now apply H.
Qed.

Lemma cascade_world_positions_unique : positions_unique cascade_world.
Proof.
  apply positions_unique_by_parents. intros b Hb. simpl in Hb.
  repeat (destruct Hb as [<-|Hb];
          [vm_compute; repeat constructor; simpl; intuition discriminate|]).
  destruct Hb.
Defined.

Lemma cascade_world_positions_safe : positions_safe cascade_world.
Proof.
  intros b Hb. unfold safe_integer. simpl in Hb.
  repeat (destruct Hb as [<-|Hb]; [simpl; lia|]). destruct Hb.
Defined.

Lemma createNewNote_positions_unique_sample :
  exists created w',
    createNewNote sample_note_env "a" sample_note_options cascade_world = Ok created w' /\
    positions_unique w' /\
    In (NewNote.branch created) (child_branches "a" w').
Proof.
  destruct sample_creation_runs as [created [w' Hrun]]. exists created, w'.
  split; [exact Hrun|].
  destruct (createNewNote_positions_unique _ _ _ _ _ _ cascade_world_positions_safe
              cascade_world_positions_unique (proj2 sample_ids_fresh) Hrun)
    as [Hu [Hin _]].
  split; [exact Hu|exact Hin].
Defined.

(** X5. The type of the note that [createNewNote] builds is the type given
    in the options when it is a non-empty string; otherwise it is "text"
    under the root, and under another parent the type of the parent, or
    "text" when that is empty.  The mime follows the same rule with the
    mime of the parent and "text/html", independently of the type. *)
Theorem createNewNote_type_mime (env : NoteEnv) (parentNoteId : string)
    (noteOpts : NoteOptions.t) (w w' : World) (created : NewNote.t) :
  createNewNote env parentNoteId noteOpts w = Ok created w' ->
  (string_truthy (NoteOptions.type noteOpts) = true ->
   Some (Note.type (NewNote.note created)) = NoteOptions.type noteOpts) /\
  (string_truthy (NoteOptions.type noteOpts) = false -> parentNoteId = "root" ->
   Note.type (NewNote.note created) = "text") /\
  (string_truthy (NoteOptions.type noteOpts) = false -> parentNoteId <> "root" ->
   exists parent, getNote parentNoteId w = Some parent /\
                  Note.type (NewNote.note created)
                  = if str_truthy (Note.type parent) then Note.type parent else "text") /\
  (string_truthy (NoteOptions.mime noteOpts) = true ->
   Some (Note.mime (NewNote.note created)) = NoteOptions.mime noteOpts) /\
  (string_truthy (NoteOptions.mime noteOpts) = false -> parentNoteId = "root" ->
   Note.mime (NewNote.note created) = "text/html") /\
  (string_truthy (NoteOptions.mime noteOpts) = false -> parentNoteId <> "root" ->
   exists parent, getNote parentNoteId w = Some parent /\
                  Note.mime (NewNote.note created)
                  = if str_truthy (Note.mime parent) then Note.mime parent else "text/html").
Proof.
  intro Hrun. rewrite createNewNote_run in Hrun.
  destruct (getNewNotePosition parentNoteId (NoteOptions.placement noteOpts) w)
    as [pos w1|msg w1|] eqn:Halloc; try discriminate.
  destruct (resolve_options parentNoteId noteOpts w1) as [msg|resolved] eqn:Hres;
    [discriminate|].
  injection Hrun as <- <-. simpl.
  destruct (getNewNotePosition_result _ _ _ _ _ Halloc) as [_ [_ [Hn1 _]]].
  assert (Hget : getNote parentNoteId w1 = getNote parentNoteId w)
    by (unfold getNote; now rewrite Hn1).
  destruct (resolve_options_type_mime _ _ _ _ Hres) as [Ht [Hm [Hroot [Hpt Hpm]]]].
  split; [|split; [|split; [|split; [|split]]]].
  - intro H. rewrite (Ht H). now apply string_or_given.
  - intros H Hr. rewrite (Hroot Hr). now apply string_or_default.
  - intros H Hr. destruct (Hpt Hr H) as [parent [Hp Hty]].
    exists parent. rewrite <- Hget. split; [exact Hp|]. now rewrite Hty.
  - intro H. rewrite (Hm H). now apply string_or_given.
  - intros H Hr. rewrite (Hroot Hr). now apply string_or_default.
  - intros H Hr. destruct (Hpm Hr H) as [parent [Hp Hmi]].
    exists parent. rewrite <- Hget. split; [exact Hp|]. now rewrite Hmi.
Qed.

Lemma createNewNote_type_mime_sample :
  exists created w',
    createNewNote sample_note_env "a" sample_note_options cascade_world = Ok created w' /\
    Note.type (NewNote.note created) = "text" /\
    Note.mime (NewNote.note created) = "text/html".
Proof.
  destruct sample_creation_runs as [created [w' Hrun]]. exists created, w'.
  split; [exact Hrun|].
  assert (Hne : "a" <> "root") by discriminate.
  destruct (createNewNote_type_mime _ _ _ _ _ _ Hrun) as [_ [_ [Ht [_ [_ Hm]]]]].
  destruct (Ht eq_refl Hne) as [p [Hp Hty]]. destruct (Hm eq_refl Hne) as [q [Hq Hmi]].
  assert (Ha : getNote "a" cascade_world = Some (nth 0 cascade_notes sample_note))
    by reflexivity.
  rewrite Ha in Hp, Hq. injection Hp as <-. injection Hq as <-.
  split; [exact Hty|exact Hmi].
Defined.

(** X6. [createNewNote] fails when the allocator fails, and when a type or a
    mime has to be taken from a parent, other than the root, that the store
    does not hold.  A failed call has saved no note and no branch: the
    notes, the placements and the labels are as before, the store is
    untouched unless the intent is "after", and then it is the store that
    the allocator left, with the siblings shifted.  When it does not fail
    it returns, also under a parent that the store does not hold, as long
    as a type and a mime are given. *)
Theorem createNewNote_failure (env : NoteEnv) (parentNoteId : string)
    (noteOpts : NoteOptions.t) (w : World) :
  match createNewNote env parentNoteId noteOpts w with
  | Ok _ _ =>
      (exists pos w1,
         getNewNotePosition parentNoteId (NoteOptions.placement noteOpts) w = Ok pos w1) /\
      (parentNoteId = "root" \/
       (exists parent, getNote parentNoteId w = Some parent) \/
       (string_truthy (NoteOptions.type noteOpts) = true /\
        string_truthy (NoteOptions.mime noteOpts) = true))
  | Throw msg w' =>
      notes w' = notes w /\
      map skeleton (branches w') = map skeleton (branches w) /\
      labels w' = labels w /\
      (target (NoteOptions.placement noteOpts) <> JStr "after" -> w' = w) /\
      (getNewNotePosition parentNoteId (NoteOptions.placement noteOpts) w = Throw msg w' \/
       ((exists pos,
           getNewNotePosition parentNoteId (NoteOptions.placement noteOpts) w = Ok pos w') /\
        parentNoteId <> "root" /\
        getNote parentNoteId w = None /\
        (string_truthy (NoteOptions.type noteOpts) = false \/
         string_truthy (NoteOptions.mime noteOpts) = false)))
  | OutOfFuel => False
  end.
Proof.
  rewrite createNewNote_run.
  assert (Hf : match getNewNotePosition parentNoteId (NoteOptions.placement noteOpts) w with
               | Ok _ _ => True
               | Throw _ w1 => w1 = w
               | OutOfFuel => False
               end).
  { destruct (getNewNotePosition_cases parentNoteId (NoteOptions.placement noteOpts) w)
      as [[_ ->]|[[_ ->]|[_ [_ ->]]]]; auto.
    destruct (select_notePosition _ w); auto. }
  destruct (getNewNotePosition parentNoteId (NoteOptions.placement noteOpts) w)
    as [pos w1|msg w1|] eqn:Halloc.
  - destruct (getNewNotePosition_result _ _ _ _ _ Halloc) as [_ [_ [Hn1 [Hs1 [Hl1 Hw1]]]]].
    assert (Hget : getNote parentNoteId w1 = getNote parentNoteId w)
      by (unfold getNote; now rewrite Hn1).
    unfold resolve_options. rewrite Hget.
    destruct (String.eqb_spec parentNoteId "root") as [Hr|Hr]; simpl.
    { split; [now exists pos, w1|now left]. }
    destruct (string_truthy (NoteOptions.type noteOpts)) eqn:Et;
      destruct (string_truthy (NoteOptions.mime noteOpts)) eqn:Em; simpl;
      destruct (getNote parentNoteId w) as [parent|]; simpl; try rewrite Em; simpl;
      try (split; [now exists pos, w1|]; auto; right; left; now exists parent);
      try (repeat split; auto; right; repeat split; auto; now exists pos).
  - subst w1. repeat split; auto.
  - destruct Hf.
Qed.

Lemma createNote_run (env : NoteEnv) (parentNoteId : string) (title content : jsval)
    (extraOptions : ExtraOptions.t) (w : World) :
  parentNoteId <> EmptyString ->
  js_truthy title = true ->
  createNote env parentNoteId title content extraOptions w
  = match createNewNote env parentNoteId
            (createNote_options env title content extraOptions) w with
    | Ok created w1 =>
        Ok (NewNote.noteId created)
           (attach_labels (NewNote.noteId created) (ExtraOptions.labels extraOptions) w1)
    | Throw msg w1 => Throw msg w1
    | OutOfFuel => OutOfFuel
    end.
Proof.
  intros Hp Ht. unfold createNote. unfold str_truthy.
  apply String.eqb_neq in Hp. rewrite Hp, Ht. cbn [negb].
  change (NoteOptions.mk (mkNoteOpts (JStr "into") EmptyString) title _ _ _ _)
    with (NoteOptions.mk
            (mkNoteOpts (JStr "into") EmptyString) title
            (if js_truthy (ExtraOptions.json extraOptions)
             then json_stringify env
                    (if js_strict_eq content JUndefined then JStr EmptyString else content)
             else if js_strict_eq content JUndefined then JStr EmptyString else content)
            (if negb (js_strict_eq (ExtraOptions.isProtected extraOptions) JUndefined)
             then ExtraOptions.isProtected extraOptions else JBool false)
            (ExtraOptions.type extraOptions)
            (ExtraOptions.mime extraOptions)).
  fold (createNote_options env title content extraOptions).
  unfold bind at 1.
  destruct (createNewNote env parentNoteId
              (createNote_options env title content extraOptions) w)
    as [created w1|msg w1|]; try reflexivity.
  unfold bind, ret. destruct (ExtraOptions.labels extraOptions) as [l|]; [|reflexivity].
  rewrite (for_of_modify _ (attach_label (NewNote.noteId created))); reflexivity.
Qed.

(** [createNote] refuses an empty parent identifier and a title that is
    not truthy (undefined, null, false, 0 or the empty string): it throws
    before anything is read, allocated or written. *)
Theorem createNote_validation (env : NoteEnv) (parentNoteId : string)
    (title content : jsval) (extraOptions : ExtraOptions.t) (w : World) :
  (parentNoteId = EmptyString ->
   createNote env parentNoteId title content extraOptions w
   = Throw "Empty parentNoteId" w) /\
  (parentNoteId <> EmptyString -> js_truthy title = false ->
   createNote env parentNoteId title content extraOptions w = Throw "Empty title" w).
Proof.
  split.
  - intros ->. reflexivity.
  - intros Hp Ht. unfold createNote, str_truthy. apply String.eqb_neq in Hp.
    rewrite Hp, Ht. reflexivity.
Qed.

Lemma createNote_validation_sample :
  createNote sample_note_env EmptyString (JStr "T") JUndefined ExtraOptions.empty
             cascade_world = Throw "Empty parentNoteId" cascade_world /\
  createNote sample_note_env "a" (JStr EmptyString) JUndefined ExtraOptions.empty
             cascade_world = Throw "Empty title" cascade_world.
Proof.
  assert (Ha : "a" <> EmptyString) by discriminate.
  split.
  - exact (proj1 (createNote_validation sample_note_env EmptyString (JStr "T") JUndefined
                    ExtraOptions.empty cascade_world) eq_refl).
  - exact (proj2 (createNote_validation sample_note_env "a" (JStr EmptyString) JUndefined
                    ExtraOptions.empty cascade_world) Ha eq_refl).
Defined.

(** The type and the mime of the options that [createNote] builds. *)
Lemma createNote_options_type_mime (env : NoteEnv) (title content : jsval)
    (extraOptions : ExtraOptions.t) :
  let options := createNote_options env title content extraOptions in
  string_truthy (NoteOptions.type options) = true /\
  (string_truthy (ExtraOptions.type extraOptions) = true ->
   NoteOptions.type options = ExtraOptions.type extraOptions /\
   NoteOptions.mime options = ExtraOptions.mime extraOptions) /\
  (string_truthy (ExtraOptions.type extraOptions) = false ->
   js_truthy (ExtraOptions.json extraOptions) = true ->
   NoteOptions.type options = Some "code" /\
   NoteOptions.mime options = Some "application/json") /\
  (string_truthy (ExtraOptions.type extraOptions) = false ->
   js_truthy (ExtraOptions.json extraOptions) = false ->
   NoteOptions.type options = Some "text" /\
   NoteOptions.mime options = Some "text/html").
Proof.
  unfold createNote_options. simpl.
  destruct (string_truthy (ExtraOptions.type extraOptions)) eqn:Et;
    destruct (js_truthy (ExtraOptions.json extraOptions)) eqn:Ej; simpl;
    try rewrite Et; simpl; repeat split; auto; discriminate.
Qed.

Lemma createNote_options_fields (env : NoteEnv) (title content : jsval)
    (extraOptions : ExtraOptions.t) :
  let options := createNote_options env title content extraOptions in
  NoteOptions.placement options = mkNoteOpts (JStr "into") EmptyString /\
  NoteOptions.title options = title /\
  NoteOptions.content options
  = (if js_truthy (ExtraOptions.json extraOptions)
     then json_stringify env
            (if js_strict_eq content JUndefined then JStr EmptyString else content)
     else if js_strict_eq content JUndefined then JStr EmptyString else content) /\
  NoteOptions.isProtected options
  = (if js_strict_eq (ExtraOptions.isProtected extraOptions) JUndefined
     then JBool false else ExtraOptions.isProtected extraOptions).
Proof.
  unfold createNote_options. simpl.
  destruct (string_truthy (ExtraOptions.type extraOptions)) eqn:Et;
    destruct (js_truthy (ExtraOptions.json extraOptions)) eqn:Ej; simpl;
    try rewrite Et; simpl;
    destruct (js_strict_eq (ExtraOptions.isProtected extraOptions) JUndefined);
    simpl; auto.
Qed.

(** What a [createNote] call that returned has done: the allocation, the
    options resolved, the two saves and the labels. *)
Lemma createNote_returned (env : NoteEnv) (parentNoteId : string) (title content : jsval)
    (extraOptions : ExtraOptions.t) (w w' : World) (noteId : string) :
  createNote env parentNoteId title content extraOptions w = Ok noteId w' ->
  exists pos w1 resolved,
    getNewNotePosition parentNoteId (mkNoteOpts (JStr "into") EmptyString) w = Ok pos w1 /\
    resolve_options parentNoteId (createNote_options env title content extraOptions) w1
      = inr resolved /\
    noteId = newNoteId env /\
    w' = attach_labels (newNoteId env) (ExtraOptions.labels extraOptions)
           (save_branch (new_branch env parentNoteId pos)
                        (save_note (new_note env resolved) w1)).
Proof.
  intro Hrun.
  destruct (String.eqb_spec parentNoteId EmptyString) as [Hp|Hp].
  { subst. discriminate. }
  destruct (js_truthy title) eqn:Ht.
  2:{ unfold createNote, str_truthy in Hrun. apply String.eqb_neq in Hp.
      rewrite Hp, Ht in Hrun. discriminate. }
  rewrite (createNote_run _ _ _ _ _ _ Hp Ht), createNewNote_run in Hrun.
  destruct (createNote_options_fields env title content extraOptions) as [Hpl _].
  rewrite Hpl in Hrun.
  destruct (getNewNotePosition parentNoteId (mkNoteOpts (JStr "into") EmptyString) w)
    as [pos w1|msg w1|]; try discriminate.
  destruct (resolve_options parentNoteId
              (createNote_options env title content extraOptions) w1)
    as [msg|resolved] eqn:Hres; [discriminate|].
  injection Hrun as <- <-. exists pos, w1, resolved. auto.
Qed.

Lemma attach_labels_frame (noteId : string) (l : option (list (string * string)))
    (w : World) :
  notes (attach_labels noteId l w) = notes w /\
  branches (attach_labels noteId l w) = branches w /\
  reorderings (attach_labels noteId l w) = reorderings w /\
  writes (attach_labels noteId l w) = writes w.
Proof.
  destruct l as [l|]; simpl; [|auto].
  repeat split; apply fold_left_frame; reflexivity.
Qed.

Lemma getNewNotePosition_into_above (parentNoteId branchId : string) (w w1 : World)
    (pos : Z) :
  getNewNotePosition parentNoteId (mkNoteOpts (JStr "into") branchId) w = Ok pos w1 ->
  w1 = w /\
  ((forall b, In b (child_branches parentNoteId w) ->
              safe_integer (Branch.notePosition b)) ->
   forall b, In b (child_branches parentNoteId w) -> Branch.notePosition b < pos) /\
  (child_branches parentNoteId w = [] -> pos = 0).
Proof.
  rewrite getNewNotePosition_into_eq. intro H. injection H as <- <-.
  split; [reflexivity|]. unfold select_max_notePosition.
  destruct (sql_max (map Branch.notePosition (child_branches parentNoteId w)))
    as [m|] eqn:E.
  - destruct (sql_max_some _ _ E) as [Hin Hle]. split.
    + intros Hsafe b Hb.
      assert (Hm : safe_integer m).
      { apply in_map_iff in Hin. destruct Hin as [bm [<- Hbm]]. now apply Hsafe. }
      rewrite (js_add_one_safe m Hm).
      specialize (Hle _ (in_map Branch.notePosition _ _ Hb)). lia.
    + intro Hnil. rewrite Hnil in Hin. destruct Hin.
  - apply sql_max_none in E. apply map_eq_nil in E. split; [|reflexivity].
    intros _ b Hb. rewrite E in Hb. destruct Hb.
Qed.

(** The note that a [createNote] call that returned has stored. *)
Lemma createNote_stored (env : NoteEnv) (parentNoteId : string) (title content : jsval)
    (extraOptions : ExtraOptions.t) (w w' : World) (noteId : string) :
  createNote env parentNoteId title content extraOptions w = Ok noteId w' ->
  exists resolved,
    resolve_options parentNoteId (createNote_options env title content extraOptions) w
      = inr resolved /\
    noteId = newNoteId env /\
    getNote noteId w' = Some (Note.row (new_note env resolved)).
Proof.
  intro Hrun.
  destruct (createNote_returned _ _ _ _ _ _ _ _ Hrun)
    as [pos [w1 [resolved [Halloc [Hres [Hid Hw']]]]]].
  destruct (getNewNotePosition_into_above _ _ _ _ _ Halloc) as [-> _].
  exists resolved. split; [exact Hres|]. split; [exact Hid|].
  subst noteId w'. unfold getNote.
  rewrite (proj1 (attach_labels_frame _ _ _)).
  exact (getNote_save_note (new_note env resolved) w).
Qed.

(** X8. The note that [createNote] stores never takes its type from the
    parent.  With a type among the extra options it has that type, and the
    mime of the extra options, or else that of the parent (under the root,
    "text/html").  Without a type it is a "code" note of mime
    "application/json" when the json option is set and a "text" note of
    mime "text/html" otherwise, whatever mime the extra options name. *)
Theorem createNote_type_mime (env : NoteEnv) (parentNoteId : string) (title content : jsval)
    (extraOptions : ExtraOptions.t) (w w' : World) (noteId : string) :
  createNote env parentNoteId title content extraOptions w = Ok noteId w' ->
  exists n,
    getNote noteId w' = Some n /\
    (string_truthy (ExtraOptions.type extraOptions) = true ->
     Some (Note.type n) = ExtraOptions.type extraOptions /\
     (string_truthy (ExtraOptions.mime extraOptions) = true ->
      Some (Note.mime n) = ExtraOptions.mime extraOptions) /\
     (string_truthy (ExtraOptions.mime extraOptions) = false -> parentNoteId = "root" ->
      Note.mime n = "text/html") /\
     (string_truthy (ExtraOptions.mime extraOptions) = false -> parentNoteId <> "root" ->
      exists parent, getNote parentNoteId w = Some parent /\
                     Note.mime n = if str_truthy (Note.mime parent)
                                   then Note.mime parent else "text/html")) /\
    (string_truthy (ExtraOptions.type extraOptions) = false ->
     js_truthy (ExtraOptions.json extraOptions) = true ->
     Note.type n = "code" /\ Note.mime n = "application/json") /\
    (string_truthy (ExtraOptions.type extraOptions) = false ->
     js_truthy (ExtraOptions.json extraOptions) = false ->
     Note.type n = "text" /\ Note.mime n = "text/html").
Proof.
  intro Hrun.
  destruct (createNote_stored _ _ _ _ _ _ _ _ Hrun) as [resolved [Hres [_ Hget]]].
  exists (Note.row (new_note env resolved)). split; [exact Hget|]. simpl.
  destruct (createNote_options_type_mime env title content extraOptions)
    as [Htt [Hgiven [Hjson Htext]]].
  destruct (resolve_options_type_mime _ _ _ _ Hres) as [Ht [Hm [Hroot [_ Hpm]]]].
  specialize (Ht Htt).
  split; [|split].
  - intro Hg. destruct (Hgiven Hg) as [Hoty Homi].
    split; [|split; [|split]].
    + rewrite Ht, Hoty. now apply string_or_given.
    + intro Hmt. rewrite <- Homi in Hmt. rewrite (Hm Hmt), Homi.
      apply string_or_given. now rewrite <- Homi.
    + intros Hmf Hr. rewrite (Hroot Hr), Homi. now apply string_or_default.
    + intros Hmf Hr. rewrite <- Homi in Hmf.
      destruct (Hpm Hr Hmf) as [parent [Hp Hmi]]. exists parent.
      split; [exact Hp|]. now rewrite Hmi.
  - intros Hg Hj. destruct (Hjson Hg Hj) as [Hoty Homi].
    rewrite Ht, Hoty. rewrite Hm by now rewrite Homi. rewrite Homi. now split.
  - intros Hg Hj. destruct (Htext Hg Hj) as [Hoty Homi].
    rewrite Ht, Hoty. rewrite Hm by now rewrite Homi. rewrite Homi. now split.
Qed.

Lemma sample_note_creation_runs :
  exists noteId w',
    createNote sample_note_env "a" (JStr "Data") (JNum 7) sample_extra_options
               cascade_world = Ok noteId w'.
Proof. vm_compute. eexists. eexists. reflexivity. Defined.

(** A mime without a type is not kept: the json note is a code note. *)
Lemma createNote_type_mime_sample :
  exists noteId w' n,
    createNote sample_note_env "a" (JStr "Data") (JNum 7) sample_extra_options
               cascade_world = Ok noteId w' /\
    getNote noteId w' = Some n /\
    Note.type n = "code" /\ Note.mime n = "application/json".
Proof.
  destruct sample_note_creation_runs as [noteId [w' Hrun]].
  destruct (createNote_type_mime _ _ _ _ _ _ _ _ Hrun) as [n [Hget [_ [Hjson _]]]].
  exists noteId, w', n. split; [exact Hrun|]. split; [exact Hget|].
  exact (Hjson eq_refl eq_refl).
Defined.

(** X9. The note that [createNote] stores has the title given; its
    protection flag is that of the extra options, and false, stored as 0,
    when they have none; its content is the content given, serialised when
    the json option is set, and the empty string when that is not truthy,
    so also for no content and for the contents 0, false and null. *)
Theorem createNote_fields (env : NoteEnv) (parentNoteId : string) (title content : jsval)
    (extraOptions : ExtraOptions.t) (w w' : World) (noteId : string) :
  createNote env parentNoteId title content extraOptions w = Ok noteId w' ->
  exists n,
    getNote noteId w' = Some n /\
    noteId = newNoteId env /\
    Note.noteId n = noteId /\
    Note.title n = to_sql title /\
    js_truthy title = true /\
    (ExtraOptions.isProtected extraOptions = JUndefined -> Note.isProtected n = JNum 0) /\
    (ExtraOptions.isProtected extraOptions <> JUndefined ->
     Note.isProtected n = to_sql (ExtraOptions.isProtected extraOptions)) /\
    (js_truthy (ExtraOptions.json extraOptions) = false ->
     Note.content n = if js_truthy content then to_sql content else JStr EmptyString) /\
    (js_truthy (ExtraOptions.json extraOptions) = true ->
     let text := json_stringify env
                   (if js_strict_eq content JUndefined then JStr EmptyString else content) in
     Note.content n = if js_truthy text then to_sql text else JStr EmptyString).
Proof.
  intro Hrun.
  destruct (createNote_stored _ _ _ _ _ _ _ _ Hrun) as [resolved [Hres [Hid Hget]]].
  exists (Note.row (new_note env resolved)). split; [exact Hget|].
  split; [exact Hid|]. split; [now rewrite Hid|]. simpl.
  destruct (resolve_options_fields _ _ _ _ Hres) as [_ [Hti [Hco Hpr]]].
  destruct (createNote_options_fields env title content extraOptions)
    as [_ [Hoti [Hoco Hopr]]].
  rewrite Hti, Hco, Hpr, Hoti, Hoco, Hopr.
  split; [reflexivity|]. split.
  { destruct (js_truthy title) eqn:Ht; [reflexivity|].
    destruct (String.eqb_spec parentNoteId EmptyString) as [Hp|Hp].
    - subst. discriminate.
    - unfold createNote, str_truthy in Hrun. apply String.eqb_neq in Hp.
      rewrite Hp, Ht in Hrun. discriminate. }
  split; [|split; [|split]].
  - intros ->. reflexivity.
  - intro Hne. apply js_strict_eq_false in Hne. now rewrite Hne.
  - intro Hj. rewrite Hj.
    destruct content as [| |[|]|n|s]; simpl; try reflexivity.
    + destruct (Z.eqb n 0); reflexivity.
    + destruct (str_truthy s); reflexivity.
  - intro Hj. rewrite Hj. cbv zeta.
    destruct (js_truthy (json_stringify env _)); reflexivity.
Qed.

Lemma createNote_fields_sample :
  exists noteId w' n,
    createNote sample_note_env "a" (JStr "Data") (JNum 7) sample_extra_options
               cascade_world = Ok noteId w' /\
    getNote noteId w' = Some n /\
    Note.title n = JStr "Data" /\ Note.isProtected n = JNum 0 /\
    Note.content n = JStr "7".
Proof.
  destruct sample_note_creation_runs as [noteId [w' Hrun]].
  destruct (createNote_fields _ _ _ _ _ _ _ _ Hrun)
    as [n [Hget [_ [_ [Hti [_ [Hpr [_ [_ Hco]]]]]]]]].
  exists noteId, w', n. split; [exact Hrun|]. split; [exact Hget|].
  split; [exact Hti|]. split; [exact (Hpr eq_refl)|exact (Hco eq_refl)].
Defined.

(** X10. [createNote] places the note last under its parent: with a new
    branch identifier the branch table is the former one followed by one
    non-deleted, collapsed branch for the note; when the positions of the
    non-deleted branches of the parent are safe integers (of magnitude
    below 2^53) its position is above every one of them, and it is 0 when
    there is none; no branch is moved and no reorder notification is
    recorded. *)
Theorem createNote_placed_last (env : NoteEnv) (parentNoteId : string)
    (title content : jsval) (extraOptions : ExtraOptions.t) (w w' : World)
    (noteId : string) :
  ~ In (newBranchId env) (map Branch.branchId (branches w)) ->
  createNote env parentNoteId title content extraOptions w = Ok noteId w' ->
  exists pos,
    branches w'
    = (branches w
       ++ [Branch.mk (newBranchId env) noteId parentNoteId pos (JNum 0) (JNum 0)])%list /\
    ((forall b, In b (child_branches parentNoteId w) ->
                safe_integer (Branch.notePosition b)) ->
     forall b, In b (child_branches parentNoteId w) -> Branch.notePosition b < pos) /\
    (child_branches parentNoteId w = [] -> pos = 0) /\
    reorderings w' = reorderings w.
Proof.
  intros Hfresh Hrun.
  destruct (createNote_returned _ _ _ _ _ _ _ _ Hrun)
    as [pos [w1 [resolved [Halloc [_ [Hid Hw']]]]]].
  destruct (getNewNotePosition_into_above _ _ _ _ _ Halloc) as [-> [Habove Hzero]].
  exists pos. destruct (attach_labels_frame (newNoteId env)
                          (ExtraOptions.labels extraOptions)
                          (save_branch (new_branch env parentNoteId pos)
                             (save_note (new_note env resolved) w)))
    as [_ [Hb [Hr _]]].
  rewrite Hw', Hb, Hr, Hid. split; [|auto].
  unfold save_branch. simpl.
  now apply (upsert_fresh Branch.branchId
               (Branch.row (new_branch env parentNoteId pos))).
Qed.

Lemma createNote_placed_last_sample :
  exists noteId w',
    createNote sample_note_env "a" (JStr "Data") (JNum 7) sample_extra_options
               cascade_world = Ok noteId w' /\
    branches w'
    = (cascade_branches ++ [Branch.mk "B9" "N9" "a" 2 (JNum 0) (JNum 0)])%list /\
    (forall b, In b (child_branches "a" cascade_world) -> Branch.notePosition b < 2).
Proof.
  destruct sample_note_creation_runs as [noteId [w' Hrun]].
  exists noteId, w'. split; [exact Hrun|].
  assert (Hsafe : forall b, In b (child_branches "a" cascade_world) ->
                            safe_integer (Branch.notePosition b)).
  { intros b Hb. apply filter_In in Hb. apply cascade_world_positions_safe. tauto. }
  destruct (createNote_placed_last _ _ _ _ _ _ _ _ (proj2 sample_ids_fresh) Hrun)
    as [pos [Hbr [Habove _]]].
  specialize (Habove Hsafe).
  destruct (createNote_returned _ _ _ _ _ _ _ _ Hrun) as [pos' [w1 [r [Halloc [_ [Hid _]]]]]].
  rewrite Hbr, Hid. simpl newNoteId. simpl newBranchId.
  assert (Hpos : pos = 2).
  { assert (H := f_equal (fun l => map Branch.notePosition l) Hbr).
    pose proof Hrun as Hrun'. vm_compute in Hrun'. injection Hrun' as _ Hw.
    rewrite <- Hw in H. vm_compute in H. injection H as H. now symmetry. }
  rewrite Hpos in Habove |- *. split; [reflexivity|exact Habove].
Defined.

Lemma attach_labels_lookup (noteId : string) (l : list (string * string)) :
  NoDup (map fst l) ->
  forall w,
    (forall name value, In (name, value) l ->
       labels (fold_left (attach_label noteId) l w) noteId name = Some value) /\
    (forall name, ~ In name (map fst l) ->
       labels (fold_left (attach_label noteId) l w) noteId name = labels w noteId name) /\
    (forall id name, id <> noteId ->
       labels (fold_left (attach_label noteId) l w) id name = labels w id name).
Proof.
  induction l as [|[k v] l IH]; intros Hnd w; simpl.
  - repeat split; auto. intros name value [].
  - inversion Hnd as [|? ? Hk Hnd']; subst.
    destruct (IH Hnd' (attach_label noteId w (k, v))) as [H1 [H2 H3]].
    split; [|split].
    + intros name value [Heq|Hin]; [|now apply H1].
      injection Heq as <- <-. rewrite (H2 k Hk). simpl.
      now rewrite !String.eqb_refl.
    + intros name Hn. rewrite H2 by tauto. simpl.
      destruct (String.eqb_spec name k) as [->|]; [tauto|].
      now rewrite andb_false_r.
    + intros id name Hid. rewrite (H3 id name Hid). simpl.
      apply String.eqb_neq in Hid. now rewrite Hid.
Qed.

(** X11. [createNote] attaches every label of the extra options to the note
    it created and to no other: afterwards the label object of the new note
    maps each name given to its value and is otherwise as before, and the
    label objects of the other notes are unchanged; without labels among
    the options no label is touched. *)
Theorem createNote_labels (env : NoteEnv) (parentNoteId : string) (title content : jsval)
    (extraOptions : ExtraOptions.t) (w w' : World) (noteId : string) :
  createNote env parentNoteId title content extraOptions w = Ok noteId w' ->
  (ExtraOptions.labels extraOptions = None -> labels w' = labels w) /\
  (forall l, ExtraOptions.labels extraOptions = Some l -> NoDup (map fst l) ->
     (forall name value, In (name, value) l -> labels w' noteId name = Some value) /\
     (forall name, ~ In name (map fst l) -> labels w' noteId name = labels w noteId name) /\
     (forall id name, id <> noteId -> labels w' id name = labels w id name)).
Proof.
  intro Hrun.
  destruct (createNote_returned _ _ _ _ _ _ _ _ Hrun)
    as [pos [w1 [resolved [Halloc [_ [Hid Hw']]]]]].
  destruct (getNewNotePosition_into_above _ _ _ _ _ Halloc) as [-> _].
  subst noteId w'. split.
  - intros ->. reflexivity.
  - intros l -> Hnd. simpl.
    exact (attach_labels_lookup (newNoteId env) l Hnd
             (save_branch (new_branch env parentNoteId pos)
                          (save_note (new_note env resolved) w))).
Qed.

Lemma createNote_labels_sample :
  exists noteId w',
    createNote sample_note_env "a" (JStr "Data") (JNum 7) sample_extra_options
               cascade_world = Ok noteId w' /\
    labels w' noteId "color" = Some "red" /\
    labels w' noteId "archived" = Some "false" /\
    labels w' "a" "color" = None.
Proof.
  destruct sample_note_creation_runs as [noteId [w' Hrun]].
  exists noteId, w'. split; [exact Hrun|].
  assert (Hnd : NoDup (map fst [("color", "red"); ("archived", "false")])).
  { simpl. repeat constructor; simpl; intuition discriminate. }
  destruct (proj2 (createNote_labels _ _ _ _ _ _ _ _ Hrun) _ eq_refl Hnd) as [H1 [_ H3]].
  destruct (createNote_returned _ _ _ _ _ _ _ _ Hrun) as [_ [_ [_ [_ [_ [Hid _]]]]]].
  split; [apply H1; simpl; tauto|]. split; [apply H1; simpl; tauto|].
  rewrite H3; [reflexivity|]. rewrite Hid. discriminate.
Defined.

(** ** Deletion cascade: what it does and what it never does *)

Lemma upsert_keys_mono {R} (key : R -> string) (r : R) (l : list R) (k : string) :
  In k (map key l) -> In k (map key (upsert key r l)).
Proof.
  intro H. apply in_map_iff in H. destruct H as [x [Hk Hx]].
  destruct (String.eqb_spec (key x) (key r)) as [He|Hne].
  - rewrite <- Hk, He. apply in_map. apply In_upsert.
  - rewrite <- Hk. apply in_map. now apply In_upsert_other.
Qed.

Lemma only_marks_refl (w : World) : only_marks w w.
Proof.
  unfold only_marks. repeat split; auto. exists []. now rewrite app_nil_r.
Qed.

Lemma only_marks_trans (w w' w'' : World) :
  only_marks w w' -> only_marks w' w'' -> only_marks w w''.
Proof.
  intros [A1 [A2 [A3 [A4 [A5 [A6 [A7 [A8 [A9 [l1 A10]]]]]]]]]]
         [B1 [B2 [B3 [B4 [B5 [B6 [B7 [B8 [B9 [l2 B10]]]]]]]]]].
  unfold only_marks.
  split; [congruence|]. split; [congruence|]. split; [congruence|].
  split; [congruence|]. split; [congruence|]. split; [|split; [|split; [|split]]].
  - intros b Hb. destruct (B6 b Hb) as [H|H]; [now apply A6|now right].
  - intros n Hn. destruct (B7 n Hn) as [H|H]; [now apply A7|now right].
  - intros k Hk. now apply B8, A8.
  - intros k Hk. now apply B9, A9.
  - exists (l1 ++ l2)%list. now rewrite B10, A10, app_assoc.
Qed.

Lemma only_marks_save_branch (b : Branch.t) (w : World) :
  only_marks w (save_branch (marked b) w).
Proof.
  unfold only_marks, save_branch. simpl.
  repeat split; auto.
  - intros y Hy. apply In_upsert_inv in Hy. destruct Hy as [->|[Hy _]]; auto.
  - intro k. apply upsert_keys_mono.
  - now exists [WBranch (marked b)].
Qed.

Lemma only_marks_save_note (n : Note.t) (w : World) :
  only_marks w (save_note (Note.set_isDeleted (JBool true) n) w).
Proof.
  unfold only_marks, save_note. simpl.
  repeat split; auto.
  - intros y Hy. apply In_upsert_inv in Hy. destruct Hy as [->|[Hy _]]; auto.
  - intro k. apply upsert_keys_mono.
  - now exists [WNote (Note.set_isDeleted (JBool true) n)].
Qed.

(** A relation that the two saves of [deleteNote] satisfy, and that is
    reflexive and transitive, holds of every run, failed or not. *)
Section CascadeRelation.
Variable R : World -> World -> Prop.
Hypothesis R_refl : forall w, R w w.
Hypothesis R_trans : forall w w' w'', R w w' -> R w' w'' -> R w w''.
Hypothesis R_branch : forall b w, R w (save_branch (marked b) w).
Hypothesis R_note : forall n w, R w (save_note (Note.set_isDeleted (JBool true) n) w).

Lemma for_of_relation (body : Branch.t -> M unit) (cs : list Branch.t) :
  (forall c w, match body c w with
               | Ok _ w' => R w w'
               | Throw _ w' => R w w'
               | OutOfFuel => True
               end) ->
  forall w, match for_of cs body w with
            | Ok _ w' => R w w'
            | Throw _ w' => R w w'
            | OutOfFuel => True
            end.
Proof.
  intro Hbody. induction cs as [|c cs IH]; intro w; simpl; [apply R_refl|].
  unfold bind. specialize (Hbody c w).
  destruct (body c w) as [[] w1|msg w1|]; auto.
  specialize (IH w1).
  destruct (for_of cs body w1) as [[] w2|msg w2|]; auto; now apply (R_trans w w1).
Qed.

Lemma deleteNote_relation (depth : nat) :
  forall branch w,
    match deleteNote depth branch w with
    | Ok _ w' => R w w'
    | Throw _ w' => R w w'
    | OutOfFuel => True
    end.
Proof.
  induction depth as [|d IH]; intros [b|] w; try (simpl; apply R_refl).
  - simpl. destruct (js_strict_eq (Branch.isDeleted b) (JNum 1)); simpl; auto.
  - destruct (js_strict_eq (Branch.isDeleted b) (JNum 1)) eqn:Hd.
    { simpl. rewrite Hd. apply R_refl. }
    apply js_strict_eq_false in Hd. rewrite (deleteNote_step d b w Hd).
    destruct (getNote (Branch.noteId b) (save_branch (marked b) w)) as [note|];
      [|apply R_branch].
    destruct (Nat.eqb _ 0); [|apply R_branch].
    pose proof (for_of_relation (fun c => deleteNote d (Some c))
                  (getChildBranches note
                     (save_note (Note.set_isDeleted (JBool true) note)
                                (save_branch (marked b) w)))
                  (fun c w0 => IH (Some c) w0)
                  (save_note (Note.set_isDeleted (JBool true) note)
                             (save_branch (marked b) w))) as Hloop.
    destruct (for_of _ _ _) as [[] w'|msg w'|]; auto;
      (apply (R_trans w (save_branch (marked b) w)); [apply R_branch|]);
      (apply (R_trans _ (save_note (Note.set_isDeleted (JBool true) note)
                                  (save_branch (marked b) w))); [apply R_note|]);
      exact Hloop.
Qed.

(** The same from the store in which the branch has been marked. *)
Lemma deleteNote_relation_after_mark (depth : nat) (b : Branch.t) (w : World) :
  Branch.isDeleted b <> JNum 1 ->
  match deleteNote depth (Some b) w with
  | Ok _ w' => R (save_branch (marked b) w) w'
  | Throw _ w' => R (save_branch (marked b) w) w'
  | OutOfFuel => True
  end.
Proof.
  intro Hd. destruct depth as [|d].
  - simpl. apply js_strict_eq_false in Hd. now rewrite Hd.
  - rewrite (deleteNote_step d b w Hd).
    destruct (getNote (Branch.noteId b) (save_branch (marked b) w)) as [note|];
      [|apply R_refl].
    destruct (Nat.eqb _ 0); [|apply R_refl].
    pose proof (for_of_relation (fun c => deleteNote d (Some c))
                  (getChildBranches note
                     (save_note (Note.set_isDeleted (JBool true) note)
                                (save_branch (marked b) w)))
                  (fun c w0 => deleteNote_relation d (Some c) w0)
                  (save_note (Note.set_isDeleted (JBool true) note)
                             (save_branch (marked b) w))) as Hloop.
    destruct (for_of _ _ _) as [[] w'|msg w'|]; auto;
      (apply (R_trans _ (save_note (Note.set_isDeleted (JBool true) note)
                                  (save_branch (marked b) w))); [apply R_note|]);
      exact Hloop.
Qed.

End CascadeRelation.

(** With a depth above the number of non-deleted branches the cascade does
    not run out of depth, in any store, consistent or not: each call past
    the guard marks a branch, and the first child of a note is a non-deleted
    branch of the store. *)
Lemma deleteNote_fuel (depth : nat) :
  forall (b : Branch.t) (w : World),
    (Branch.isDeleted b <> JNum 1 ->
     (count_active (branches (save_branch (marked b) w)) < depth)%nat) ->
    match deleteNote depth (Some b) w with
    | Ok _ w' =>
        (count_active (branches w') <= count_active (branches w))%nat /\
        (Branch.isDeleted b <> JNum 1 ->
         (count_active (branches w')
          <= count_active (branches (save_branch (marked b) w)))%nat)
    | Throw _ _ => True
    | OutOfFuel => False
    end.
Proof.
  induction depth as [|d IH]; intros b w Hfuel.
  - simpl. destruct (js_strict_eq (Branch.isDeleted b) (JNum 1)) eqn:Hd.
    + apply js_strict_eq_true in Hd. simpl. split; [lia|]. intro. contradiction.
    + apply js_strict_eq_false in Hd. specialize (Hfuel Hd). lia.
  - destruct (js_strict_eq (Branch.isDeleted b) (JNum 1)) eqn:Hd.
    { simpl. rewrite Hd. apply js_strict_eq_true in Hd. simpl.
      split; [lia|]. intro. contradiction. }
    apply js_strict_eq_false in Hd. specialize (Hfuel Hd).
    rewrite (deleteNote_step d b w Hd).
    set (w1 := save_branch (marked b) w) in *.
    assert (Hle1 : (count_active (branches w1) <= count_active (branches w))%nat).
    { unfold w1, save_branch. simpl. apply count_active_upsert_le. reflexivity. }
    destruct (getNote (Branch.noteId b) w1) as [note|]; [|exact I].
    destruct (Nat.eqb (List.length (getBranches note w1)) 0).
    2:{ split; [exact Hle1|]. intros _. lia. }
    set (w2 := save_note (Note.set_isDeleted (JBool true) note) w1).
    assert (Hrest : forall cs wc,
              (count_active (branches wc) < d)%nat ->
              match for_of cs (fun c => deleteNote d (Some c)) wc with
              | Ok _ w' => (count_active (branches w') <= count_active (branches wc))%nat
              | Throw _ _ => True
              | OutOfFuel => False
              end).
    { induction cs as [|c cs IHcs]; intros wc Hwc; [simpl; lia|].
      simpl. unfold bind.
      assert (Hc : (count_active (branches (save_branch (marked c) wc)) < d)%nat).
      { assert (Hle : (count_active (branches (save_branch (marked c) wc))
                       <= count_active (branches wc))%nat).
        { unfold save_branch. simpl. apply count_active_upsert_le. reflexivity. }
        lia. }
      specialize (IH c wc (fun _ => Hc)).
      destruct (deleteNote d (Some c) wc) as [[] w''|msg w''|]; [|exact I|exact IH].
      destruct IH as [Hle'' _].
      assert (Hw'' : (count_active (branches w'') < d)%nat) by lia.
      specialize (IHcs w'' Hw'').
      destruct (for_of cs (fun c0 => deleteNote d (Some c0)) w'') as [[] w3|msg w3|];
        [lia|exact I|exact IHcs]. }
    destruct (getChildBranches note w2) as [|c rest] eqn:Hcs.
    { simpl. split; [exact Hle1|]. intros _. change (branches w2) with (branches w1). lia. }
    assert (Hc : In c (getChildBranches note w2)) by (rewrite Hcs; now left).
    unfold getChildBranches, child_branches in Hc.
    apply filter_In in Hc. destruct Hc as [Hc Hch]. apply is_child_of_true in Hch.
    destruct Hch as [_ Hch].
    assert (Hlt : (count_active (branches (save_branch (marked c) w2))
                   < count_active (branches w1))%nat).
    { unfold save_branch. simpl. apply (count_active_upsert_lt _ c); auto.
      unfold active. now apply sql_eq0_true. }
    assert (Hnd : Branch.isDeleted c <> JNum 1) by (rewrite Hch; discriminate).
    simpl. unfold bind.
    assert (Hc' : (count_active (branches (save_branch (marked c) w2)) < d)%nat) by lia.
    specialize (IH c w2 (fun _ => Hc')).
    destruct (deleteNote d (Some c) w2) as [[] w''|msg w''|]; [|exact I|exact IH].
    destruct IH as [_ Hle'']. specialize (Hle'' Hnd).
    assert (Hw'' : (count_active (branches w'') < d)%nat) by lia.
    specialize (Hrest rest w'' Hw'').
    destruct (for_of rest (fun c0 => deleteNote d (Some c0)) w'') as [[] w3|msg w3|];
      [|exact I|exact Hrest].
    split; [lia|]. intros _.
    change (upsert Branch.branchId (Branch.row (marked b)) (branches w))
      with (branches w1).
    lia.
Qed.

(** X12. With a depth above the number of non-deleted branches, [deleteNote]
    ends, in any store and for any branch object, and whatever it does, also
    when it fails on the way, it only marks: revisions, image records,
    labels and notifications are left alone; every branch row and every
    note row of the store it leaves is a row of before or carries the
    deletion flag 1, so nothing is ever undeleted; no row is removed; and
    the writes of before are kept. *)
Theorem deleteNote_only_marks (depth : nat) (branch : option Branch.t) (w : World) :
  (count_active (branches w) < depth)%nat ->
  match deleteNote depth branch w with
  | Ok _ w' => only_marks w w'
  | Throw _ w' => only_marks w w'
  | OutOfFuel => False
  end.
Proof.
  intro Hdepth.
  pose proof (deleteNote_relation only_marks only_marks_refl only_marks_trans
                only_marks_save_branch only_marks_save_note depth branch w) as Hrel.
  destruct branch as [b|].
  - assert (Hfuel : match deleteNote depth (Some b) w with
                    | OutOfFuel => False
                    | _ => True
                    end).
    { pose proof (deleteNote_fuel depth b w) as H.
      destruct (deleteNote depth (Some b) w); auto. apply H. intros _.
      assert (Hle : (count_active (branches (save_branch (marked b) w))
                     <= count_active (branches w))%nat).
      { unfold save_branch. simpl. apply count_active_upsert_le. reflexivity. }
      lia. }
    destruct (deleteNote depth (Some b) w); auto.
  - destruct depth; exact Hrel.
Qed.

Lemma deleteNote_only_marks_sample :
  match deleteNote 6 (Some cascade_branch) cascade_world with
  | Ok _ w' => only_marks cascade_world w'
  | Throw _ w' => only_marks cascade_world w'
  | OutOfFuel => False
  end.
Proof.
  apply (deleteNote_only_marks 6 (Some cascade_branch) cascade_world).
  unfold count_active. simpl. lia.
Defined.

Ltac split_cascade_kept :=
  unfold cascade_kept; split; [|split; [|split]].

(** The cascade from a placement of a consistent store returns, with a depth
    above the number of non-deleted branches that remain once the branch is
    marked, cycles or not. *)
Lemma deleteNote_returns (depth : nat) :
  forall (b : Branch.t) (w : World),
    store_consistent w ->
    In (skeleton b) (map skeleton (branches w)) ->
    Branch.isDeleted b <> JNum 1 ->
    (count_active (branches (save_branch (marked b) w)) < depth)%nat ->
    exists w', deleteNote depth (Some b) w = Ok tt w' /\
               cascade_kept w w' (count_active (branches (save_branch (marked b) w))).
Proof.
  induction depth as [|d IH]; intros b w Hcons Hsk Hdel Hcount; [lia|].
  rewrite (deleteNote_step d b w Hdel).
  set (w1 := save_branch (marked b) w) in *.
  pose proof (save_branch_skeleton w b Hcons Hsk) as Hsk1. fold w1 in Hsk1.
  pose proof (save_branch_consistent w b Hcons Hsk) as Hcons1. fold w1 in Hcons1.
  destruct (save_branch_note w b Hcons Hsk) as [note [Hnote [Hid Hin]]]. fold w1 in Hnote.
  rewrite Hnote.
  destruct (getBranches note w1) as [|t l] eqn:Hgb; simpl Nat.eqb; cbv iota.
  2:{ exists w1. split; [reflexivity|]. split_cascade_kept; auto. }
  set (w2 := save_note (Note.set_isDeleted (JBool true) note) w1).
  assert (Hkeys2 : map Note.noteId (notes w2) = map Note.noteId (notes w)).
  { unfold w2, save_note. simpl. apply upsert_keys_present. simpl.
    now apply in_map. }
  assert (Hsk2 : map skeleton (branches w2) = map skeleton (branches w)) by exact Hsk1.
  assert (Hcons2 : store_consistent w2).
  { now apply (store_consistent_transfer w). }
  assert (Hloop : forall cs wc,
            store_consistent wc ->
            (forall c, In c cs -> In (skeleton c) (map skeleton (branches wc)) /\
                                  Branch.isDeleted c <> JNum 1) ->
            (forall c rest, cs = c :: rest ->
               (count_active (branches (save_branch (marked c) wc)) < d)%nat) ->
            exists w', for_of cs (fun c => deleteNote d (Some c)) wc = Ok tt w' /\
                       cascade_kept wc w' (count_active (branches wc))).
  { induction cs as [|c cs IHcs]; intros wc Hc Hcs Hhd.
    - exists wc. split; [reflexivity|]. split_cascade_kept; auto.
    - destruct (Hcs c (or_introl eq_refl)) as [Hskc Hdc].
      destruct (IH c wc Hc Hskc Hdc (Hhd c cs eq_refl)) as [w' [Hrun Hres]].
      pose proof Hres as [Hc' [Hs' [Hk' Hb']]].
      assert (Hle : (count_active (branches (save_branch (marked c) wc))
                     <= count_active (branches wc))%nat).
      { unfold save_branch. simpl. apply count_active_upsert_le. reflexivity. }
      destruct (IHcs w' Hc') as [w'' [Hrun' Hres']].
      + intros c' Hc'in. destruct (Hcs c' (or_intror Hc'in)) as [H1 H2].
        split; [|exact H2]. now rewrite Hs'.
      + intros c' rest Heq.
        assert (Hle' : (count_active (branches (save_branch (marked c') w'))
                        <= count_active (branches w'))%nat).
        { unfold save_branch. simpl. apply count_active_upsert_le. reflexivity. }
        specialize (Hhd c cs eq_refl). lia.
      + exists w''. split.
        * simpl. unfold bind. rewrite Hrun. exact Hrun'.
        * destruct Hres' as [T1 [T2 [T3 T4]]].
          split_cascade_kept; auto; try congruence. lia. }
  destruct (Hloop (getChildBranches note w2) w2 Hcons2) as [w' [Hrun Hres]].
  - intros c Hc. unfold getChildBranches, child_branches in Hc.
    apply filter_In in Hc. destruct Hc as [Hc Hch]. apply is_child_of_true in Hch.
    split; [now apply in_map|]. destruct Hch as [_ ->]. discriminate.
  - intros c rest Heq.
    assert (Hc : In c (getChildBranches note w2)) by (rewrite Heq; now left).
    unfold getChildBranches, child_branches in Hc.
    apply filter_In in Hc. destruct Hc as [Hc Hch]. apply is_child_of_true in Hch.
    assert (Hlt : (count_active (branches (save_branch (marked c) w2))
                   < count_active (branches w2))%nat).
    { unfold save_branch. simpl. apply (count_active_upsert_lt _ c); auto.
      unfold active. apply sql_eq0_true. tauto. }
    change (branches w2) with (branches w1) in Hlt. lia.
  - exists w'. split; [exact Hrun|].
    destruct Hres as [R1 [R2 [R3 R4]]].
    split_cascade_kept; auto; congruence.
Qed.

Lemma deleteNote_returns_from_store (depth : nat) (b : Branch.t) (w : World) :
  store_consistent w ->
  In (skeleton b) (map skeleton (branches w)) ->
  Branch.isDeleted b <> JNum 1 ->
  (count_active (branches w) < depth)%nat ->
  exists w', deleteNote depth (Some b) w = Ok tt w'.
Proof.
  intros Hcons Hsk Hd Hdepth.
  destruct (deleteNote_returns depth b w Hcons Hsk Hd) as [w' [Hrun _]].
  - assert (Hle : (count_active (branches (save_branch (marked b) w))
                   <= count_active (branches w))%nat).
    { unfold save_branch. simpl. apply count_active_upsert_le. reflexivity. }
    lia.
  - now exists w'.
Qed.

(** X13. [deleteNote] on a placement of a consistent store, not yet marked,
    returns, and then the store holds the branch with the deletion flag 1,
    as do all rows of its identifier; handed any of these rows, a second
    [deleteNote] does nothing: deleting a branch twice is deleting it
    once. *)
Theorem deleteNote_twice (depth : nat) (b : Branch.t) (w : World) :
  store_consistent w ->
  In (skeleton b) (map skeleton (branches w)) ->
  Branch.isDeleted b <> JNum 1 ->
  (count_active (branches w) < depth)%nat ->
  exists w',
    deleteNote depth (Some b) w = Ok tt w' /\
    (exists y, In y (branches w') /\ Branch.branchId y = Branch.branchId b) /\
    (forall y, In y (branches w') -> Branch.branchId y = Branch.branchId b ->
               Branch.isDeleted y = JNum 1 /\
               forall depth', deleteNote depth' (Some y) w' = Ok tt w').
Proof.
  intros Hcons Hsk Hd Hdepth.
  destruct (deleteNote_returns_from_store depth b w Hcons Hsk Hd Hdepth) as [w' Hrun].
  exists w'. split; [exact Hrun|].
  pose proof (deleteNote_relation_after_mark only_marks only_marks_refl only_marks_trans
                only_marks_save_branch only_marks_save_note depth b w Hd) as Hrel.
  rewrite Hrun in Hrel.
  destruct Hrel as [_ [_ [_ [_ [_ [Hrows [_ [Hkeys _]]]]]]]].
  split.
  - assert (Hk : In (Branch.branchId b)
                    (map Branch.branchId (branches (save_branch (marked b) w)))).
    { apply (in_map Branch.branchId _ (Branch.row (marked b))).
      unfold save_branch. simpl. apply In_upsert. }
    apply Hkeys in Hk. apply in_map_iff in Hk. destruct Hk as [y [Hy Hin]].
    now exists y.
  - intros y Hy Hk.
    assert (Hdel : Branch.isDeleted y = JNum 1).
    { destruct (Hrows y Hy) as [H|H]; [|exact H].
      unfold save_branch in H. simpl in H. apply In_upsert_inv in H.
      destruct H as [->|[_ Hne]]; [reflexivity|]. simpl in Hne. contradiction. }
    split; [exact Hdel|]. intro depth'. destruct depth'; simpl; rewrite Hdel; reflexivity.
Qed.

Lemma deleteNote_twice_sample :
  exists w',
    deleteNote 6 (Some cascade_branch) cascade_world = Ok tt w' /\
    (exists y, In y (branches w') /\ Branch.branchId y = "ra") /\
    (forall y, In y (branches w') -> Branch.branchId y = "ra" ->
               Branch.isDeleted y = JNum 1 /\
               forall depth', deleteNote depth' (Some y) w' = Ok tt w').
Proof.
  apply (deleteNote_twice 6 cascade_branch cascade_world cascade_world_consistent).
  - simpl. tauto.
  - discriminate.
  - unfold count_active. simpl. lia.
Defined.

Lemma getNote_save_note_other (n : Note.t) (w : World) (id : string) :
  id <> Note.noteId n -> getNote id (save_note n w) = getNote id w.
Proof.
  intro Hne. unfold getNote, save_note. simpl.
  now apply (find_key_upsert_other Note.noteId id (Note.row n)).
Qed.

(** The cascade discharges the orphans it makes: if before the call the only
    non-deleted branches under deleted notes are the branch of the call and
    those that satisfy [Q], afterwards they are those that satisfy [Q]. *)
Lemma deleteNote_orphans (depth : nat) :
  forall (b : Branch.t) (w w' : World) (Q : Branch.t -> Prop),
    orphans_satisfy (fun c => (Branch.branchId c = Branch.branchId b /\
                               Branch.isDeleted b <> JNum 1) \/ Q c) w ->
    deleteNote depth (Some b) w = Ok tt w' ->
    orphans_satisfy Q w'.
Proof.
  induction depth as [|d IH]; intros b w w' Q Horph Hrun.
  - simpl in Hrun. destruct (js_strict_eq (Branch.isDeleted b) (JNum 1)) eqn:Hd;
      [|discriminate].
    injection Hrun as <-. apply js_strict_eq_true in Hd.
    intros c Hc Ha Hu. destruct (Horph c Hc Ha Hu) as [[_ H]|H]; [contradiction|exact H].
  - destruct (js_strict_eq (Branch.isDeleted b) (JNum 1)) eqn:Hd.
    { simpl in Hrun. rewrite Hd in Hrun. injection Hrun as <-.
      apply js_strict_eq_true in Hd.
      intros c Hc Ha Hu. destruct (Horph c Hc Ha Hu) as [[_ H]|H]; [contradiction|exact H]. }
    apply js_strict_eq_false in Hd. rewrite (deleteNote_step d b w Hd) in Hrun.
    set (w1 := save_branch (marked b) w) in *.
    assert (Horph1 : orphans_satisfy Q w1).
    { intros c Hc Ha Hu. unfold w1, save_branch in Hc. simpl in Hc.
      apply In_upsert_inv in Hc. destruct Hc as [->|[Hc Hk]]; [discriminate|].
      simpl in Hk. destruct (Horph c Hc Ha Hu) as [[H _]|H]; [contradiction|exact H]. }
    destruct (getNote (Branch.noteId b) w1) as [note|] eqn:Hnote; [|discriminate].
    destruct (Nat.eqb (List.length (getBranches note w1)) 0).
    2:{ injection Hrun as <-. exact Horph1. }
    set (note' := Note.set_isDeleted (JBool true) note) in *.
    set (w2 := save_note note' w1) in *.
    set (cs := getChildBranches note w2) in *.
    assert (Horph2 : orphans_satisfy (fun c => In c cs \/ Q c) w2).
    { intros c Hc Ha [n [Hn Hdel]].
      destruct (String.eqb_spec (Branch.parentNoteId c) (Note.noteId note)) as [Hp|Hp].
      - left. unfold cs, getChildBranches, child_branches. apply filter_In.
        split; [exact Hc|]. apply is_child_of_true. now split.
      - right. apply (Horph1 c Hc Ha). exists n. split; [|exact Hdel].
        unfold w2 in Hn. rewrite getNote_save_note_other in Hn; [exact Hn|exact Hp]. }
    assert (Hcs : forall c, In c cs -> Branch.isDeleted c = JNum 0).
    { intros c Hc. unfold cs, getChildBranches, child_branches in Hc.
      apply filter_In in Hc. destruct Hc as [_ Hc]. apply is_child_of_true in Hc. tauto. }
    clearbody cs. clear Hnote Horph Horph1.
    revert Hcs Horph2 Hrun. generalize w2 as wc. clear w2.
    induction cs as [|c0 rest IHcs]; intros wc Hcs Horph2 Hrun.
    + simpl in Hrun. injection Hrun as <-.
      intros c Hc Ha Hu. destruct (Horph2 c Hc Ha Hu) as [[]|H]. exact H.
    + simpl in Hrun. unfold bind in Hrun.
      destruct (deleteNote d (Some c0) wc) as [[] w''|msg w''|] eqn:Hc0; try discriminate.
      apply (IHcs w'').
      * intros c Hc. apply Hcs. now right.
      * apply (IH c0 wc w'' (fun c => In c rest \/ Q c)); [|exact Hc0].
        intros c Hc Ha Hu. destruct (Horph2 c Hc Ha Hu) as [[Heq|Hin]|H].
        -- left. subst c0. split; [reflexivity|].
           rewrite (Hcs c (or_introl eq_refl)). discriminate.
        -- right. now left.
        -- right. now right.
      * exact Hrun.
Qed.

(** X14. When no non-deleted branch hangs under a note marked deleted, none
    does after [deleteNote] either: a note that the cascade marks takes all
    the branches below it along.  The call is on a placement of a consistent
    store and returns with any depth above the number of non-deleted
    branches. *)
Theorem deleteNote_no_orphan_branch (depth : nat) (b : Branch.t) (w : World) :
  store_consistent w ->
  no_orphan_branch w ->
  In (skeleton b) (map skeleton (branches w)) ->
  (count_active (branches w) < depth)%nat ->
  exists w', deleteNote depth (Some b) w = Ok tt w' /\ no_orphan_branch w'.
Proof.
  intros Hcons Horph Hsk Hdepth.
  assert (Hrun : exists w', deleteNote depth (Some b) w = Ok tt w').
  { destruct (js_strict_eq (Branch.isDeleted b) (JNum 1)) eqn:Hd.
    - exists w. destruct depth; simpl; rewrite Hd; reflexivity.
    - apply js_strict_eq_false in Hd.
      now apply deleteNote_returns_from_store. }
  destruct Hrun as [w' Hrun]. exists w'. split; [exact Hrun|].
  apply (deleteNote_orphans depth b w w' (fun _ => False)); [|exact Hrun].
  intros c Hc Ha Hu. exfalso. exact (Horph c Hc Ha Hu).
Qed.

Lemma cascade_world_no_orphan : no_orphan_branch cascade_world.
Proof.
  intros c Hc Ha [n [Hn Hdel]]. unfold getNote in Hn. apply find_key_some in Hn.
  destruct Hn as [Hn _]. simpl in Hn.
  repeat (destruct Hn as [<-|Hn]; [discriminate|]). destruct Hn.
Defined.

Lemma deleteNote_no_orphan_branch_sample :
  exists w', deleteNote 6 (Some cascade_branch) cascade_world = Ok tt w' /\
             no_orphan_branch w'.
Proof.
  apply (deleteNote_no_orphan_branch 6 cascade_branch cascade_world
           cascade_world_consistent cascade_world_no_orphan).
  - simpl. tauto.
  - unfold count_active. simpl. lia.
Defined.

(** ** Image reference tracker: what is tracked afterwards *)

Lemma create_fold_rows (env : Env) (note : Note.t) (ex : list NoteImage.t)
    (l : list string) (w : World) (y : NoteImage.t) :
  In y (note_images (fold_left (create_image_step env note ex) l w)) ->
  In y (note_images w) \/ NoteImage.noteId y = Note.noteId note.
Proof.
  revert w. induction l as [|id l IH]; intros w Hy; simpl in Hy; [now left|].
  destruct (IH _ Hy) as [H|H]; [|now right].
  unfold create_image_step in H. destruct (find_image id ex); [now left|].
  simpl in H. apply In_upsert_inv in H. destruct H as [->|[H _]]; [now right|now left].
Qed.

Lemma mark_fold_rows (l : list NoteImage.t) (w : World) (y : NoteImage.t) :
  In y (note_images (fold_left mark_unused_step l w)) ->
  In y (note_images w) \/ exists u, In u l /\ NoteImage.noteId y = NoteImage.noteId u.
Proof.
  revert w. induction l as [|u l IH]; intros w Hy; simpl in Hy; [now left|].
  destruct (IH _ Hy) as [H|[u' [Hu' He]]].
  - unfold mark_unused_step in H. simpl in H. apply In_upsert_inv in H.
    destruct H as [->|[H _]]; [|now left].
    right. exists u. split; [now left|reflexivity].
  - right. exists u'. split; [now right|exact He].
Qed.

(** The records of the other notes are those of before. *)
Lemma tracker_frame (env : Env) (note : Note.t) (w : World) (y : NoteImage.t) :
  image_ids_fresh env w ->
  NoteImage.noteId y <> Note.noteId note ->
  In y (note_images (save_note_images_world env note w)) <-> In y (note_images w).
Proof.
  intros Hfresh Hne. unfold save_note_images_world. split.
  - intro Hy. apply mark_fold_rows in Hy. destruct Hy as [Hy|[u [Hu He]]].
    + apply create_fold_rows in Hy. destruct Hy as [Hy|Hy]; [exact Hy|contradiction].
    + apply unused_In in Hu. destruct Hu as [Hu _]. apply getNoteImages_In in Hu.
      exfalso. apply Hne. rewrite He. tauto.
  - intro Hy. apply mark_fold_keeps.
    + apply create_fold_keeps; [exact Hy|].
      apply (existing_safe env w Hfresh y w Hy). lia.
    + intros u Hu Hk. apply unused_In in Hu. destruct Hu as [Hu _].
      apply getNoteImages_In in Hu.
      assert (u = y) by (apply (key_injective env w Hfresh); tauto).
      subst u. apply Hne. tauto.
Qed.

(** X15. After [saveNoteImages] on a text note, with unique record
    identifiers, the tracked images of the note are exactly the images its
    content refers to: every image referred to has a record that is not
    deleted, every record of the note that is not deleted is referred to;
    and the records of the other notes are the same as before. *)
Theorem saveNoteImages_tracks_content (env : Env) (note : Note.t) (w : World) :
  Note.type note = "text" ->
  image_ids_fresh env w ->
  exists w',
    saveNoteImages env note w = Ok tt w' /\
    (forall imageId,
       In imageId (map NoteImage.imageId (getNoteImages note w')) <->
       In imageId (exec_all 0 (js_to_string (Note.content note)))) /\
    (forall y, NoteImage.noteId y <> Note.noteId note ->
               (In y (note_images w') <-> In y (note_images w))).
Proof.
  intros Hty Hfresh. exists (save_note_images_world env note w).
  split; [now apply saveNoteImages_text|]. split.
  - intro imageId. split.
    + intro H. apply in_map_iff in H. destruct H as [y [<- Hy]].
      exact (tracker_sound env note w y Hy).
    + intro H. destruct (tracker_covers env note w Hfresh imageId H) as [x [Hx <-]].
      now apply in_map.
  - intros y Hne. now apply tracker_frame.
Qed.

Lemma saveNoteImages_tracks_content_sample :
  exists w',
    saveNoteImages sample_env sample_album_note sample_album_world = Ok tt w' /\
    (forall imageId,
       In imageId (map NoteImage.imageId (getNoteImages sample_album_note w')) <->
       In imageId (exec_all 0 (js_to_string (Note.content sample_album_note)))) /\
    (forall y, NoteImage.noteId y <> Note.noteId sample_album_note ->
               (In y (note_images w') <-> In y (note_images sample_album_world))).
Proof.
  exact (saveNoteImages_tracks_content sample_env sample_album_note sample_album_world
           eq_refl sample_image_ids_fresh).
Defined.

(** ** Image reference tracker: the pattern *)

Lemma strip_prefix_some (p s r : string) :
  strip_prefix p s = Some r -> s = p ++ r.
Proof.
  revert s. induction p as [|a p IH]; intros s H; simpl in H.
  - now injection H as <-.
  - destruct s as [|b s]; [discriminate|].
    destruct (Ascii.eqb_spec a b) as [<-|]; [|discriminate].
    simpl. f_equal. now apply IH.
Qed.

Lemma take_alnum_spec (s id rest : string) :
  take_alnum s = (id, rest) ->
  s = id ++ rest /\ forallb is_alnum (list_ascii_of_string id) = true.
Proof.
  revert id rest. induction s as [|c s IH]; intros id rest H; simpl in H.
  - injection H as <- <-. now split.
  - destruct (is_alnum c) eqn:Hc.
    + destruct (take_alnum s) as [id' rest'] eqn:E. injection H as <- <-.
      destruct (IH id' rest' eq_refl) as [-> Hall]. simpl. rewrite Hc. now split.
    + injection H as <- <-. now split.
Qed.

Lemma match_here_some (s id : string) (len : nat) :
  match_here s = Some (id, len) ->
  id <> EmptyString /\
  forallb is_alnum (list_ascii_of_string id) = true /\
  exists post, s = image_src_prefix ++ id ++ "/" ++ post.
Proof.
  unfold match_here. intro H.
  destruct (strip_prefix image_src_prefix s) as [r|] eqn:Hp; [|discriminate].
  apply strip_prefix_some in Hp.
  destruct (take_alnum r) as [i rest] eqn:Ht. apply take_alnum_spec in Ht.
  destruct Ht as [-> Hall].
  destruct i as [|c i]; [discriminate|].
  destruct rest as [|a rest]; [discriminate|].
  destruct a as [[] [] [] [] [] [] [] []]; try discriminate.
  injection H as <- _.
  split; [discriminate|]. split; [exact Hall|]. exists rest. exact Hp.
Qed.

(** X16. Every image identifier that the scan of the content captures is a
    non-empty run of letters and digits that the content holds between the
    literal head of an image address and a slash: nothing else in the
    content is taken for an image reference. *)
Theorem exec_all_sound (skip : nat) (s imageId : string) :
  In imageId (exec_all skip s) ->
  imageId <> EmptyString /\
  forallb is_alnum (list_ascii_of_string imageId) = true /\
  exists pre post, s = pre ++ image_src_prefix ++ imageId ++ "/" ++ post.
Proof.
  revert skip. induction s as [|c s IH]; intros skip H; [destruct H|].
  assert (Hrest : forall k, In imageId (exec_all k s) ->
            imageId <> EmptyString /\
            forallb is_alnum (list_ascii_of_string imageId) = true /\
            exists pre post, String c s = pre ++ image_src_prefix ++ imageId ++ "/" ++ post).
  { intros k Hk. destruct (IH k Hk) as [H1 [H2 [pre [post ->]]]].
    split; [exact H1|]. split; [exact H2|]. now exists (String c pre), post. }
  simpl in H. destruct skip as [|k]; [|now apply (Hrest k)].
  destruct (match_here (String c s)) as [[id len]|] eqn:Hm; [|now apply (Hrest 0%nat)].
  destruct H as [<-|H]; [|now apply (Hrest (len - 1)%nat)].
  destruct (match_here_some _ _ _ Hm) as [H1 [H2 [post Hs]]].
  split; [exact H1|]. split; [exact H2|]. now exists EmptyString, post.
Qed.

Lemma exec_all_sound_sample :
  "Zz9" <> EmptyString /\
  forallb is_alnum (list_ascii_of_string "Zz9") = true /\
  exists pre post,
    js_to_string (Note.content sample_album_note)
    = pre ++ image_src_prefix ++ "Zz9" ++ "/" ++ post.
Proof.
  apply (exec_all_sound 0 (js_to_string (Note.content sample_album_note)) "Zz9").
  vm_compute. tauto.
Defined.

(** ** Protection propagator: any flag *)

Lemma to_sql_idempotent (v : jsval) : to_sql (to_sql v) = to_sql v.
Proof. destruct v as [| |[]| |]; reflexivity. Qed.

Section AlignRevisions.
Variable note : Note.t.

Let key := NoteRevision.noteRevisionId.
Let aligned (y : NoteRevision.t) : Prop :=
  to_sql (NoteRevision.isProtected y) = to_sql (Note.isProtected note).

Lemma align_step_rows (w : World) (u y : NoteRevision.t) :
  In y (note_revisions (protect_revision_step note w u)) ->
  (y = NoteRevision.row (NoteRevision.set_isProtected (Note.isProtected note) u)) \/
  (In y (note_revisions w) /\
   (key y = key u ->
    js_strict_eq (Note.isProtected note) (NoteRevision.isProtected u) = true)).
Proof.
  unfold protect_revision_step.
  destruct (js_strict_eq (Note.isProtected note) (NoteRevision.isProtected u)) eqn:E; simpl.
  - intro Hy. right. now split.
  - intro Hy. apply In_upsert_inv in Hy. destruct Hy as [->|[Hy Hk]].
    + now left.
    + right. split; [exact Hy|]. intro He. simpl in Hk. contradiction.
Qed.

(** A row agrees with the note at the end when a revision of the loop with
    its identifier still has to be written. *)
Lemma align_fold_pending (l : list NoteRevision.t) (w : World) (y : NoteRevision.t) :
  (In y (note_revisions w) ->
   aligned y \/
   exists u, In u l /\ key u = key y /\
             js_strict_eq (Note.isProtected note) (NoteRevision.isProtected u) = false) ->
  In y (note_revisions (fold_left (protect_revision_step note) l w)) ->
  aligned y.
Proof.
  revert w. induction l as [|u l IH]; intros w Hw Hy; simpl in Hy.
  - destruct (Hw Hy) as [H|[u [[] _]]]. exact H.
  - apply (IH (protect_revision_step note w u)); [|exact Hy].
    intros Hz.
    destruct (align_step_rows w u y Hz) as [->|[Hin Hu]].
    + left. unfold aligned. simpl. apply to_sql_idempotent.
    + destruct (Hw Hin) as [H|[u' [[<-|Hu'] [Hk' Hp']]]].
      * now left.
      * rewrite (Hu (eq_sym Hk')) in Hp'. discriminate.
      * right. now exists u'.
Qed.

Lemma align_fold_keys (l : list NoteRevision.t) (w : World) :
  (forall u, In u l -> In (key u) (map key (note_revisions w))) ->
  map key (note_revisions (fold_left (protect_revision_step note) l w))
  = map key (note_revisions w).
Proof.
  revert w. induction l as [|u l IH]; intros w Hl; simpl; [reflexivity|].
  assert (Hstep : map key (note_revisions (protect_revision_step note w u))
                  = map key (note_revisions w)).
  { unfold protect_revision_step. destruct (negb _); [|reflexivity]. simpl.
    apply upsert_keys_present. simpl. apply Hl. now left. }
  rewrite IH; [exact Hstep|].
  intros u' Hu'. rewrite Hstep. apply Hl. now right.
Qed.

Lemma align_fold_rows (l : list NoteRevision.t) (w : World) (y : NoteRevision.t) :
  In y (note_revisions (fold_left (protect_revision_step note) l w)) ->
  In y (note_revisions w) \/ exists u, In u l /\ NoteRevision.noteId y = NoteRevision.noteId u.
Proof.
  revert w. induction l as [|u l IH]; intros w Hy; simpl in Hy; [now left|].
  destruct (IH _ Hy) as [H|[u' [Hu' He]]].
  - destruct (align_step_rows w u y H) as [->|[Hin _]]; [|now left].
    right. exists u. split; [now left|reflexivity].
  - right. exists u'. split; [now right|exact He].
Qed.

Lemma align_fold_keeps (l : list NoteRevision.t) (w : World) (y : NoteRevision.t) :
  In y (note_revisions w) ->
  (forall u, In u l -> key u <> key y) ->
  In y (note_revisions (fold_left (protect_revision_step note) l w)).
Proof.
  revert w. induction l as [|u l IH]; intros w Hy Hl; simpl; [exact Hy|].
  apply IH.
  - unfold protect_revision_step. destruct (negb _); [|exact Hy]. simpl.
    apply In_upsert_other; [exact Hy|]. simpl. intro He. apply (Hl u); [now left|].
    now symmetry.
  - intros u' Hu'. apply Hl. now right.
Qed.

Lemma getRevisions_In (w : World) (r : NoteRevision.t) :
  In r (getRevisions note w) <->
  In r (note_revisions w) /\ NoteRevision.noteId r = Note.noteId note.
Proof. unfold getRevisions. now rewrite filter_In, String.eqb_eq. Qed.

Lemma protectNoteRevisions_aligned (w : World) (y : NoteRevision.t) :
  In y (note_revisions (fold_left (protect_revision_step note) (getRevisions note w) w)) ->
  NoteRevision.noteId y = Note.noteId note ->
  aligned y.
Proof.
  intros Hy Hid. apply (align_fold_pending (getRevisions note w) w); [|exact Hy].
  intro Hin.
  destruct (js_strict_eq (Note.isProtected note) (NoteRevision.isProtected y)) eqn:E.
  - left. apply js_strict_eq_true in E. unfold aligned. now rewrite E.
  - right. exists y. split; [|split; [reflexivity|exact E]].
    now apply getRevisions_In.
Qed.

End AlignRevisions.

(** X17. [protectNoteRevisions] brings every revision of the note to the
    protection flag of the note, whether the flag is set or cleared: in the
    store the flag of each revision of the note is then the flag of the
    note, as columns hold it.  No revision is added or removed, and,
    revision identifiers being unique, the revisions of the other notes are
    the same as before. *)
Theorem protectNoteRevisions_aligns (note : Note.t) (w : World) :
  NoDup (map NoteRevision.noteRevisionId (note_revisions w)) ->
  exists w',
    protectNoteRevisions note w = Ok tt w' /\
    map NoteRevision.noteRevisionId (note_revisions w')
    = map NoteRevision.noteRevisionId (note_revisions w) /\
    (forall y, In y (note_revisions w') ->
               NoteRevision.noteId y = Note.noteId note ->
               to_sql (NoteRevision.isProtected y) = to_sql (Note.isProtected note)) /\
    (forall y, NoteRevision.noteId y <> Note.noteId note ->
               (In y (note_revisions w') <-> In y (note_revisions w))).
Proof.
  intro Hnd. rewrite protectNoteRevisions_eq. eexists. split; [reflexivity|].
  split; [|split].
  - apply align_fold_keys. intros u Hu. apply getRevisions_In in Hu.
    apply in_map. tauto.
  - intros y. apply protectNoteRevisions_aligned.
  - intros y Hne. split.
    + intro Hy. apply align_fold_rows in Hy. destruct Hy as [Hy|[u [Hu He]]]; [exact Hy|].
      apply getRevisions_In in Hu. exfalso. apply Hne. rewrite He. tauto.
    + intro Hy. apply align_fold_keeps; [exact Hy|].
      intros u Hu Hk. apply getRevisions_In in Hu. destruct Hu as [Hu Hid].
      assert (u = y).
      { apply (NoDup_key_injective NoteRevision.noteRevisionId (note_revisions w)); auto. }
      subst u. contradiction.
Qed.

Lemma protectNoteRevisions_aligns_sample :
  exists w',
    protectNoteRevisions sample_note sample_revision_world = Ok tt w' /\
    map NoteRevision.noteRevisionId (note_revisions w') = ["r1"; "r2"; "r3"] /\
    (forall y, In y (note_revisions w') ->
               NoteRevision.noteId y = "n1" ->
               to_sql (NoteRevision.isProtected y) = JNum 0) /\
    (forall y, NoteRevision.noteId y <> "n1" ->
               (In y (note_revisions w') <-> In y (note_revisions sample_revision_world))).
Proof.
  apply (protectNoteRevisions_aligns sample_note sample_revision_world).
  simpl. repeat constructor; simpl; intuition discriminate.
Defined.

(** ** Note update: what the last two steps leave *)

Lemma get_prop_set_prop_other (name name' : string) (v : jsval) (o : jsobject) :
  name <> name' -> get_prop (set_prop name' v o) name = get_prop o name.
Proof.
  intro Hne. unfold get_prop, set_prop.
  now rewrite (find_key_upsert_other fst name (name', v) o).
Qed.

Lemma save_note_revision_world_images (env : Env) (note : Note.t) (w : World) :
  note_images (save_note_revision_world env note w) = note_images w /\
  generated (save_note_revision_world env note w) = generated w.
Proof.
  unfold save_note_revision_world. destruct (_ && _ && _ && _); simpl; auto.
Qed.

Lemma image_ids_fresh_transfer (env : Env) (w w' : World) :
  note_images w' = note_images w -> generated w' = generated w ->
  image_ids_fresh env w -> image_ids_fresh env w'.
Proof. unfold image_ids_fresh. intros -> ->. auto. Qed.

(** The store after [updateNote]: the loop of [protectNoteRevisions] over
    the store that [saveNoteImages] leaves. *)
Lemma updateNote_stages (env : Env) (noteId : string) (noteUpdates : jsobject)
    (w : World) (note : Note.t) :
  getNote noteId w = Some note ->
  let updates :=
    if String.eqb (Note.type note) "file"
    then set_prop "content" (Note.content note) noteUpdates
    else noteUpdates in
  let written :=
    Note.mk (Note.noteId note) (get_prop updates "title") (get_prop updates "content")
            (Note.type note) (Note.mime note) (get_prop updates "isProtected")
            (Note.isDeleted note) (Note.dateCreated note) (Note.dateModified note) in
  let w2 := save_note written (save_note_revision_world env note w) in
  exists w3,
    saveNoteImages env written w2 = Ok tt w3 /\
    note_revisions w3 = note_revisions w2 /\
    updateNote env noteId noteUpdates w
    = Ok tt (fold_left (protect_revision_step written) (getRevisions written w3) w3).
Proof.
  intros Hnote updates written w2.
  destruct (saveNoteImages_run env written w2) as [w3 [Hrun3 [_ [Hr3 _]]]].
  exists w3. split; [exact Hrun3|]. split; [exact Hr3|].
  unfold updateNote, bind, get. rewrite Hnote. fold updates.
  rewrite saveNoteRevision_eq. unfold modify.
  change (Note.set_isProtected (get_prop updates "isProtected")
            (Note.set_content (get_prop updates "content")
               (Note.set_title (get_prop updates "title") note))) with written.
  fold w2. rewrite Hrun3. apply protectNoteRevisions_eq.
Qed.

(** A row of the table has, after the loop, a row with its identifier that
    is the row itself or the image of a revision of the loop. *)
Lemma align_fold_tracks (note : Note.t) (l : list NoteRevision.t) (w : World)
    (x : NoteRevision.t) :
  In x (note_revisions w) ->
  exists y, In y (note_revisions (fold_left (protect_revision_step note) l w)) /\
            NoteRevision.noteRevisionId y = NoteRevision.noteRevisionId x /\
            (y = x \/
             exists u, In u l /\
               y = NoteRevision.row (NoteRevision.set_isProtected (Note.isProtected note) u)).
Proof.
  revert w x. induction l as [|u l IH]; intros w x Hx; simpl.
  - exists x. auto.
  - assert (Hstep : exists x1, In x1 (note_revisions (protect_revision_step note w u)) /\
                      NoteRevision.noteRevisionId x1 = NoteRevision.noteRevisionId x /\
                      (x1 = x \/
                       x1 = NoteRevision.row
                              (NoteRevision.set_isProtected (Note.isProtected note) u))).
    { unfold protect_revision_step. destruct (negb _); [|exists x; auto]. simpl.
      destruct (String.eqb_spec (NoteRevision.noteRevisionId x)
                                (NoteRevision.noteRevisionId u)) as [He|Hne].
      - eexists. split; [apply In_upsert|]. split; [simpl; now symmetry|now right].
      - exists x. split; [|auto]. now apply In_upsert_other. }
    destruct Hstep as [x1 [Hx1 [Hk1 Hc1]]].
    destruct (IH _ x1 Hx1) as [y [Hy [Hk Hc]]].
    exists y. split; [exact Hy|]. split; [congruence|].
    destruct Hc as [->|[u' [Hu' ->]]].
    + destruct Hc1 as [-> | ->]; [now left|]. right. exists u. split; [now left|reflexivity].
    + right. exists u'. split; [now right|reflexivity].
Qed.

(** X18. After [updateNote] every revision of the note carries the
    protection flag of the update object, as columns hold it (NULL when the
    update object has none).  This includes the snapshot that the call
    itself takes, which is created with the flag 0: when a snapshot is due,
    the store holds a revision of the note with the newly generated
    identifier. *)
Theorem updateNote_revisions_follow_flag (env : Env) (noteId : string)
    (noteUpdates : jsobject) (w : World) (note : Note.t) :
  getNote noteId w = Some note ->
  exists w',
    updateNote env noteId noteUpdates w = Ok tt w' /\
    (forall y, In y (note_revisions w') -> NoteRevision.noteId y = noteId ->
               to_sql (NoteRevision.isProtected y)
               = to_sql (get_prop noteUpdates "isProtected")) /\
    (revision_ids_nonempty w -> ~ snapshot_skipped env note w ->
     exists y, In y (note_revisions w') /\
               NoteRevision.noteRevisionId y = newNoteRevisionId env /\
               NoteRevision.noteId y = noteId).
Proof.
  intro Hnote.
  destruct (updateNote_stages env noteId noteUpdates w note Hnote)
    as [w3 [Hrun3 [Hr3 Hrun]]].
  assert (Hid : Note.noteId note = noteId).
  { apply find_key_some in Hnote. tauto. }
  set (updates := if String.eqb (Note.type note) "file"
                  then set_prop "content" (Note.content note) noteUpdates
                  else noteUpdates) in *.
  set (written := Note.mk _ _ _ _ _ _ _ _ _) in *.
  assert (Hflag : Note.isProtected written = get_prop noteUpdates "isProtected").
  { unfold written, updates. simpl. destruct (String.eqb (Note.type note) "file");
      [|reflexivity]. now apply get_prop_set_prop_other. }
  eexists. split; [exact Hrun|]. split.
  - intros y Hy Hy'. rewrite <- Hflag.
    apply (protectNoteRevisions_aligned written w3 y Hy). simpl. congruence.
  - intros Hne Hdue.
    assert (Hin : In (NoteRevision.row (new_revision env note)) (note_revisions w3)).
    { rewrite Hr3. simpl.
      rewrite (proj2 (snapshot_decision env note w Hne) Hdue). simpl. apply In_upsert. }
    destruct (align_fold_tracks written (getRevisions written w3) w3 _ Hin)
      as [y [Hy [Hk Hc]]].
    exists y. split; [exact Hy|]. split; [exact Hk|].
    destruct Hc as [->|[u [Hu ->]]]; [exact Hid|].
    apply getRevisions_In in Hu. simpl. destruct Hu as [_ ->]. exact Hid.
Qed.

Lemma sample_snapshot_due :
  revision_ids_nonempty sample_note_world /\
  ~ snapshot_skipped sample_env sample_note sample_note_world.
Proof.
  split.
  - intros r [<-|[]]. discriminate.
  - intros [H|[H|[[r [[<-|[]] [_ H]]]|H]]]; try discriminate; simpl in H; lia.
Defined.

Lemma updateNote_revisions_follow_flag_sample :
  exists w',
    updateNote sample_env "n1" [("title", JStr "T"); ("isProtected", JBool true)]
               sample_note_world = Ok tt w' /\
    (forall y, In y (note_revisions w') -> NoteRevision.noteId y = "n1" ->
               to_sql (NoteRevision.isProtected y) = JNum 1) /\
    (exists y, In y (note_revisions w') /\
               NoteRevision.noteRevisionId y = "rev2" /\
               NoteRevision.noteId y = "n1").
Proof.
  destruct (updateNote_revisions_follow_flag sample_env "n1"
              [("title", JStr "T"); ("isProtected", JBool true)]
              sample_note_world sample_note eq_refl) as [w' [H1 [H2 H3]]].
  exists w'. split; [exact H1|]. split; [exact H2|].
  exact (H3 (proj1 sample_snapshot_due) (proj2 sample_snapshot_due)).
Defined.

(** X19. After [updateNote] on a text note, with unique image record
    identifiers, the tracked images of the note are exactly the images that
    the content of the update object refers to; an update object without
    content leaves the note with no tracked image.  The image records of the
    other notes are the same as before. *)
Theorem updateNote_tracks_content (env : Env) (noteId : string)
    (noteUpdates : jsobject) (w : World) (note : Note.t) :
  getNote noteId w = Some note ->
  Note.type note = "text" ->
  image_ids_fresh env w ->
  exists w',
    updateNote env noteId noteUpdates w = Ok tt w' /\
    (forall imageId,
       In imageId (map NoteImage.imageId (getNoteImages note w')) <->
       In imageId (exec_all 0 (js_to_string (get_prop noteUpdates "content")))) /\
    (get_prop noteUpdates "content" = JUndefined -> getNoteImages note w' = []) /\
    (forall y, NoteImage.noteId y <> noteId ->
               (In y (note_images w') <-> In y (note_images w))).
Proof.
  intros Hnote Hty Hfresh.
  destruct (updateNote_stages env noteId noteUpdates w note Hnote)
    as [w3 [Hrun3 [_ Hrun]]].
  assert (Hid : Note.noteId note = noteId).
  { apply find_key_some in Hnote. tauto. }
  rewrite Hty in Hrun3, Hrun. simpl String.eqb in Hrun3, Hrun. cbv iota in Hrun3, Hrun.
  set (written := Note.mk _ _ _ _ _ _ _ _ _) in *.
  set (w2 := save_note written (save_note_revision_world env note w)) in *.
  assert (Hfresh2 : image_ids_fresh env w2).
  { destruct (save_note_revision_world_images env note w) as [Hi Hg].
    apply (image_ids_fresh_transfer env w); [exact Hi|exact Hg|exact Hfresh]. }
  assert (Hi2 : note_images w2 = note_images w).
  { apply (save_note_revision_world_images env note w). }
  rewrite (saveNoteImages_text env written w2 eq_refl) in Hrun3.
  injection Hrun3 as <-.
  set (w3 := save_note_images_world env written w2) in *.
  set (w4 := fold_left (protect_revision_step written) (getRevisions written w3) w3) in *.
  assert (Hi4 : note_images w4 = note_images w3).
  { unfold w4. apply fold_left_frame. intros w0 r. unfold protect_revision_step.
    destruct (negb _); reflexivity. }
  assert (Hg4 : getNoteImages note w4 = getNoteImages written w3).
  { unfold getNoteImages. now rewrite Hi4. }
  assert (Htracked : forall imageId,
            In imageId (map NoteImage.imageId (getNoteImages note w4)) <->
            In imageId (exec_all 0 (js_to_string (get_prop noteUpdates "content")))).
  { intro imageId. rewrite Hg4. split.
    - intro H. apply in_map_iff in H. destruct H as [y [<- Hy]].
      exact (tracker_sound env written w2 y Hy).
    - intro H. destruct (tracker_covers env written w2 Hfresh2 imageId H) as [x [Hx <-]].
      now apply in_map. }
  exists w4. split; [exact Hrun|]. split; [exact Htracked|]. split.
  - intro Hc. rewrite Hc in Htracked.
    destruct (getNoteImages note w4) as [|x l]; [reflexivity|].
    exfalso. apply (Htracked (NoteImage.imageId x)). now left.
  - intros y Hne. rewrite Hi4, <- Hi2.
    apply (tracker_frame env written w2 y Hfresh2). simpl. congruence.
Qed.

Lemma updateNote_tracks_content_sample :
  exists w',
    updateNote sample_env "n1" [("title", JStr "Album")] sample_album_world = Ok tt w' /\
    getNoteImages sample_album_note w' = [] /\
    (forall y, NoteImage.noteId y <> "n1" ->
               (In y (note_images w') <-> In y (note_images sample_album_world))).
Proof.
  destruct (updateNote_tracks_content sample_env "n1" [("title", JStr "Album")]
              sample_album_world sample_album_note eq_refl eq_refl sample_image_ids_fresh)
    as [w' [H1 [_ [H2 H3]]]].
  exists w'. split; [exact H1|]. split; [exact (H2 eq_refl)|exact H3].
Defined.

(** ** Revision snapshot policy: one snapshot for an interval *)

(** X20. A snapshot that [saveNoteRevision] takes holds the next ones back:
    a later call for the same note, made while the time stamp of the
    snapshot is not older than its interval, finds the snapshot and writes
    nothing.  Updates in quick succession leave one revision. *)
Theorem saveNoteRevision_once_per_interval (env env' : Env) (note note' : Note.t)
    (w : World) :
  revision_ids_nonempty w ->
  newNoteRevisionId env <> EmptyString ->
  ~ snapshot_skipped env note w ->
  Note.noteId note' = Note.noteId note ->
  now env' - noteRevisionSnapshotTimeInterval env' * 1000 <= nowDate env ->
  exists w1,
    saveNoteRevision env note w = Ok tt w1 /\
    (exists r, In r (note_revisions w1) /\
               NoteRevision.noteRevisionId r = newNoteRevisionId env) /\
    saveNoteRevision env' note' w1 = Ok tt w1.
Proof.
  intros Hne Hid Hdue Hnote Hclock.
  rewrite saveNoteRevision_eq.
  rewrite (proj2 (snapshot_decision env note w Hne) Hdue).
  set (w1 := save_note_revision (new_revision env note) w).
  assert (Hin : In (NoteRevision.row (new_revision env note)) (note_revisions w1)).
  { unfold w1. simpl. apply In_upsert. }
  exists w1. split; [reflexivity|]. split.
  - eexists. split; [exact Hin|reflexivity].
  - assert (Hne1 : revision_ids_nonempty w1).
    { intros r Hr. unfold w1 in Hr. simpl in Hr. apply In_upsert_inv in Hr.
      destruct Hr as [->|[Hr _]]; [exact Hid|now apply Hne]. }
    rewrite saveNoteRevision_eq.
    rewrite (proj1 (snapshot_decision env' note' w1 Hne1)); [reflexivity|].
    right. right. left. eexists. split; [exact Hin|]. split; [now rewrite Hnote|].
    exact Hclock.
Qed.

Lemma saveNoteRevision_once_per_interval_sample :
  exists w1,
    saveNoteRevision sample_env sample_note sample_note_world = Ok tt w1 /\
    (exists r, In r (note_revisions w1) /\ NoteRevision.noteRevisionId r = "rev2") /\
    saveNoteRevision (mkEnv 1300000 1300005 600 "rev3" (newNoteImageId sample_env))
                     sample_note w1 = Ok tt w1.
Proof.
  apply (saveNoteRevision_once_per_interval sample_env
           (mkEnv 1300000 1300005 600 "rev3" (newNoteImageId sample_env))
           sample_note sample_note sample_note_world).
  - exact (proj1 sample_snapshot_due).
  - discriminate.
  - exact (proj2 sample_snapshot_due).
  - reflexivity.
  - simpl. lia.
Defined.

(** ** Note update: what it leaves alone *)

(** X21. [updateNote] fails exactly when the store has no note with the
    identifier, and then nothing was written.  When it returns, the
    placements, the labels and the reorder notifications are those of
    before, no note was added or removed, and every other note reads as
    before. *)
Theorem updateNote_frame (env : Env) (noteId : string) (noteUpdates : jsobject)
    (w : World) :
  match updateNote env noteId noteUpdates w with
  | Ok _ w' =>
      getNote noteId w <> None /\
      branches w' = branches w /\
      labels w' = labels w /\
      reorderings w' = reorderings w /\
      map Note.noteId (notes w') = map Note.noteId (notes w) /\
      (forall id, id <> noteId -> getNote id w' = getNote id w)
  | Throw _ w' => getNote noteId w = None /\ w' = w
  | OutOfFuel => False
  end.
Proof.
  destruct (getNote noteId w) as [note|] eqn:Hnote.
  2:{ unfold updateNote, bind, get. rewrite Hnote. now split. }
  destruct (updateNote_stages env noteId noteUpdates w note Hnote)
    as [w3 [Hrun3 [_ Hrun]]].
  assert (Hid : Note.noteId note = noteId).
  { apply find_key_some in Hnote. tauto. }
  rewrite Hrun.
  set (written := Note.mk _ _ _ _ _ _ _ _ _) in *.
  set (w1 := save_note_revision_world env note w) in *.
  assert (Hframe : forall T (proj : World -> T),
            (forall w0 r, proj (save_note_revision r w0) = proj w0) ->
            (forall w0 i, proj (save_note_image i w0) = proj w0) ->
            (forall w0 n, proj (with_generated n w0) = proj w0) ->
            proj (fold_left (protect_revision_step written) (getRevisions written w3) w3)
            = proj (save_note written w1)).
  { intros T proj H1 H2 H3.
    rewrite (fold_left_frame proj (protect_revision_step written)).
    2:{ intros w0 r. unfold protect_revision_step. destruct (negb _); auto. }
    destruct (String.eqb (Note.type written) "text") eqn:Hty.
    - apply String.eqb_eq in Hty. rewrite (saveNoteImages_text env written _ Hty) in Hrun3.
      injection Hrun3 as <-. unfold save_note_images_world.
      rewrite (fold_left_frame proj mark_unused_step); [|intros; apply H2].
      apply fold_left_frame. intros w0 x. unfold create_image_step.
      destruct (find_image x _); [reflexivity|]. now rewrite H2, H3.
    - apply String.eqb_neq in Hty.
      rewrite (saveNoteImages_not_text env written _ Hty) in Hrun3.
      now injection Hrun3 as <-. }
  assert (Hw1 : forall T (proj : World -> T),
            (forall w0 r, proj (save_note_revision r w0) = proj w0) ->
            proj w1 = proj w).
  { intros T proj H. unfold w1, save_note_revision_world.
    destruct (_ && _ && _ && _); auto. }
  split; [discriminate|].
  split; [rewrite (Hframe _ branches); auto; simpl; apply (Hw1 _ branches); auto|].
  split; [rewrite (Hframe _ labels); auto; simpl; apply (Hw1 _ labels); auto|].
  split; [rewrite (Hframe _ reorderings); auto; simpl; apply (Hw1 _ reorderings); auto|].
  assert (Hnotes : notes (fold_left (protect_revision_step written)
                            (getRevisions written w3) w3)
                   = upsert Note.noteId (Note.row written) (notes w)).
  { rewrite (Hframe _ notes); auto. simpl. now rewrite (Hw1 _ notes). }
  split.
  - rewrite Hnotes. apply upsert_keys_present. simpl. rewrite Hid.
    exact (find_key_key_In _ _ _ _ Hnote).
  - intros id Hne. unfold getNote. rewrite Hnotes.
    apply find_key_upsert_other. simpl. congruence.
Qed.

(** ** Protection propagator: one note, any flag *)

Lemma same_note_but_flag_refl (n : Note.t) : same_note_but_flag n n.
Proof. unfold same_note_but_flag. tauto. Qed.

Lemma same_note_but_flag_written (protect : jsval) (n obj : Note.t) :
  same_note_but_flag n obj ->
  same_note_but_flag n (Note.row (Note.set_isProtected protect obj)).
Proof.
  unfold same_note_but_flag. simpl. rewrite !to_sql_idempotent. tauto.
Qed.

Lemma same_revision_but_flag_refl (r : NoteRevision.t) : same_revision_but_flag r r.
Proof. unfold same_revision_but_flag. tauto. Qed.

Lemma same_revision_but_flag_written (protect : jsval) (r u : NoteRevision.t) :
  same_revision_but_flag r u ->
  same_revision_but_flag r (NoteRevision.row (NoteRevision.set_isProtected protect u)).
Proof.
  unfold same_revision_but_flag. simpl. rewrite !to_sql_idempotent. tauto.
Qed.

(** X22. [protectNote] on a note read from the store, with any flag, returns
    the note object with that flag; afterwards the store holds the note
    with the flag as its column, otherwise as it was, and every revision of
    the note with the same flag; every other note reads as before. *)
Theorem protectNote_sets_flag (note : Note.t) (protect : jsval) (w : World) :
  getNote (Note.noteId note) w = Some note ->
  exists note' w',
    protectNote note protect w = Ok note' w' /\
    Note.isProtected note' = protect /\
    (exists n, getNote (Note.noteId note) w' = Some n /\
               to_sql (Note.isProtected n) = to_sql protect /\
               same_note_but_flag note n) /\
    (forall y, In y (note_revisions w') ->
               NoteRevision.noteId y = Note.noteId note ->
               to_sql (NoteRevision.isProtected y) = to_sql protect) /\
    (forall id, id <> Note.noteId note -> getNote id w' = getNote id w).
Proof.
  intro Hnote. unfold protectNote, bind.
  assert (Hnotes : forall n0 w0,
            notes (fold_left (protect_revision_step n0) (getRevisions n0 w0) w0) = notes w0).
  { intros n0 w0. apply fold_left_frame. intros w1 r. unfold protect_revision_step.
    destruct (negb _); reflexivity. }
  destruct (js_strict_eq protect (Note.isProtected note)) eqn:E; simpl.
  - apply js_strict_eq_true in E. unfold ret at 1.
    rewrite protectNoteRevisions_eq. eexists. eexists. split; [reflexivity|].
    split; [now symmetry|]. split; [|split].
    + exists note. unfold getNote. rewrite Hnotes. split; [exact Hnote|].
      split; [now rewrite E|apply same_note_but_flag_refl].
    + intros y Hy Hid. rewrite E. exact (protectNoteRevisions_aligned note w y Hy Hid).
    + intros id _. unfold getNote. now rewrite Hnotes.
  - unfold modify, ret. rewrite protectNoteRevisions_eq.
    set (note' := Note.set_isProtected protect note).
    set (w1 := save_note note' w).
    eexists. eexists. split; [reflexivity|]. split; [reflexivity|]. split; [|split].
    + exists (Note.row note'). unfold getNote. rewrite Hnotes. split.
      * exact (getNote_save_note note' w).
      * split; [simpl; apply to_sql_idempotent|].
        apply same_note_but_flag_written, same_note_but_flag_refl.
    + intros y Hy Hid. exact (protectNoteRevisions_aligned note' w1 y Hy Hid).
    + intros id Hne. unfold getNote. rewrite Hnotes.
      exact (getNote_save_note_other note' w id Hne).
Qed.

Lemma protectNote_sets_flag_sample :
  exists note' w',
    protectNote sample_note (JBool true) sample_note_world = Ok note' w' /\
    Note.isProtected note' = JBool true /\
    (exists n, getNote "n1" w' = Some n /\
               to_sql (Note.isProtected n) = JNum 1 /\
               same_note_but_flag sample_note n) /\
    (forall y, In y (note_revisions w') ->
               NoteRevision.noteId y = "n1" ->
               to_sql (NoteRevision.isProtected y) = JNum 1) /\
    (forall id, id <> "n1" -> getNote id w' = getNote id sample_note_world).
Proof.
  exact (protectNote_sets_flag sample_note (JBool true) sample_note_world eq_refl).
Defined.

(** ** Protection propagator: what it leaves alone *)

Lemma only_flags_refl (w : World) : only_flags w w.
Proof.
  unfold only_flags. repeat (split; [reflexivity|]). split.
  - intros n Hn. exists n. split; [exact Hn|apply same_note_but_flag_refl].
  - intros r Hr. exists r. split; [exact Hr|apply same_revision_but_flag_refl].
Qed.

Ltac split_only_flags :=
  unfold only_flags;
  split; [|split; [|split; [|split; [|split; [|split; [|split; [|split]]]]]]].

Lemma only_flags_save_note (protect : jsval) (obj : Note.t) (w0 w : World) :
  only_flags w0 w ->
  (exists n, In n (notes w0) /\ same_note_but_flag n obj) ->
  only_flags w0 (save_note (Note.set_isProtected protect obj) w).
Proof.
  intros [B [I [L [R [G [K [KR [N V]]]]]]]] [n [Hn Hrel]].
  split_only_flags; simpl; auto.
  - rewrite <- K. apply upsert_keys_present. simpl. rewrite K.
    destruct Hrel as [-> _]. now apply in_map.
  - intros n' Hn'. apply In_upsert_inv in Hn'. destruct Hn' as [->|[Hn' _]]; [|now apply N].
    exists n. split; [exact Hn|]. now apply same_note_but_flag_written.
Qed.

Lemma only_flags_protect_fold (note : Note.t) (w0 : World) (l : list NoteRevision.t) :
  forall w,
    only_flags w0 w ->
    (forall u, In u l -> exists r, In r (note_revisions w0) /\ same_revision_but_flag r u) ->
    only_flags w0 (fold_left (protect_revision_step note) l w).
Proof.
  induction l as [|u l IH]; intros w Hw Hl; simpl; [exact Hw|].
  apply IH; [|intros u' Hu'; apply Hl; now right].
  unfold protect_revision_step. destruct (negb _); [|exact Hw].
  destruct Hw as [B [I [L [R [G [K [KR [N V]]]]]]]].
  destruct (Hl u (or_introl eq_refl)) as [r [Hr Hrel]].
  split_only_flags; simpl; auto.
  - rewrite <- KR. apply upsert_keys_present. simpl. rewrite KR.
    destruct Hrel as [-> _]. now apply in_map.
  - intros r' Hr'. apply In_upsert_inv in Hr'. destruct Hr' as [->|[Hr' _]]; [|now apply V].
    exists r. split; [exact Hr|]. now apply same_revision_but_flag_written.
Qed.

Lemma only_flags_protectNoteRevisions (note : Note.t) (w0 w : World) :
  only_flags w0 w ->
  only_flags w0 (fold_left (protect_revision_step note) (getRevisions note w) w).
Proof.
  intro Hw. apply only_flags_protect_fold; [exact Hw|].
  intros u Hu. apply getRevisions_In in Hu. destruct Hu as [Hu _].
  destruct Hw as [_ [_ [_ [_ [_ [_ [_ [_ V]]]]]]]]. now apply V.
Qed.

Lemma protectNote_only_flags (note : Note.t) (protect : jsval) (w0 w : World) :
  only_flags w0 w ->
  (exists n, In n (notes w0) /\ same_note_but_flag n note) ->
  exists note' w1,
    protectNote note protect w = Ok note' w1 /\
    Note.noteId note' = Note.noteId note /\
    only_flags w0 w1.
Proof.
  intros Hw Hobj. unfold protectNote, bind.
  destruct (js_strict_eq protect (Note.isProtected note)); simpl.
  - unfold ret at 1. rewrite protectNoteRevisions_eq.
    eexists. eexists. split; [reflexivity|]. split; [reflexivity|].
    now apply only_flags_protectNoteRevisions.
  - unfold modify, ret. rewrite protectNoteRevisions_eq.
    eexists. eexists. split; [reflexivity|]. split; [reflexivity|].
    apply only_flags_protectNoteRevisions. now apply only_flags_save_note.
Qed.

Lemma protectNoteRecursively_keeps (rank : string -> nat) (protect : jsval)
    (w0 : World) (depth : nat) :
  forall (note : Note.t) (w : World),
    acyclic rank w0 ->
    only_flags w0 w ->
    (exists n, In n (notes w0) /\ same_note_but_flag n note) ->
    (rank (Note.noteId note) < depth)%nat ->
    exists w', protectNoteRecursively depth note protect w = Ok tt w' /\ only_flags w0 w'.
Proof.
  induction depth as [|d IH]; intros note w Hacy Hw Hobj Hrank; [lia|].
  cbn [protectNoteRecursively]. unfold bind at 1.
  destruct (protectNote_only_flags note protect w0 w Hw Hobj)
    as [note' [w1 [Hrun [Hid Hw1]]]].
  rewrite Hrun. unfold bind, get.
  assert (Hchildren : forall c, In c (getChildNotes note' w1) ->
            (exists n, In n (notes w0) /\ same_note_but_flag n c) /\
            (rank (Note.noteId c) < d)%nat).
  { intros c Hc. apply getChildNotes_In in Hc.
    destruct Hc as [Hget [b [Hb [Hp [Hd Hn]]]]]. split.
    - apply find_key_some in Hget. destruct Hget as [Hin _].
      destruct Hw1 as [_ [_ [_ [_ [_ [_ [_ [N _]]]]]]]]. now apply N.
    - destruct Hw1 as [B _]. rewrite B in Hb.
      pose proof (Hacy b Hb Hd) as Hlt. rewrite Hn, Hp, Hid in Hlt. lia. }
  revert Hchildren Hw1. generalize (getChildNotes note' w1) as cs. generalize w1 as wc.
  intros wc cs. revert wc.
  induction cs as [|c cs IHcs]; intros wc Hcs Hwc.
  - exists wc. split; [reflexivity|exact Hwc].
  - destruct (Hcs c (or_introl eq_refl)) as [Hobjc Hrc].
    destruct (IH c wc Hacy Hwc Hobjc Hrc) as [w' [Hrun' Hw']].
    destruct (IHcs w') as [w'' [Hrun'' Hw'']]; [|exact Hw'|].
    + intros c' Hc'. apply Hcs. now right.
    + exists w''. split; [|exact Hw'']. simpl. unfold bind. rewrite Hrun'. exact Hrun''.
Qed.

(** X23. [protectNoteRecursively], with any flag, on a note of a store whose
    placements have no cycle, returns, and has then changed nothing but
    protection flags: the placements, the image records and the labels are
    those of before, no note and no revision was added or removed, and each
    note and each revision has the title, the content, the dates and the
    deletion flag of before. *)
Theorem protectNoteRecursively_only_flags
    (rank : string -> nat) (depth : nat) (note : Note.t) (protect : jsval) (w : World) :
  acyclic rank w ->
  In note (notes w) ->
  (rank (Note.noteId note) < depth)%nat ->
  exists w', protectNoteRecursively depth note protect w = Ok tt w' /\ only_flags w w'.
Proof.
  intros Hacy Hin Hrank.
  apply (protectNoteRecursively_keeps rank protect w depth note w Hacy); auto.
  - apply only_flags_refl.
  - exists note. split; [exact Hin|apply same_note_but_flag_refl].
Qed.

Lemma protectNoteRecursively_only_flags_sample :
  exists w',
    protectNoteRecursively 3 family_root (JBool false) family_world = Ok tt w' /\
    only_flags family_world w'.
Proof.
  apply (protectNoteRecursively_only_flags family_rank 3 family_root (JBool false)
           family_world family_world_acyclic).
  - simpl. tauto.
  - unfold family_rank. simpl. lia.
Defined.

(** ** Note creation: when it fails *)

Lemma createNote_options_placement (env : NoteEnv) (title content : jsval)
    (extraOptions : ExtraOptions.t) :
  NoteOptions.placement (createNote_options env title content extraOptions)
  = mkNoteOpts (JStr "into") EmptyString.
Proof.
  unfold createNote_options. simpl.
  destruct (js_truthy (ExtraOptions.json extraOptions)
            && negb (string_truthy (ExtraOptions.type extraOptions))); simpl;
    [reflexivity|].
  destruct (negb (string_truthy (ExtraOptions.type extraOptions))); reflexivity.
Qed.

(** X7. [createNote] fails in three cases only, and then it has written
    nothing: an empty parent identifier; a title that is not truthy
    (undefined, null, false, 0 or the empty string); and a parent, other
    than the root, that the store does not hold, when the extra options
    name a type but no mime, so that the mime has to be taken from the
    parent.  In every other case it returns the new identifier, also under
    a parent that the store does not hold. *)
Theorem createNote_outcome (env : NoteEnv) (parentNoteId : string)
    (title content : jsval) (extraOptions : ExtraOptions.t) (w : World) :
  match createNote env parentNoteId title content extraOptions w with
  | Ok noteId _ =>
      noteId = newNoteId env /\
      parentNoteId <> EmptyString /\
      js_truthy title = true /\
      (parentNoteId = "root" \/
       (exists parent, getNote parentNoteId w = Some parent) \/
       string_truthy (ExtraOptions.type extraOptions) = false \/
       string_truthy (ExtraOptions.mime extraOptions) = true)
  | Throw msg w' =>
      w' = w /\
      ((parentNoteId = EmptyString /\ msg = "Empty parentNoteId") \/
       (parentNoteId <> EmptyString /\ js_truthy title = false /\ msg = "Empty title") \/
       (parentNoteId <> EmptyString /\ js_truthy title = true /\
        parentNoteId <> "root" /\
        getNote parentNoteId w = None /\
        string_truthy (ExtraOptions.type extraOptions) = true /\
        string_truthy (ExtraOptions.mime extraOptions) = false /\
        msg = "TypeError: Cannot read property 'mime' of null"))
  | OutOfFuel => False
  end.
Proof.
  destruct (String.eqb_spec parentNoteId EmptyString) as [Hp|Hp].
  { subst. simpl. split; [reflexivity|]. left. now split. }
  destruct (js_truthy title) eqn:Ht.
  2:{ unfold createNote, str_truthy. apply String.eqb_neq in Hp. rewrite Hp, Ht. simpl.
      apply String.eqb_neq in Hp. split; [reflexivity|]. right. left. auto. }
  rewrite (createNote_run env parentNoteId title content extraOptions w Hp Ht).
  rewrite createNewNote_run, createNote_options_placement, getNewNotePosition_into_eq.
  destruct (createNote_options_type_mime env title content extraOptions)
    as [Hty [Hgiven [Hjson Htext]]].
  set (options := createNote_options env title content extraOptions) in *.
  unfold resolve_options. rewrite Hty. simpl negb at 2. cbv iota.
  destruct (String.eqb_spec parentNoteId "root") as [Hr|Hr]; simpl negb; cbv iota.
  { simpl. repeat split; auto. }
  destruct (string_truthy (ExtraOptions.type extraOptions)) eqn:Et.
  - destruct (Hgiven eq_refl) as [_ Hm]. rewrite Hm.
    destruct (string_truthy (ExtraOptions.mime extraOptions)) eqn:Em; simpl.
    + repeat split; auto.
    + destruct (getNote parentNoteId w) as [parent|] eqn:Hn; simpl.
      * repeat split; auto. right. left. now exists parent.
      * split; [reflexivity|]. right. right. repeat split; auto.
  - assert (Hm : string_truthy (NoteOptions.mime options) = true).
    { destruct (js_truthy (ExtraOptions.json extraOptions)) eqn:Ej.
      - destruct (Hjson eq_refl eq_refl) as [_ ->]. reflexivity.
      - destruct (Htext eq_refl eq_refl) as [_ ->]. reflexivity. }
    rewrite Hm. simpl. repeat split; auto.
Qed.
